(** * Blog_generator: a shallow embedding of the extraction, slug, topic,
      orchestration, database, scheduler and application code, the properties
      the specification states about them, and further properties of the
      code.

    Python [str] values are sequences of Unicode code points.  The ASCII
    part of every string operation is written out; the case tables of the
    code points above 127 are taken as a parameter ([UnicodeDB]), so that
    every statement quantified over it holds for the tables of any Python
    build. *)

From Stdlib Require Import String Ascii DecimalString.
From Stdlib Require Import List NArith ZArith Arith Bool Lia.
Import ListNotations.

Set Implicit Arguments.

(* ================================================================== *)
(** * Part I.  The model                                               *)
(* ================================================================== *)

(** ** Python strings *)

Module Py.

Definition char := N.
Definition str := list char.
Bind Scope N_scope with char.

(** String literals are written with Python's escapes: [py "a\nb"]. *)
Fixpoint py (s : string) : str :=
  match s with
  | EmptyString => []
  | String "\" (String "n" r) => 10%N :: py r
  | String "\" (String "t" r) => 9%N :: py r
  | String "\" (String "r" r) => 13%N :: py r
  | String "\" (String "\" r) => 92%N :: py r
  | String a r => N_of_ascii a :: py r
  end.

Definition nl : char := 10%N.
Definition hyphen : char := 45%N.
Definition dquote : char := 34%N.
Definition squote : char := 39%N.

Definition in_range (lo hi c : char) : bool := (lo <=? c)%N && (c <=? hi)%N.

(** [str.isspace] on one code point, which is also what [\s] matches in a
    [str] pattern and what [strip()] and [split()] remove. *)
Definition isspace (c : char) : bool :=
  in_range 9 13 c || in_range 28 32 c || (c =? 133)%N || (c =? 160)%N
  || (c =? 5760)%N || in_range 8192 8202 c || (c =? 8232)%N
  || (c =? 8233)%N || (c =? 8239)%N || (c =? 8287)%N || (c =? 12288)%N.

Definition is_ascii (c : char) : bool := (c <? 128)%N.
Definition is_ascii_upper (c : char) : bool := in_range 65 90 c.
Definition is_ascii_lower (c : char) : bool := in_range 97 122 c.
Definition is_ascii_digit (c : char) : bool := in_range 48 57 c.

Definition ascii_lower (c : char) : char :=
  if is_ascii_upper c then (c + 32)%N else c.
Definition ascii_upper (c : char) : char :=
  if is_ascii_lower c then (c - 32)%N else c.

(** The case class of a code point: the Unicode properties Lowercase,
    Uppercase and titlecase letter (Lt) are disjoint; a code point with
    none of them is not cased. *)
Inductive case_class := Upper | Lower | Title | Uncased.

(** The case tables above ASCII.  [ulower s i] is the lowercase form of the
    code point at index [i] of [s] (the string is there for the final sigma
    rule), [utitle c] the titlecase form of [c]. *)
Record UnicodeDB := {
  ucase : char -> case_class;
  ulower : str -> nat -> str;
  utitle : char -> str
}.

(** The tables that leave every code point above ASCII uncased and
    unchanged; used to run the model on ASCII text. *)
Definition ascii_tables : UnicodeDB :=
  {| ucase := fun _ => Uncased;
     ulower := fun s i => firstn 1 (skipn i s);
     utitle := fun c => [c] |}.

Section Case.
Variable U : UnicodeDB.

Definition case_of (c : char) : case_class :=
  if is_ascii c then
    if is_ascii_upper c then Upper
    else if is_ascii_lower c then Lower else Uncased
  else ucase U c.

Definition is_cased (c : char) : bool :=
  match case_of c with Uncased => false | _ => true end.

Definition lower_at (s : str) (i : nat) (c : char) : str :=
  if is_ascii c then [ascii_lower c] else ulower U s i.

Definition title_of (c : char) : str :=
  if is_ascii c then [ascii_upper c] else utitle U c.

Fixpoint lower_from (whole : str) (i : nat) (s : str) : str :=
  match s with
  | [] => []
  | c :: s' => lower_at whole i c ++ lower_from whole (S i) s'
  end.

(** [str.lower()]. *)
Definition lower (s : str) : str := lower_from s 0 s.

(** [str.isupper()]: no lowercase or titlecase code point, and at least one
    uppercase one. *)
Fixpoint isupper_from (cased : bool) (s : str) : bool :=
  match s with
  | [] => cased
  | c :: s' =>
      match case_of c with
      | Lower | Title => false
      | Upper => isupper_from true s'
      | Uncased => isupper_from cased s'
      end
  end.

Definition isupper (s : str) : bool := isupper_from false s.

(** [str.title()]: a cased code point is lowered when the one before it is
    cased, and put in titlecase otherwise. *)
Fixpoint title_from (whole : str) (i : nat) (previous_is_cased : bool)
    (s : str) : str :=
  match s with
  | [] => []
  | c :: s' =>
      (if previous_is_cased then lower_at whole i c else title_of c)
      ++ title_from whole (S i) (is_cased c) s'
  end.

Definition title (s : str) : str := title_from s 0 false s.

End Case.

(** [s.lstrip(chars)], [s.rstrip(chars)], [s.strip(chars)] for a set of
    code points given as a predicate. *)
Fixpoint lstrip_by (p : char -> bool) (s : str) : str :=
  match s with
  | c :: s' => if p c then lstrip_by p s' else s
  | [] => []
  end.

Fixpoint rstrip_by (p : char -> bool) (s : str) : str :=
  match s with
  | [] => []
  | c :: s' =>
      match rstrip_by p s' with
      | [] => if p c then [] else [c]
      | t => c :: t
      end
  end.

Definition strip_by (p : char -> bool) (s : str) : str :=
  rstrip_by p (lstrip_by p s).

Definition mem (chars : str) (c : char) : bool :=
  existsb (N.eqb c) chars.

(** [s.strip()] and [s.strip(chars)]. *)
Definition strip (s : str) : str := strip_by isspace s.
Definition strip_chars (chars : str) (s : str) : str := strip_by (mem chars) s.

(** [s.split()]: the maximal runs of code points that are not whitespace.
    [cur] is the run being read, newest code point first. *)
Fixpoint split_ws_from (cur : str) (s : str) : list str :=
  match s with
  | [] => match cur with [] => [] | _ => [rev cur] end
  | c :: s' =>
      if isspace c then
        match cur with
        | [] => split_ws_from [] s'
        | _ => rev cur :: split_ws_from [] s'
        end
      else split_ws_from (c :: cur) s'
  end.

Definition split_ws (s : str) : list str := split_ws_from [] s.

(** [s.split(sep)] for a separator of one code point. *)
Fixpoint split_on_from (sep : char) (cur : str) (s : str) : list str :=
  match s with
  | [] => [rev cur]
  | c :: s' =>
      if (c =? sep)%N then rev cur :: split_on_from sep [] s'
      else split_on_from sep (c :: cur) s'
  end.

Definition split_on (sep : char) (s : str) : list str :=
  split_on_from sep [] s.

(** [sep.join(parts)]. *)
Fixpoint join (sep : str) (parts : list str) : str :=
  match parts with
  | [] => []
  | [p] => p
  | p :: rest => p ++ sep ++ join sep rest
  end.

(** [s.startswith(prefix)]. *)
Fixpoint startswith (prefix s : str) : bool :=
  match prefix, s with
  | [], _ => true
  | p :: prefix', c :: s' => (c =? p)%N && startswith prefix' s'
  | _ :: _, [] => false
  end.

(** [s[:n]]. *)
Definition slice_to (n : nat) (s : str) : str := firstn n s.

(** Equality of strings and of lists of strings, as a boolean. *)
Fixpoint str_eqb (a b : str) : bool :=
  match a, b with
  | [], [] => true
  | x :: a', y :: b' => (x =? y)%N && str_eqb a' b'
  | _, _ => false
  end.

(** Exceptions, and a computation that returns or raises. *)
Record exn := { exc_type : str; exc_msg : str }.

Inductive Outcome (A : Type) : Type :=
| Return (a : A)
| Raise (e : exn).
Arguments Return {A} a.
Arguments Raise {A} e.

Definition bind {A B} (c : Outcome A) (f : A -> Outcome B) : Outcome B :=
  match c with
  | Return a => f a
  | Raise e => Raise e
  end.

(** [try: body / except Exception as e: handler e]. *)
Definition try_except {A} (body : Outcome A) (handler : exn -> Outcome A)
    : Outcome A :=
  match body with
  | Return a => Return a
  | Raise e => handler e
  end.


(** [str(n)] for an integer. *)
Definition decimal (n : Z) : str :=
  py (NilEmpty.string_of_int (Z.to_int n)).

End Py.

Export Py.

Declare Scope outcome_scope.
Delimit Scope outcome_scope with outcome.
Notation "x <- c ;; k" := (bind c (fun x => k))
  (at level 61, c at next level, right associativity) : outcome_scope.

(** ** The part of Python's [re] the program uses *)

Module Re.

(** An item of a bracketed set. *)
Inductive citem :=
| CChar (c : char)
| CRange (lo hi : char)
| CSpace.

Record cset := { negated : bool; items : list citem }.

(** The syntax of the patterns: every repetition in the program is over a
    set of single code points, and every pattern has at most one group. *)
Inductive regex :=
| REmpty
| RChar (c : char)
| RSet (cs : cset)
| RSeq (r1 r2 : regex)
| RAlt (r1 r2 : regex)
| RGroup (r : regex)
| RBol
| REol
| RRep (greedy : bool) (lo : nat) (cs : cset).

Record flags := { MULTILINE : bool; IGNORECASE : bool }.

Definition no_flags := {| MULTILINE := false; IGNORECASE := false |}.

(** The code points whose simple lowercase mapping is an ASCII letter:
    the ASCII capitals, U+0130 and the Kelvin sign U+212A. *)
Definition simple_lower (c : char) : char :=
  if is_ascii_upper c then (c + 32)%N
  else if (c =? 304)%N then 105%N
  else if (c =? 8490)%N then 107%N
  else c.

(** Case-insensitive match of the input code point [c] against the ASCII
    pattern code point [x]; dotless i (U+0131) pairs with i and long s
    (U+017F) with s. *)
Definition ic_eq (x c : char) : bool :=
  let lx := ascii_lower x in
  (simple_lower c =? lx)%N
  || ((lx =? 105)%N && (c =? 305)%N)
  || ((lx =? 115)%N && (c =? 383)%N).

Section Matcher.
Variable fl : flags.

Definition chr_match (x c : char) : bool :=
  if IGNORECASE fl then ic_eq x c else (c =? x)%N.

Definition range_match (lo hi c : char) : bool :=
  if IGNORECASE fl then
    let f := simple_lower c in
    in_range lo hi f || in_range lo hi (ascii_upper f)
    || ((c =? 305)%N && (in_range lo hi 105 || in_range lo hi 73))
    || ((c =? 383)%N && (in_range lo hi 115 || in_range lo hi 83))
  else in_range lo hi c.

Definition item_match (it : citem) (c : char) : bool :=
  match it with
  | CChar x => chr_match x c
  | CRange lo hi => range_match lo hi c
  | CSpace => isspace c
  end.

Definition cset_match (cs : cset) (c : char) : bool :=
  xorb (negated cs) (existsb (fun it => item_match it c) (items cs)).

(** [^]: at the start, and with MULTILINE after each newline. *)
Definition at_bol (prev : option char) : bool :=
  match prev with
  | None => true
  | Some c => MULTILINE fl && (c =? nl)%N
  end.

(** [$]: at the end and before a final newline, and with MULTILINE before
    each newline. *)
Definition at_eol (s : str) : bool :=
  match s with
  | [] => true
  | c :: s' =>
      (c =? nl)%N && (MULTILINE fl || match s' with [] => true | _ => false end)
  end.

(** Where the matcher stands: the code point before the position, how
    many code points the match has taken, the text of group 1 once it is
    closed, and, while the group is open, its text so far (newest code
    point first). *)
Record cursor := {
  before : option char;
  taken : nat;
  group1 : option str;
  reading : option str
}.

Definition start_at (prev : option char) : cursor :=
  {| before := prev; taken := 0; group1 := None; reading := None |}.

(** The cursor after the code point [c] is taken. *)
Definition take (c : char) (p : cursor) : cursor :=
  {| before := Some c;
     taken := S (taken p);
     group1 := group1 p;
     reading := option_map (cons c) (reading p) |}.

Definition open_group (p : cursor) : cursor :=
  {| before := before p; taken := taken p; group1 := group1 p;
     reading := Some [] |}.

Definition close_group (p : cursor) : cursor :=
  {| before := before p; taken := taken p;
     group1 := match reading p with
               | Some text => Some (rev text)
               | None => group1 p
               end;
     reading := None |}.

Section Kont.
Variable R : Type.

(** What is left to match after a sub-pattern. *)
Definition kont := cursor -> str -> option R.

(** "X*", "X+": as many as possible first. *)
Fixpoint rep_greedy (f : char -> bool) (k : kont) (lo : nat) (p : cursor)
    (s : str) : option R :=
  let stop := match lo with 0 => k p s | S _ => None end in
  match s with
  | c :: s' =>
      if f c then
        match rep_greedy f k (pred lo) (take c p) s' with
        | Some r => Some r
        | None => stop
        end
      else stop
  | [] => stop
  end.

(** "X*?", "X+?": as few as possible first. *)
Fixpoint rep_lazy (f : char -> bool) (k : kont) (lo : nat) (p : cursor)
    (s : str) : option R :=
  let more :=
    match s with
    | c :: s' => if f c then rep_lazy f k (pred lo) (take c p) s' else None
    | [] => None
    end in
  match lo with
  | 0 => match k p s with Some r => Some r | None => more end
  | S _ => more
  end.

(** The backtracking matcher, in continuation-passing style. *)
Fixpoint m (r : regex) (p : cursor) (s : str) (k : kont) : option R :=
  match r with
  | REmpty => k p s
  | RChar x =>
      match s with
      | c :: s' => if chr_match x c then k (take c p) s' else None
      | [] => None
      end
  | RSet cs =>
      match s with
      | c :: s' => if cset_match cs c then k (take c p) s' else None
      | [] => None
      end
  | RSeq r1 r2 => m r1 p s (fun p' s' => m r2 p' s' k)
  | RAlt r1 r2 =>
      match m r1 p s k with
      | Some x => Some x
      | None => m r2 p s k
      end
  | RGroup r1 => m r1 (open_group p) s (fun p' s' => k (close_group p') s')
  | RBol => if at_bol (before p) then k p s else None
  | REol => if at_eol s then k p s else None
  | RRep true lo cs => rep_greedy (cset_match cs) k lo p s
  | RRep false lo cs => rep_lazy (cset_match cs) k lo p s
  end.

End Kont.

(** A match at the current position: how many code points it takes and
    the text of group 1. *)
Definition match_at (r : regex) (prev : option char) (s : str)
    : option (nat * option str) :=
  m r (start_at prev) s (fun p _ => Some (taken p, group1 p)).

(** A match object. *)
Record Match := { m_start : nat; m_end : nat; m_group1 : option str }.

Fixpoint search_from (r : regex) (prev : option char) (s : str) (pos : nat)
    : option Match :=
  match match_at r prev s with
  | Some (n, cap) =>
      Some {| m_start := pos; m_end := pos + n; m_group1 := cap |}
  | None =>
      match s with
      | [] => None
      | c :: s' => search_from r (Some c) s' (S pos)
      end
  end.

(** [re.search(r, s, flags)]. *)
Definition search (r : regex) (s : str) : option Match :=
  search_from r None s 0.

(** [re.sub(r, repl, s, flags)] for a replacement without group
    references.  [skip] counts the code points of the current match that
    are still to be passed over. *)
Fixpoint sub_from (r : regex) (repl : str) (prev : option char) (s : str)
    (skip : nat) : str :=
  match s with
  | [] =>
      match skip, match_at r prev [] with
      | 0, Some _ => repl
      | _, _ => []
      end
  | c :: s' =>
      match skip with
      | S n => sub_from r repl (Some c) s' n
      | 0 =>
          match match_at r prev s with
          | Some (0, _) => repl ++ c :: sub_from r repl (Some c) s' 0
          | Some (S n, _) => repl ++ sub_from r repl (Some c) s' n
          | None => c :: sub_from r repl (Some c) s' 0
          end
      end
  end.

Definition sub (r : regex) (repl : str) (s : str) : str :=
  sub_from r repl None s 0.

(** [re.split(r, s)] for a pattern without groups that matches at least
    one code point.  [cur] is the piece being read, newest first. *)
Fixpoint split_from (r : regex) (prev : option char) (cur : str) (s : str)
    (skip : nat) : list str :=
  match s with
  | [] => [rev cur]
  | c :: s' =>
      match skip with
      | S n => split_from r (Some c) cur s' n
      | 0 =>
          match match_at r prev s with
          | Some (S n, _) => rev cur :: split_from r (Some c) [] s' n
          | _ => split_from r (Some c) (c :: cur) s' 0
          end
      end
  end.

Definition split (r : regex) (s : str) : list str :=
  split_from r None [] s 0.

End Matcher.

(** Pattern syntax helpers. *)
Definition set_of (its : list citem) : cset :=
  {| negated := false; items := its |}.
Definition set_not (its : list citem) : cset :=
  {| negated := true; items := its |}.

(** [.] : any code point but a newline. *)
Definition dot : cset := set_not [CChar nl].
(** [\s]. *)
Definition space : cset := set_of [CSpace].

(** A literal text. *)
Fixpoint lit (s : str) : regex :=
  match s with
  | [] => REmpty
  | [c] => RChar c
  | c :: s' => RSeq (RChar c) (lit s')
  end.

(** [r1 r2 ... rn] in sequence. *)
Fixpoint seq (rs : list regex) : regex :=
  match rs with
  | [] => REmpty
  | [r] => r
  | r :: rs' => RSeq r (seq rs')
  end.

(** [(?:r1|r2|...|rn)]. *)
Fixpoint alt (rs : list regex) : regex :=
  match rs with
  | [] => REmpty
  | [r] => r
  | r :: rs' => RAlt r (alt rs')
  end.

End Re.

(** ** The world outside the program *)

Module Runtime.

(** The rows of the two tables (schema of the Prisma models). *)
Record BlogPost := {
  id : Z;
  title : str;
  content : str;
  topic : str;
  tags : list str;
  wordCount : option nat;
  metaDescription : option str;
  slug : str;
  createdAt : Z;
  published : bool
}.

Record GenerationLog := {
  log_topic : str;
  status : str;
  errorMsg : option str;
  blogPostId : option Z
}.

(** What the program can change: the connection flag of [db_manager], the
    two tables, and how many calls the Prisma client and the [random]
    module have served. *)
Record World := {
  connected : bool;
  blogposts : list BlogPost;
  generationlogs : list GenerationLog;
  prisma_calls : nat;
  random_calls : nat
}.

(** What the program cannot control: whether the n-th call of the Prisma
    client raises, the n-th draw of the [random] module, what the CrewAI
    pipeline does with a topic (it raises, returns nothing, or returns a
    result whose [str] is the given text), and the clock. *)
Record Env := {
  prisma_fault : nat -> option exn;
  random_draw : nat -> nat;
  crew_kickoff : str -> Outcome (option str);
  current_year : Z;
  now : Z
}.

(** Computations that change the world and return or raise. *)
Definition M (A : Type) := World -> Outcome A * World.

Definition ret {A} (a : A) : M A := fun w => (Return a, w).
Definition raise {A} (e : exn) : M A := fun w => (Raise e, w).
Definition lift {A} (o : Outcome A) : M A := fun w => (o, w).

Definition bindM {A B} (c : M A) (f : A -> M B) : M B :=
  fun w =>
    match c w with
    | (Return a, w') => f a w'
    | (Raise e, w') => (Raise e, w')
    end.

(** [try: body / except Exception as e: handler e]; what the body did to
    the world before it raised stays done. *)
Definition try_exceptM {A} (body : M A) (handler : exn -> M A) : M A :=
  fun w =>
    match body w with
    | (Return a, w') => (Return a, w')
    | (Raise e, w') => handler e w'
    end.

End Runtime.

Export Runtime.

Declare Scope world_scope.
Delimit Scope world_scope with world.
Notation "x <- c ;; k" := (bindM c (fun x => k))
  (at level 61, c at next level, right associativity) : world_scope.
Notation "c ;; k" := (bindM c (fun _ => k))
  (at level 61, right associativity) : world_scope.

(** ** src/database/connection.py *)

Module connection.
Import Re.

(** r"[^a-z0-9\s-]" *)
Definition slug_special : regex :=
  RSet (set_not [CRange 97 122; CRange 48 57; CSpace; CChar hyphen]).

(** r"[\s-]+" *)
Definition slug_separators : regex :=
  RRep true 1 (set_of [CSpace; CChar hyphen]).

Definition generate_slug (U : UnicodeDB) (title : str) : str :=
  let slug := lower U title in
  let slug := sub no_flags slug_special [] slug in
  let slug := sub no_flags slug_separators (py "-") slug in
  let slug := strip_chars (py "-") slug in
  slice_to 100 slug.

Section Database.
Variable U : UnicodeDB.
Variable E : Env.

Local Open Scope world_scope.

(** One call of the Prisma client. *)
Definition prisma_call : M unit :=
  fun w =>
    let w' := {| connected := connected w;
                 blogposts := blogposts w;
                 generationlogs := generationlogs w;
                 prisma_calls := S (prisma_calls w);
                 random_calls := random_calls w |} in
    match prisma_fault E (prisma_calls w) with
    | Some e => (Raise e, w')
    | None => (Return tt, w')
    end.

Definition set_connected (b : bool) : M unit :=
  fun w =>
    (Return tt,
     {| connected := b;
        blogposts := blogposts w;
        generationlogs := generationlogs w;
        prisma_calls := prisma_calls w;
        random_calls := random_calls w |}).

Definition is_connected : M bool := fun w => (Return (connected w), w).

(** [self.db.blogpost.create(data=...)]: the store gives the row its id and
    its timestamp. *)
Definition blogpost_create (title content topic : str) (tags : list str)
    (word_count : option nat) (meta_description : option str) (slug : str)
    : M BlogPost :=
  prisma_call ;;
  fun w =>
    let row := {| id := Z.of_nat (S (List.length (blogposts w)));
                  title := title;
                  content := content;
                  topic := topic;
                  tags := tags;
                  wordCount := word_count;
                  metaDescription := meta_description;
                  slug := slug;
                  createdAt := now E;
                  published := true |} in
    (Return row,
     {| connected := connected w;
        blogposts := blogposts w ++ [row];
        generationlogs := generationlogs w;
        prisma_calls := prisma_calls w;
        random_calls := random_calls w |}).

(** [self.db.generationlog.create(data=...)]. *)
Definition generationlog_create (row : GenerationLog) : M GenerationLog :=
  prisma_call ;;
  fun w =>
    (Return row,
     {| connected := connected w;
        blogposts := blogposts w;
        generationlogs := generationlogs w ++ [row];
        prisma_calls := prisma_calls w;
        random_calls := random_calls w |}).

Definition connect : M unit :=
  c <- is_connected ;;
  if negb c then
    try_exceptM (prisma_call ;; set_connected true) (fun e => raise e)
  else ret tt.

Definition create_blog_post (title content topic : str)
    (tags : option (list str)) (word_count : option nat)
    (meta_description : option str) (slug : option str)
    : M (option BlogPost) :=
  try_exceptM
    (c <- is_connected ;;
     (if negb c then connect else ret tt) ;;
     let slug :=
       match slug with
       | Some (c0 :: given) => c0 :: given
       | _ => generate_slug U title
       end in
     blog_post <- blogpost_create title content topic
                    (match tags with Some l => l | None => [] end)
                    word_count meta_description slug ;;
     ret (Some blog_post))
    (fun _ => ret None).

Definition log_generation_attempt (topic status : str)
    (error_msg : option str) (blog_post_id : option Z)
    : M (option GenerationLog) :=
  try_exceptM
    (c <- is_connected ;;
     (if negb c then connect else ret tt) ;;
     log_entry <- generationlog_create
                    {| log_topic := topic;
                       status := status;
                       errorMsg := error_msg;
                       blogPostId := blog_post_id |} ;;
     ret (Some log_entry))
    (fun _ => ret None).

Definition save_blog_post := create_blog_post.
Definition log_generation := log_generation_attempt.

End Database.

(** The attributes of the [db_manager] object: what [__init__] sets and
    what the class defines. *)
Definition DatabaseManager_attributes : list str :=
  [py "db"; py "_connected"; py "__init__"; py "generate_slug";
   py "connect"; py "disconnect"; py "create_blog_post";
   py "get_recent_blog_posts"; py "get_blog_posts_by_topic";
   py "log_generation_attempt"; py "get_generation_stats"].

Definition AttributeError_DatabaseManager (name : str) : exn :=
  {| exc_type := py "AttributeError";
     exc_msg := py "'DatabaseManager' object has no attribute '"
                ++ name ++ py "'" |}.

(** [db_manager.<name>]: the attribute, or AttributeError. *)
Definition getattr_db_manager {A} (name : str) (attribute : A) : M A :=
  if existsb (str_eqb name) DatabaseManager_attributes
  then ret attribute
  else raise (AttributeError_DatabaseManager name).

(** *** Closing the connection and reading the posts *)

Section Queries.
Variable E : Env.
(** What [blogpost.find_many] returns from a table: the rows whose topic
    contains the given text whatever the case (every row when no text is
    given), newest first, [take] of them at most.  The store decides the
    order of rows of one timestamp. *)
Variable find_many : option str -> Z -> list BlogPost -> list BlogPost.

Local Open Scope world_scope.

Definition blogpost_find_many (topic_contains : option str) (take : Z)
    : M (list BlogPost) :=
  prisma_call E ;;
  fun w => (Return (find_many topic_contains take (blogposts w)), w).

(** [disconnect] logs what the client raises and goes on. *)
Definition disconnect : M unit :=
  c <- is_connected ;;
  if c then
    try_exceptM (prisma_call E ;; set_connected false) (fun _ => ret tt)
  else ret tt.

Definition get_recent_blog_posts (limit : Z) : M (list BlogPost) :=
  try_exceptM
    (c <- is_connected ;;
     (if negb c then connect E else ret tt) ;;
     posts <- blogpost_find_many None limit ;;
     ret posts)
    (fun _ => ret []).

Definition get_blog_posts_by_topic (topic : str) (limit : Z)
    : M (list BlogPost) :=
  try_exceptM
    (c <- is_connected ;;
     (if negb c then connect E else ret tt) ;;
     posts <- blogpost_find_many (Some topic) limit ;;
     ret posts)
    (fun _ => ret []).

End Queries.

End connection.

(** ** src/blog_generator.py: extraction and normalisation *)

Module blog_generator.
Import Re.
Import connection.

(** The calls inside the [try] blocks that can fail, and an oracle telling
    which of them raise (a resource failure of the regex engine, for
    instance).  With [no_faults] every call returns. *)
Inductive site :=
| TitleSearch
| TitleFallback (i : nat)
| TagsSearch (i : nat)
| TagsSplit
| MetaSearch
| MetaSub
| MarkdownFormat
| WordCountSub.

Definition faults := site -> option exn.
Definition no_faults : faults := fun _ => None.

Definition guarded {A} (F : faults) (at_site : site) (a : A) : Outcome A :=
  match F at_site with
  | Some e => Raise e
  | None => Return a
  end.

Definition AttributeError_NoneType_strip : exn :=
  {| exc_type := py "AttributeError";
     exc_msg := py "'NoneType' object has no attribute 'strip'" |}.

Definition TypeError_expected_string : exn :=
  {| exc_type := py "TypeError";
     exc_msg := py "expected string or bytes-like object, got 'NoneType'" |}.

(** [match.group(1)] is [None] when the group took no part in the match;
    the method called on it next then raises. *)
Definition group1_or (e : exn) (mt : Match) : Outcome str :=
  match m_group1 mt with
  | Some g => Return g
  | None => Raise e
  end.

Definition M_ := {| MULTILINE := true; IGNORECASE := false |}.
Definition MI := {| MULTILINE := true; IGNORECASE := true |}.
Definition I_ := {| MULTILINE := false; IGNORECASE := true |}.

(** r"(?:\n|$)" *)
Definition eol : regex := RAlt (RChar nl) REol.
(** r"(.+?)" *)
Definition lazy_text : regex := RGroup (RRep false 1 dot).
(** r"[^.\n]" *)
Definition not_dot_nl : cset := set_not [CChar 46; CChar nl].

(** r"^#\s+(.+?)(?:\n|$)" *)
Definition title_re : regex :=
  seq [RBol; RChar 35; RRep true 1 space; lazy_text; eol].

(** r"(?:Title|TITLE):\s*(.+?)(?:\n|$)" and
    r"(?:^|\n)(...)" around
    r"[A-Z][^.\n]+(?:AI|Technology|Intelligence|Machine Learning|Deep Learning)[^.\n]*" *)
Definition title_patterns : list regex :=
  [ seq [alt [lit (py "Title"); lit (py "TITLE")]; RChar 58;
         RRep true 0 space; lazy_text; eol];
    seq [alt [RBol; RChar nl];
         RGroup (seq [RSet (set_of [CRange 65 90]);
                      RRep true 1 not_dot_nl;
                      alt [lit (py "AI"); lit (py "Technology");
                           lit (py "Intelligence");
                           lit (py "Machine Learning");
                           lit (py "Deep Learning")];
                      RRep true 0 not_dot_nl])] ].

(** r"\*\*Tags:\*\*\s*(.+?)(?:\n|$)", r"(?:Tags|TAGS|Keywords):\s*(.+?)(?:\n|$)"
    and r"(?:Suggested tags|Relevant tags):\s*(.+?)(?:\n|$)" *)
Definition tags_patterns : list regex :=
  [ seq [lit (py "**Tags:**"); RRep true 0 space; lazy_text; eol];
    seq [alt [lit (py "Tags"); lit (py "TAGS"); lit (py "Keywords")];
         RChar 58; RRep true 0 space; lazy_text; eol];
    seq [alt [lit (py "Suggested tags"); lit (py "Relevant tags")];
         RChar 58; RRep true 0 space; lazy_text; eol] ].

(** r"[,;|]" *)
Definition tag_delimiters : regex :=
  RSet (set_of [CChar 44; CChar 59; CChar 124]).

(** r"(?:Meta Description|meta description):\s*(.+?)(?:\n|$)" *)
Definition meta_re : regex :=
  seq [alt [lit (py "Meta Description"); lit (py "meta description")];
       RChar 58; RRep true 0 space; lazy_text; eol].

(** r"(?:Meta Description|meta description):\s*.+?(?:\n|$)" *)
Definition meta_line_re : regex :=
  seq [alt [lit (py "Meta Description"); lit (py "meta description")];
       RChar 58; RRep true 0 space; RRep false 1 dot; eol].

(** r"[#*`\[\]()]" *)
Definition markdown_syntax : regex :=
  RSet (set_of [CChar 35; CChar 42; CChar 96; CChar 91; CChar 93;
                CChar 40; CChar 41]).

Record components := {
  title : str;
  content : str;
  tags : list str;
  word_count : nat;
  meta_description : option str
}.

Definition default_title : str := py "Latest Developments in Generative AI".
Definition default_tags : list str :=
  [py "Generative AI"; py "Artificial Intelligence"; py "Technology";
   py "Machine Learning"; py "Innovation"].

(** [not x] for a string or a list. *)
Definition is_empty {A} (s : list A) : bool :=
  match s with [] => true | _ => false end.

Section Extraction.
Variable U : UnicodeDB.
Variable F : faults.

Local Open Scope outcome_scope.

(** One line of [ensure_proper_markdown]'s loop. *)
Definition format_line (line : str) : str :=
  let line := strip line in
  if is_empty line then []
  else if startswith (py "# ") line && negb (startswith (py "## ") line)
  then line
  else if startswith (py "##") line || startswith (py "###") line
  then line
  else if isupper U line && (List.length (split_ws line) <=? 5)
  then py "## " ++ Py.title U line
  else line.

Definition ensure_proper_markdown_body (content : str) : Outcome str :=
  guarded F MarkdownFormat
    (join [nl] (map format_line (split_on nl content))).

Definition ensure_proper_markdown (content : str) : str :=
  match ensure_proper_markdown_body content with
  | Return formatted => formatted
  | Raise _ => content
  end.

(** The [for pattern in title_patterns] loop; [i] numbers the pattern. *)
Fixpoint title_fallback (i : nat) (patterns : list regex) (content : str)
    (title : str) : Outcome str :=
  match patterns with
  | [] => Return title
  | pattern :: rest =>
      mt <- guarded F (TitleFallback i) (search MI pattern content) ;;
      match mt with
      | Some found =>
          g <- group1_or AttributeError_NoneType_strip found ;;
          Return (strip g)
      | None => title_fallback (S i) rest content title
      end
  end.

(** The two list comprehensions over the pieces of the tag text. *)
Definition clean_tags (pieces : list str) : list str :=
  let tags := map (fun tag => strip (strip_chars (py ",") (strip tag))) pieces in
  filter (fun tag => negb (is_empty tag) && (1 <? List.length tag)) tags.

(** The [for pattern in tags_patterns] loop. *)
Fixpoint tags_loop (i : nat) (patterns : list regex) (content : str)
    : Outcome (list str) :=
  match patterns with
  | [] => Return []
  | pattern :: rest =>
      mt <- guarded F (TagsSearch i) (search MI pattern content) ;;
      match mt with
      | Some found =>
          tags_text <- group1_or TypeError_expected_string found ;;
          pieces <- guarded F TagsSplit (split no_flags tag_delimiters tags_text) ;;
          Return (clean_tags pieces)
      | None => tags_loop (S i) rest content
      end
  end.

(** The [try] block of [extract_blog_components]. *)
Definition extract_body (crew_output : str) : Outcome components :=
  let content := strip crew_output in
  title_match <- guarded F TitleSearch (search M_ title_re content) ;;
  title <-
    match title_match with
    | Some found =>
        g <- group1_or AttributeError_NoneType_strip found ;;
        Return (strip g)
    | None => title_fallback 0 title_patterns content default_title
    end ;;
  let title := strip_chars [dquote; squote] title in
  tags <- tags_loop 0 tags_patterns content ;;
  let tags := if is_empty tags then default_tags else tags in
  meta_desc_match <- guarded F MetaSearch (search I_ meta_re content) ;;
  meta_description <-
    match meta_desc_match with
    | Some found =>
        g <- group1_or AttributeError_NoneType_strip found ;;
        Return (Some (strip g))
    | None => Return None
    end ;;
  content <-
    match meta_description with
    | Some (_ :: _) => guarded F MetaSub (sub I_ meta_line_re [] content)
    | _ => Return content
    end ;;
  let content := ensure_proper_markdown content in
  text_only <- guarded F WordCountSub (sub no_flags markdown_syntax [] content) ;;
  let word_count := List.length (split_ws text_only) in
  Return {| title := title;
            content := content;
            tags := firstn 7 tags;
            word_count := word_count;
            meta_description := meta_description |}.

(** The [except Exception] branch. *)
Definition extract_fallback (crew_output : str) : components :=
  {| title := py "Generated Blog Post on Generative AI";
     content := crew_output;
     tags := [py "Generative AI"; py "Technology"];
     word_count := List.length (split_ws crew_output);
     meta_description := None |}.

Definition extract_blog_components (crew_output : str) : Outcome components :=
  try_except (extract_body crew_output)
    (fun _ => Return (extract_fallback crew_output)).

End Extraction.

(** *** Topic selection and the orchestrator *)

Definition GENERATIVE_AI_TOPICS : list str :=
  [py "Large Language Models (LLMs) and their latest developments";
   py "Retrieval-Augmented Generation (RAG) systems and applications";
   py "AI Agents and autonomous systems";
   py "Multi-modal AI models combining text, image, and audio";
   py "AI-powered chatbots and conversational interfaces";
   py "AI image generation and computer vision breakthroughs";
   py "AI video generation and synthetic media";
   py "AI audio and music generation technologies";
   py "AI code generation and programming assistants";
   py "Prompt engineering and optimization techniques";
   py "Fine-tuning and customization of AI models";
   py "AI safety and alignment research";
   py "Edge AI and on-device machine learning";
   py "AI in creative industries and content creation";
   py "Generative AI ethics and responsible AI development";
   py "AI model compression and efficiency improvements";
   py "Open-source vs proprietary AI models comparison";
   py "AI-powered automation tools and workflows";
   py "Generative AI in healthcare and medical applications";
   py "AI in education and personalized learning systems"].

(** The attributes the class [EnhancedBlogGenerator] and its [__init__]
    and [setup_agents] define. *)
Definition EnhancedBlogGenerator_attributes : list str :=
  [py "GENERATIVE_AI_TOPICS"; py "__init__"; py "setup_agents";
   py "search_tool"; py "research_agent"; py "writer_agent";
   py "editor_agent"; py "generate_dynamic_topic";
   py "create_research_task"; py "create_writing_task";
   py "create_editing_task"; py "extract_blog_components";
   py "ensure_proper_markdown"; py "generate_blog_post"].

Definition IndexError_empty_sequence : exn :=
  {| exc_type := py "IndexError";
     exc_msg := py "Cannot choose from an empty sequence" |}.

Definition TypeError_unexpected_keyword (name : str) : exn :=
  {| exc_type := py "TypeError";
     exc_msg := py "generate_dynamic_topic() got an unexpected keyword argument '"
                ++ name ++ py "'" |}.

Definition TypeError_positional : exn :=
  {| exc_type := py "TypeError";
     exc_msg := py "generate_dynamic_topic() takes 1 positional argument but 2 were given" |}.

(** What [generate_blog_post] returns on success. *)
Record summary := {
  s_id : Z;
  s_title : str;
  s_topic : str;
  s_tags : list str;
  s_word_count : option nat;
  s_created_at : Z
}.

(** The arguments of a call of [generate_dynamic_topic] besides [self]. *)
Inductive call_args :=
| NoArgs
| Keyword (name value : str)
| Positional (value : str).

Section Orchestrator.
Variable U : UnicodeDB.
Variable F : faults.
Variable E : Env.

Local Open Scope world_scope.

(** [random.choice(seq)]. *)
Definition random_choice {A} (seq : list A) : M A :=
  fun w =>
    match seq with
    | [] => (Raise IndexError_empty_sequence, w)
    | x :: _ =>
        (Return (nth (random_draw E (random_calls w) mod List.length seq) seq x),
         {| connected := connected w;
            blogposts := blogposts w;
            generationlogs := generationlogs w;
            prisma_calls := prisma_calls w;
            random_calls := S (random_calls w) |})
    end.

Definition trending_aspects : list str :=
  [py "in " ++ decimal (current_year E);
   py "latest trends and innovations";
   py "breaking developments";
   py "industry impact and future prospects";
   py "practical applications and use cases";
   py "challenges and opportunities ahead"].

Definition generate_dynamic_topic : M str :=
  base_topic <- random_choice GENERATIVE_AI_TOPICS ;;
  aspect <- random_choice trending_aspects ;;
  ret (base_topic ++ py " - " ++ aspect).

(** A call [blog_generator.generate_dynamic_topic(...)]: the method is
    declared with [self] as its only parameter. *)
Definition call_generate_dynamic_topic (args : call_args) : M str :=
  match args with
  | NoArgs => generate_dynamic_topic
  | Keyword name _ => raise (TypeError_unexpected_keyword name)
  | Positional _ => raise TypeError_positional
  end.

(** [custom_topic or self.generate_dynamic_topic()]. *)
Definition resolve_topic (custom_topic : option str) : M str :=
  match custom_topic with
  | Some (c :: rest) => ret (c :: rest)
  | _ => generate_dynamic_topic
  end.

(** The [try] block of [generate_blog_post] once [topic] is bound.  The
    construction of the tasks and of the crew is part of [crew_kickoff]. *)
Definition generate_body (topic : str) : M (option summary) :=
  log_generation E topic (py "in_progress") None None ;;
  result <- lift (crew_kickoff E topic) ;;
  match result with
  | None =>
      log_generation E topic (py "failed")
        (Some (py "No output generated from crew")) None ;;
      ret None
  | Some text =>
      blog_components <- lift (extract_blog_components U F text) ;;
      blog_post <- save_blog_post U E
                     (blog_generator.title blog_components)
                     (blog_generator.content blog_components)
                     topic
                     (Some (blog_generator.tags blog_components))
                     (Some (word_count blog_components))
                     (meta_description blog_components)
                     None ;;
      match blog_post with
      | Some post =>
          log_generation E topic (py "success") None (Some (id post)) ;;
          ret (Some {| s_id := id post;
                       s_title := Runtime.title post;
                       s_topic := topic;
                       s_tags := Runtime.tags post;
                       s_word_count := wordCount post;
                       s_created_at := createdAt post |})
      | None =>
          log_generation E topic (py "failed")
            (Some (py "Failed to save to database")) None ;;
          ret None
      end
  end.

(** The [except Exception as e] branch; [topic] is ["unknown"] when the
    exception came before [topic] was bound. *)
Definition generate_failed (topic : str) (e : exn) : M (option summary) :=
  let error_msg : str := py "Error generating blog post: " ++ exc_msg e in
  log_generation E topic (py "failed") (Some error_msg) None ;;
  ret None.

Definition generate_blog_post (custom_topic : option str)
    : M (option summary) :=
  fun w =>
    match resolve_topic custom_topic w with
    | (Raise e, w') => generate_failed (py "unknown") e w'
    | (Return topic, w') =>
        try_exceptM (generate_body topic) (generate_failed topic) w'
    end.

End Orchestrator.

End blog_generator.

(** ** src/scheduler.py *)

Module scheduler.

(** *** The part of APScheduler the wrapper uses *)

Inductive job_function :=
| generate_blog_job_
| generate_stats_job_
| cleanup_job_.

Inductive trigger :=
| IntervalTrigger_minutes (minutes : Z)
| IntervalTrigger_hours (hours : Z)
| CronTrigger (hour minute : Z).

Record Job := {
  job_func : job_function;
  job_trigger : trigger;
  job_id : str;
  job_name : str
}.

Inductive scheduler_state := STATE_STOPPED | STATE_RUNNING.

(** An [AsyncIOScheduler] with its default in-memory job store.  The jobs
    added while it is stopped wait in [pending] until [start].
    [eventloop] tells whether the scheduler has taken its event loop,
    which [start] does; [shutdowns_queued] counts the shutdowns it has
    handed to the loop and the loop has not run yet. *)
Record AsyncIOScheduler := {
  state : scheduler_state;
  pending : list Job;
  store : list Job;
  eventloop : bool;
  shutdowns_queued : nat
}.

Definition SchedulerAlreadyRunningError : exn :=
  {| exc_type := py "SchedulerAlreadyRunningError";
     exc_msg := py "Scheduler is already running" |}.

Definition SchedulerNotRunningError : exn :=
  {| exc_type := py "SchedulerNotRunningError";
     exc_msg := py "Scheduler is not running" |}.

Definition AttributeError_NoneType (name : str) : exn :=
  {| exc_type := py "AttributeError";
     exc_msg := py "'NoneType' object has no attribute '" ++ name ++ py "'" |}.

(** [self._eventloop.call_soon_threadsafe(...)]: the loop takes the
    callback, and runs it at its next turn.  The program makes its calls
    while the loop runs, so a loop that was taken is open. *)
Definition call_soon_threadsafe (s : AsyncIOScheduler) : Outcome unit :=
  if eventloop s then Return tt
  else Raise (AttributeError_NoneType (py "call_soon_threadsafe")).

(** [wakeup] hands the processing of the due jobs to the loop; running
    the jobs changes nothing of what is modelled here. *)
Definition wakeup (s : AsyncIOScheduler) : Outcome unit :=
  call_soon_threadsafe s.

(** The store's [add_job] under [replace_existing=True]: a job with the
    same id is replaced. *)
Fixpoint real_add_job (j : Job) (jobs : list Job) : list Job :=
  match jobs with
  | [] => [j]
  | j' :: rest =>
      if str_eqb (job_id j') (job_id j) then j :: rest
      else j' :: real_add_job j rest
  end.

(** [scheduler.add_job(..., replace_existing=True)] with a trigger that
    is already built: a stopped scheduler keeps the job for later, a
    running one stores it and wakes up. *)
Definition add_job (j : Job) (s : AsyncIOScheduler)
    : Outcome unit * AsyncIOScheduler :=
  match state s with
  | STATE_STOPPED =>
      (Return tt,
       {| state := state s; pending := pending s ++ [j]; store := store s;
          eventloop := eventloop s;
          shutdowns_queued := shutdowns_queued s |})
  | STATE_RUNNING =>
      let s' := {| state := state s; pending := pending s;
                   store := real_add_job j (store s);
                   eventloop := eventloop s;
                   shutdowns_queued := shutdowns_queued s |} in
      (wakeup s', s')
  end.

(** [scheduler.start()]: it takes the running loop if it has none, and
    refuses to start unless it is stopped; then it stores the pending
    jobs, is running, and wakes up. *)
Definition start (s : AsyncIOScheduler) : Outcome unit * AsyncIOScheduler :=
  match state s with
  | STATE_RUNNING =>
      (Raise SchedulerAlreadyRunningError,
       {| state := state s; pending := pending s; store := store s;
          eventloop := true;
          shutdowns_queued := shutdowns_queued s |})
  | STATE_STOPPED =>
      (Return tt,
       {| state := STATE_RUNNING;
          pending := [];
          store := fold_left (fun jobs j => real_add_job j jobs)
                     (pending s) (store s);
          eventloop := true;
          shutdowns_queued := shutdowns_queued s |})
  end.

(** [scheduler.shutdown(wait=True)]: an [AsyncIOScheduler] does not shut
    down inside the call; it hands the shutdown to its loop and
    returns. *)
Definition shutdown (s : AsyncIOScheduler) : Outcome unit * AsyncIOScheduler :=
  match call_soon_threadsafe s with
  | Return _ =>
      (Return tt,
       {| state := state s; pending := pending s; store := store s;
          eventloop := eventloop s;
          shutdowns_queued := S (shutdowns_queued s) |})
  | Raise e => (Raise e, s)
  end.

(** What the loop runs for one shutdown handed to it: the scheduler stops
    and its in-memory store drops its jobs.  On a stopped scheduler this
    raises SchedulerNotRunningError, inside the loop, which reports it;
    no caller of the program sees it. *)
Definition run_shutdown (s : AsyncIOScheduler) : AsyncIOScheduler :=
  match state s with
  | STATE_STOPPED => s
  | STATE_RUNNING =>
      {| state := STATE_STOPPED; pending := pending s; store := [];
         eventloop := eventloop s;
         shutdowns_queued := shutdowns_queued s |}
  end.

(** One turn of the event loop: it runs what was handed to it. *)
Definition run_loop (s : AsyncIOScheduler) : AsyncIOScheduler :=
  let s' := Nat.iter (shutdowns_queued s) run_shutdown s in
  {| state := state s'; pending := pending s'; store := store s';
     eventloop := eventloop s'; shutdowns_queued := 0 |}.

(** [scheduler.get_jobs()]; the order in which the library lists the
    jobs (by next run time) is not modelled. *)
Definition get_jobs (s : AsyncIOScheduler) : list Job :=
  match state s with
  | STATE_STOPPED => pending s
  | STATE_RUNNING => store s
  end.

(** *** BlogScheduler *)

Inductive level := INFO | WARNING | ERROR.

(** The wrapper, and with it what the module's logger has received. *)
Record BlogScheduler := {
  scheduler : AsyncIOScheduler;
  _running : bool;
  logged : list (level * str)
}.

(** [BlogScheduler.__init__]. *)
Definition init : BlogScheduler :=
  {| scheduler := {| state := STATE_STOPPED; pending := []; store := [];
                     eventloop := false; shutdowns_queued := 0 |};
     _running := false;
     logged := [] |}.

(** The methods of the wrapper change it and return or raise. *)
Definition W (A : Type) := BlogScheduler -> Outcome A * BlogScheduler.

Definition bindW {A B} (c : W A) (f : A -> W B) : W B :=
  fun b =>
    match c b with
    | (Return a, b') => f a b'
    | (Raise e, b') => (Raise e, b')
    end.

Definition try_exceptW {A} (body : W A) (handler : exn -> W A) : W A :=
  fun b =>
    match body b with
    | (Return a, b') => (Return a, b')
    | (Raise e, b') => handler e b'
    end.

Definition log (lv : level) (msg : str) : W unit :=
  fun b =>
    (Return tt,
     {| scheduler := scheduler b;
        _running := _running b;
        logged := logged b ++ [(lv, msg)] |}).

(** A call of a method of [self.scheduler]. *)
Definition on_scheduler
    (call : AsyncIOScheduler -> Outcome unit * AsyncIOScheduler) : W unit :=
  fun b =>
    let (o, s) := call (scheduler b) in
    (o, {| scheduler := s; _running := _running b; logged := logged b |}).

Definition set_running (r : bool) : W unit :=
  fun b =>
    (Return tt,
     {| scheduler := scheduler b; _running := r; logged := logged b |}).

Definition blog_generation_job (interval_minutes : Z) : Job :=
  {| job_func := generate_blog_job_;
     job_trigger := IntervalTrigger_minutes interval_minutes;
     job_id := py "blog_generation_job";
     job_name := py "Generate Blog Post" |}.

Definition stats_reporting_job : Job :=
  {| job_func := generate_stats_job_;
     job_trigger := IntervalTrigger_hours 1;
     job_id := py "stats_reporting_job";
     job_name := py "Report Generation Stats" |}.

Definition daily_cleanup_job : Job :=
  {| job_func := cleanup_job_;
     job_trigger := CronTrigger 2 0;
     job_id := py "daily_cleanup_job";
     job_name := py "Daily Cleanup" |}.

Section Wrapper.
(** How a job's next run time prints. *)
Variable next_run_time : Job -> str.
(** What [IntervalTrigger(minutes=interval_minutes)] raises, if anything:
    the trigger adds the interval to the current time, which is an
    OverflowError for an interval that reaches past the last date.  The
    two other triggers are built from constants and raise nothing. *)
Variable interval_error : Z -> option exn.

Local Notation "x <- c ;; k" := (bindW c (fun x => k))
  (at level 61, c at next level, right associativity).
Local Notation "c ;; k" := (bindW c (fun _ => k))
  (at level 61, right associativity).

Definition IntervalTrigger (interval_minutes : Z) : W unit :=
  fun b =>
    match interval_error interval_minutes with
    | Some e => (Raise e, b)
    | None => (Return tt, b)
    end.

Definition log_interval (interval_minutes : Z) : W unit :=
  if (1440 <=? interval_minutes)%Z then
    log INFO (py "Blog generation interval: "
              ++ decimal (interval_minutes / 60) ++ py " hours ("
              ++ decimal interval_minutes ++ py " minutes)")
  else
    log INFO (py "Blog generation interval: "
              ++ decimal interval_minutes ++ py " minutes").

Definition log_jobs : W unit :=
  fun b =>
    (Return tt,
     fold_left
       (fun b' job =>
          snd (log INFO (py "  - " ++ job_name job ++ py ": "
                         ++ next_run_time job) b'))
       (get_jobs (scheduler b)) b).

Definition start_scheduler (interval_minutes : Z) : W unit :=
  try_exceptW
    (fun b =>
       if _running b then
         log WARNING (py "Scheduler is already running") b
       else
         (IntervalTrigger interval_minutes ;;
          on_scheduler (add_job (blog_generation_job interval_minutes)) ;;
          on_scheduler (add_job stats_reporting_job) ;;
          on_scheduler (add_job daily_cleanup_job) ;;
          on_scheduler start ;;
          set_running true ;;
          log INFO (py "Blog scheduler started successfully!") ;;
          log_interval interval_minutes ;;
          log INFO (py "Next job times:") ;;
          log_jobs) b)
    (fun e =>
       log ERROR (py "Error starting scheduler: " ++ exc_msg e) ;;
       fun b => (Raise e, b)).

Definition stop_scheduler : W unit :=
  try_exceptW
    (fun b =>
       if negb (_running b) then
         log WARNING (py "Scheduler is not running") b
       else
         (on_scheduler shutdown ;;
          set_running false ;;
          log INFO (py "Blog scheduler stopped successfully")) b)
    (fun e => log ERROR (py "Error stopping scheduler: " ++ exc_msg e)).

Definition is_running (b : BlogScheduler) : bool := _running b.

(** What happens to the global instance: the calls the rest of the
    program makes on it, and the turns of the event loop between them. *)
Inductive call :=
| StartScheduler (interval_minutes : Z)
| StopScheduler
| LoopRuns.

Definition step (b : BlogScheduler) (c : call) : BlogScheduler :=
  match c with
  | StartScheduler interval_minutes => snd (start_scheduler interval_minutes b)
  | StopScheduler => snd (stop_scheduler b)
  | LoopRuns =>
      {| scheduler := run_loop (scheduler b);
         _running := _running b;
         logged := logged b |}
  end.

Definition run (calls : list call) : BlogScheduler :=
  fold_left step calls init.

End Wrapper.

Section Jobs.
Variable U : UnicodeDB.
Variable F : blog_generator.faults.
Variable E : Env.

Local Open Scope world_scope.

(** [generate_blog_job]: the body of the timer-triggered run. *)
Definition generate_blog_job : M unit :=
  try_exceptM
    (connection.connect E ;;
     result <- blog_generator.generate_blog_post U F E None ;;
     ret tt)
    (fun _ => ret tt).

(** [generate_now] and the module's [trigger_blog_generation]: the manual
    trigger runs the body of the timer-triggered job. *)
Definition generate_now : M unit := generate_blog_job.
Definition trigger_blog_generation : M unit := generate_now.

End Jobs.

(** *** Inspection *)

Section Inspection.
(** The type of [job.next_run_time], the value each job has there, and
    how a trigger prints. *)
Variable datetime : Type.
Variable next_run_time_of : Job -> datetime.
Variable str_trigger : trigger -> str.

Record JobInfo := {
  info_id : str;
  info_name : str;
  info_next_run_time : datetime;
  info_trigger : str
}.

Definition get_job_info (b : BlogScheduler) : list JobInfo :=
  if negb (_running b) then []
  else
    map (fun job =>
           {| info_id := job_id job;
              info_name := job_name job;
              info_next_run_time := next_run_time_of job;
              info_trigger := str_trigger (job_trigger job) |})
      (get_jobs (scheduler b)).

End Inspection.

End scheduler.

(** ** main.py *)

Module main.

(** *** Compiling the module

    Python compiles a whole file before it runs any of it, and the pass
    that builds the symbol table of each function refuses a [global]
    statement for a name the function has already used or bound. *)

Inductive name_event :=
| Param (name : str)
| Load (name : str)
| Store (name : str)
| Global_ (name : str).

(** What the symbol table of a function knows of a name. *)
Record symbol := {
  DEF_PARAM : bool;
  USE : bool;
  DEF_LOCAL : bool;
  DEF_GLOBAL : bool
}.

Definition no_symbol : symbol :=
  {| DEF_PARAM := false; USE := false; DEF_LOCAL := false;
     DEF_GLOBAL := false |}.

Definition symtable := list (str * symbol).

Fixpoint symtable_lookup (table : symtable) (name : str) : symbol :=
  match table with
  | [] => no_symbol
  | (n, s) :: rest =>
      if str_eqb n name then s else symtable_lookup rest name
  end.

Fixpoint symtable_set (table : symtable) (name : str) (s : symbol)
    : symtable :=
  match table with
  | [] => [(name, s)]
  | (n, s') :: rest =>
      if str_eqb n name then (n, s) :: rest
      else (n, s') :: symtable_set rest name s
  end.

Definition SyntaxError (msg : str) : exn :=
  {| exc_type := py "SyntaxError"; exc_msg := msg |}.

(** One name of the function's text, in the order of the text. *)
Definition symtable_visit (table : symtable) (ev : name_event)
    : Outcome symtable :=
  match ev with
  | Param name =>
      let cur := symtable_lookup table name in
      if DEF_PARAM cur then
        Raise (SyntaxError (py "duplicate argument '" ++ name
                            ++ py "' in function definition"))
      else
        Return (symtable_set table name
                  {| DEF_PARAM := true; USE := USE cur;
                     DEF_LOCAL := DEF_LOCAL cur;
                     DEF_GLOBAL := DEF_GLOBAL cur |})
  | Load name =>
      let cur := symtable_lookup table name in
      Return (symtable_set table name
                {| DEF_PARAM := DEF_PARAM cur; USE := true;
                   DEF_LOCAL := DEF_LOCAL cur;
                   DEF_GLOBAL := DEF_GLOBAL cur |})
  | Store name =>
      let cur := symtable_lookup table name in
      Return (symtable_set table name
                {| DEF_PARAM := DEF_PARAM cur; USE := USE cur;
                   DEF_LOCAL := true;
                   DEF_GLOBAL := DEF_GLOBAL cur |})
  | Global_ name =>
      let cur := symtable_lookup table name in
      if DEF_PARAM cur then
        Raise (SyntaxError (py "name '" ++ name
                            ++ py "' is parameter and global"))
      else if USE cur then
        Raise (SyntaxError (py "name '" ++ name
                            ++ py "' is used prior to global declaration"))
      else if DEF_LOCAL cur then
        Raise (SyntaxError (py "name '" ++ name
                            ++ py "' is assigned to before global declaration"))
      else
        Return (symtable_set table name
                  {| DEF_PARAM := DEF_PARAM cur; USE := USE cur;
                     DEF_LOCAL := DEF_LOCAL cur;
                     DEF_GLOBAL := true |})
  end.

Fixpoint symtable_function (events : list name_event) (table : symtable)
    : Outcome symtable :=
  match events with
  | [] => Return table
  | ev :: rest =>
      match symtable_visit table ev with
      | Return table' => symtable_function rest table'
      | Raise e => Raise e
      end
  end.

(** The names of [lifespan], the first function of main.py, in the order
    of its text: its parameter, the names it reads and assigns, and its
    two [global] statements, one in each [try] block. *)
Definition lifespan_names : list name_event :=
  [Param (py "app");
   Load (py "logger");
   Load (py "db_manager");
   Load (py "logger");
   Global_ (py "scheduler_started");
   Load (py "scheduler_started");
   Load (py "blog_scheduler");
   Store (py "scheduler_started");
   Load (py "logger");
   Load (py "logger");
   Load (py "Exception");
   Store (py "e");
   Load (py "logger");
   Load (py "e");
   Load (py "logger");
   Global_ (py "scheduler_started");
   Load (py "scheduler_started");
   Load (py "blog_scheduler");
   Store (py "scheduler_started");
   Load (py "logger");
   Load (py "db_manager");
   Load (py "logger");
   Load (py "logger");
   Load (py "Exception");
   Store (py "e");
   Load (py "logger");
   Load (py "e")].

(** Compiling main.py: the statements before [lifespan] are imports,
    calls and assignments of the module, which the pass accepts; it
    stops at the first function it refuses. *)
Definition compile_main : Outcome unit :=
  match symtable_function lifespan_names [] with
  | Return _ => Return tt
  | Raise e => Raise e
  end.

(** *** GET /health *)

(** The JSON body and the status code of the answer of [GET /health]. *)
Record Response := {
  status_code : nat;
  r_status : str;
  r_timestamp : str;
  r_database : str;
  r_scheduler : str;
  r_error : option str
}.

Section Health.
Variable E : Env.
(** What a call of an attribute of [db_manager] would do, and how the
    clock prints. *)
Variable db_health_check : M bool.
Variable isoformat_now : str.

Local Open Scope world_scope.

(** The function [health_check] of main.py. *)
Definition health_check (b : scheduler.BlogScheduler) : M Response :=
  try_exceptM
    (method <- connection.getattr_db_manager (py "health_check") db_health_check ;;
     db_healthy <- method ;;
     db_healthy <-
       (if negb db_healthy then
          connection.connect E ;;
          method' <- connection.getattr_db_manager (py "health_check") db_health_check ;;
          method'
        else ret db_healthy) ;;
     ret {| status_code := if db_healthy then 200 else 503;
            r_status := if db_healthy then py "healthy" else py "unhealthy";
            r_timestamp := isoformat_now;
            r_database := if db_healthy then py "connected" else py "disconnected";
            r_scheduler := if scheduler.is_running b then py "running" else py "stopped";
            r_error := None |})
    (fun e =>
       ret {| status_code := 503;
              r_status := py "unhealthy";
              r_timestamp := isoformat_now;
              r_database := py "error";
              r_scheduler := py "unknown";
              r_error := Some (exc_msg e) |}).

(** What a program has of main.py once it has imported it: the
    application with its routes, here the handler of [GET /health]. *)
Record application := {
  get_health : scheduler.BlogScheduler -> M Response
}.

(** [import main], which [uvicorn main:app] and [python main.py] both
    begin with: the file is compiled, and only then run. *)
Definition import_main : Outcome application :=
  match compile_main with
  | Return _ => Return {| get_health := health_check |}
  | Raise e => Raise e
  end.

(** A request to [GET /health] of the application that main.py
    defines. *)
Definition request_health (b : scheduler.BlogScheduler) : M Response :=
  app <- lift import_main ;;
  get_health app b.

End Health.

End main.

(* ================================================================== *)
(** * Part II.  Properties                                             *)
(* ================================================================== *)

Import blog_generator.

(** ** Facts about the matcher *)

Module ReFacts.
Import Re.

(** The patterns in which group 1 takes part in every match. *)
Fixpoint captures (r : regex) : bool :=
  match r with
  | RGroup _ => true
  | RSeq r1 r2 => captures r1 || captures r2
  | RAlt r1 r2 => captures r1 && captures r2
  | _ => false
  end.

Definition captured (p : cursor) : Prop := group1 p <> None.
Definition capturing (p : cursor) : Prop :=
  group1 p <> None \/ reading p <> None.

(** Once a capture is made or under way it is never lost. *)
Definition keeps (p p' : cursor) : Prop :=
  (captured p -> captured p') /\ (capturing p -> capturing p').

Lemma keeps_refl p : keeps p p.
Proof. split; auto. Qed.

Lemma keeps_trans p q r : keeps p q -> keeps q r -> keeps p r.
Proof. intros [A B] [C D]; split; auto. Qed.

Lemma keeps_take c p : keeps p (take c p).
Proof.
  split.
  - auto.
  - intros [G | G]; [left | right]; simpl; auto.
    destruct (reading p); simpl; congruence.
Qed.

Lemma keeps_open p : keeps p (open_group p).
Proof. split; [auto | intros _; right; simpl; discriminate]. Qed.

Lemma captured_close p : capturing p -> captured (close_group p).
Proof.
  unfold captured, capturing; simpl.
  destruct (reading p); intros [G | G]; congruence.
Qed.

Lemma keeps_close p : keeps p (close_group p).
Proof.
  split.
  - intros G. apply captured_close. left; exact G.
  - intros G. left. apply captured_close, G.
Qed.

Section Sound.
Variable fl : flags.
Variable R : Type.

Lemma rep_greedy_sound f (k : kont R) s :
  forall lo p res,
    rep_greedy f k lo p s = Some res ->
    exists p' s', k p' s' = Some res /\ keeps p p'.
Proof.
  induction s as [| c s' IH]; intros lo p res H; simpl in H.
  - destruct lo; [| discriminate]. exists p, []. split; [exact H | apply keeps_refl].
  - destruct (f c).
    + destruct (rep_greedy f k (pred lo) (take c p) s') eqn:Hr.
      * inversion H; subst. apply IH in Hr. destruct Hr as (p' & t & Hk & Hp).
        exists p', t. split; [exact Hk |].
        eapply keeps_trans; [apply keeps_take | exact Hp].
      * destruct lo; [| discriminate].
        exists p, (c :: s'). split; [exact H | apply keeps_refl].
    + destruct lo; [| discriminate].
      exists p, (c :: s'). split; [exact H | apply keeps_refl].
Qed.

Lemma rep_lazy_sound f (k : kont R) s :
  forall lo p res,
    rep_lazy f k lo p s = Some res ->
    exists p' s', k p' s' = Some res /\ keeps p p'.
Proof.
  induction s as [| c s' IH]; intros lo p res H; simpl in H.
  - destruct lo; [| discriminate].
    destruct (k p []) eqn:Hk; [| discriminate]. inversion H; subst.
    exists p, []. split; [exact Hk | apply keeps_refl].
  - assert (Hmore : (if f c then rep_lazy f k (pred lo) (take c p) s' else None)
                    = Some res ->
                    exists p' t, k p' t = Some res /\ keeps p p').
    { destruct (f c); [| discriminate]. intros Hr. apply IH in Hr.
      destruct Hr as (p' & t & Hk & Hp). exists p', t. split; [exact Hk |].
      eapply keeps_trans; [apply keeps_take | exact Hp]. }
    destruct lo.
    + destruct (k p (c :: s')) eqn:Hk.
      * inversion H; subst. exists p, (c :: s'). split; [exact Hk | apply keeps_refl].
      * apply Hmore, H.
    + apply Hmore, H.
Qed.

(** A successful match ends in a call of the continuation, at a cursor
    that kept its capture, and made one if the pattern captures. *)
Lemma m_sound r :
  forall p s (k : kont R) res,
    m fl r p s k = Some res ->
    exists p' s',
      k p' s' = Some res /\ keeps p p' /\ (captures r = true -> captured p').
Proof.
  induction r as [| x | cs | r1 IH1 r2 IH2 | r1 IH1 r2 IH2 | r1 IH1 | | | g lo cs];
    intros p s k res H; simpl in H.
  - exists p, s. repeat split; auto; discriminate.
  - destruct s as [| c s']; [discriminate |].
    destruct (chr_match fl x c); [| discriminate].
    exists (take c p), s'. split; [exact H |]. split; [apply keeps_take | discriminate].
  - destruct s as [| c s']; [discriminate |].
    destruct (cset_match fl cs c); [| discriminate].
    exists (take c p), s'. split; [exact H |]. split; [apply keeps_take | discriminate].
  - apply IH1 in H. destruct H as (p1 & s1 & H & K1 & C1).
    apply IH2 in H. destruct H as (p2 & s2 & H & K2 & C2).
    exists p2, s2. split; [exact H |]. split.
    + eapply keeps_trans; eauto.
    + simpl. intros Hc. apply orb_true_iff in Hc. destruct Hc as [Hc | Hc].
      * apply K2, C1, Hc.
      * apply C2, Hc.
  - simpl. destruct (m fl r1 p s k) eqn:H1.
    + inversion H; subst. apply IH1 in H1. destruct H1 as (p1 & s1 & H1 & K1 & C1).
      exists p1, s1. split; [exact H1 |]. split; [exact K1 |].
      intros Hc. apply andb_true_iff in Hc. apply C1, Hc.
    + apply IH2 in H. destruct H as (p2 & s2 & H2 & K2 & C2).
      exists p2, s2. split; [exact H2 |]. split; [exact K2 |].
      intros Hc. apply andb_true_iff in Hc. apply C2, Hc.
  - apply IH1 in H. destruct H as (p1 & s1 & H & K1 & _).
    exists (close_group p1), s1. split; [exact H |].
    assert (Hcap : captured (close_group p1)).
    { apply captured_close. apply K1. right. simpl. discriminate. }
    split; [| intros _; exact Hcap].
    split; intros _; [exact Hcap | left; exact Hcap].
  - destruct (at_bol fl (before p)); [| discriminate].
    exists p, s. repeat split; auto; discriminate.
  - destruct (at_eol fl s); [| discriminate].
    exists p, s. repeat split; auto; discriminate.
  - destruct g.
    + apply rep_greedy_sound in H. destruct H as (p' & s' & H & K).
      exists p', s'. repeat split; try apply K; auto; discriminate.
    + apply rep_lazy_sound in H. destruct H as (p' & s' & H & K).
      exists p', s'. repeat split; try apply K; auto; discriminate.
Qed.

End Sound.

Lemma match_at_group fl r prev s n cap :
  captures r = true ->
  match_at fl r prev s = Some (n, cap) -> cap <> None.
Proof.
  intros Hc H. unfold match_at in H. apply m_sound in H.
  destruct H as (p' & s' & H & _ & C). inversion H; subst. apply C, Hc.
Qed.

Lemma search_from_group fl r s :
  captures r = true ->
  forall prev pos mt,
    search_from fl r prev s pos = Some mt -> m_group1 mt <> None.
Proof.
  intros Hc. induction s as [| c s' IH]; intros prev pos mt H; simpl in H.
  - destruct (match_at fl r prev []) as [[n cap] |] eqn:Hm; [| discriminate].
    inversion H; subst; simpl. eapply match_at_group; eauto.
  - destruct (match_at fl r prev (c :: s')) as [[n cap] |] eqn:Hm.
    + inversion H; subst; simpl. eapply match_at_group; eauto.
    + eapply IH; eauto.
Qed.

(** In a pattern that captures, [match.group(1)] is a string. *)
Lemma search_group fl r s mt :
  captures r = true ->
  search fl r s = Some mt -> exists g, m_group1 mt = Some g.
Proof.
  intros Hc H. apply search_from_group in H; [| exact Hc].
  destruct (m_group1 mt) as [g |]; [exists g; reflexivity | congruence].
Qed.

End ReFacts.

(** ** The extractor *)

Module ExtractFacts.
Import Re ReFacts blog_generator.

(** The words of the specification for the word count: the markdown
    control characters, and the number of maximal runs of code points
    that are not whitespace. *)
Definition markdown_control (c : char) : bool := mem (py "#*`[]()") c.

Definition without_markdown (s : str) : str :=
  filter (fun c => negb (markdown_control c)) s.

Fixpoint count_tokens_after (after_space : bool) (s : str) : nat :=
  match s with
  | [] => 0
  | c :: s' =>
      (if negb (isspace c) && after_space then 1 else 0)
      + count_tokens_after (isspace c) s'
  end.

Definition count_tokens (s : str) : nat := count_tokens_after true s.

Lemma length_split_ws_from s :
  forall cur,
    List.length (split_ws_from cur s)
    = count_tokens_after (is_empty cur) s + (if is_empty cur then 0 else 1).
Proof.
  induction s as [| c s' IH]; intros cur; simpl.
  - destruct cur; reflexivity.
  - destruct (isspace c); simpl.
    + destruct cur; simpl; rewrite IH; simpl; lia.
    + rewrite IH; simpl. destruct cur; simpl; lia.
Qed.

Lemma length_split_ws s : List.length (split_ws s) = count_tokens s.
Proof. unfold split_ws, count_tokens. rewrite length_split_ws_from. simpl. lia. Qed.

(** Replacing a set of code points by nothing filters them out. *)
Lemma sub_set_filter cs s :
  forall prev,
    sub_from no_flags (RSet cs) [] prev s 0
    = filter (fun c => negb (cset_match no_flags cs c)) s.
Proof.
  induction s as [| c s' IH]; intros prev; simpl.
  - reflexivity.
  - unfold match_at; simpl. destruct (cset_match no_flags cs c); simpl.
    + apply IH.
    + f_equal. apply IH.
Qed.

Lemma sub_markdown_syntax s :
  sub no_flags markdown_syntax [] s = without_markdown s.
Proof.
  unfold sub, markdown_syntax. rewrite sub_set_filter.
  apply filter_ext. intros c. reflexivity.
Qed.

Lemma guarded_no_faults {A} st (a : A) : guarded no_faults st a = Return a.
Proof. reflexivity. Qed.

Lemma group1_or_returns e mt :
  (exists g, m_group1 mt = Some g) -> exists g, group1_or e mt = Return g.
Proof. intros [g Hg]. exists g. unfold group1_or. rewrite Hg. reflexivity. Qed.

Lemma title_fallback_returns pats :
  forallb captures pats = true ->
  forall i content t,
    exists t', title_fallback no_faults i pats content t = Return t'.
Proof.
  induction pats as [| r rest IH]; intros Hc i content t; simpl.
  - exists t; reflexivity.
  - simpl in Hc. apply andb_true_iff in Hc. destruct Hc as [Hr Hrest].
    destruct (search MI r content) as [mt |] eqn:Hs.
    + destruct (@group1_or_returns AttributeError_NoneType_strip _
                  (@search_group _ _ _ _ Hr Hs)) as [g Hg].
      rewrite Hg. simpl. eexists; reflexivity.
    + apply IH, Hrest.
Qed.

Lemma tags_loop_returns pats :
  forallb captures pats = true ->
  forall i content,
    exists ts, tags_loop no_faults i pats content = Return ts.
Proof.
  induction pats as [| r rest IH]; intros Hc i content; simpl.
  - exists []; reflexivity.
  - simpl in Hc. apply andb_true_iff in Hc. destruct Hc as [Hr Hrest].
    destruct (search MI r content) as [mt |] eqn:Hs.
    + destruct (@group1_or_returns TypeError_expected_string _
                  (@search_group _ _ _ _ Hr Hs)) as [g Hg].
      rewrite Hg. simpl. eexists; reflexivity.
    + apply IH, Hrest.
Qed.

(** With no fault the [try] block runs to its [return], and the word
    count is the one computed there from the final content. *)
Lemma extract_body_returns U crew_output :
  exists r,
    extract_body U no_faults crew_output = Return r
    /\ word_count r
       = List.length (split_ws (sub no_flags markdown_syntax []
                                  (blog_generator.content r))).
Proof.
  unfold extract_body. rewrite guarded_no_faults. cbn [bind].
  assert (Ht : exists t,
            match search M_ title_re (strip crew_output) with
            | Some found =>
                bind (group1_or AttributeError_NoneType_strip found)
                  (fun g => Return (strip g))
            | None =>
                title_fallback no_faults 0 title_patterns
                  (strip crew_output) default_title
            end = Return t).
  { destruct (search M_ title_re (strip crew_output)) as [mt |] eqn:Hs.
    - destruct (@group1_or_returns AttributeError_NoneType_strip _
                  (@search_group M_ title_re _ _ eq_refl Hs)) as [g Hg].
      rewrite Hg. simpl. eexists; reflexivity.
    - apply title_fallback_returns. reflexivity. }
  destruct Ht as [t Ht]. rewrite Ht. cbn [bind].
  destruct (@tags_loop_returns tags_patterns eq_refl 0 (strip crew_output))
    as [ts Hts].
  rewrite Hts. cbn [bind]. rewrite guarded_no_faults. cbn [bind].
  assert (Hm : exists md,
            match search I_ meta_re (strip crew_output) with
            | Some found =>
                bind (group1_or AttributeError_NoneType_strip found)
                  (fun g => Return (Some (strip g)))
            | None => Return None
            end = Return md).
  { destruct (search I_ meta_re (strip crew_output)) as [mt |] eqn:Hs.
    - destruct (@group1_or_returns AttributeError_NoneType_strip _
                  (@search_group I_ meta_re _ _ eq_refl Hs)) as [g Hg].
      rewrite Hg. simpl. eexists; reflexivity.
    - eexists; reflexivity. }
  destruct Hm as [md Hm]. rewrite Hm. cbn [bind].
  destruct md as [[| c0 md] |]; rewrite ?guarded_no_faults; cbn [bind];
    eexists; split; reflexivity.
Qed.

End ExtractFacts.

Import blog_generator ExtractFacts.

(** C5, as amended.  For every input string and whatever fails inside
    the [try] block, [extract_blog_components] returns; when the block
    raised, the result is the fixed fallback of the [except] branch: the
    raw input as content, its plain token count, no meta description,
    and a title and a tag pair of its own, "Generated Blog Post on
    Generative AI" and "Generative AI", "Technology". *)
Theorem C5_extraction_never_raises :
  forall (U : UnicodeDB) (F : faults) (crew_output : str),
    exists r,
      extract_blog_components U F crew_output = Return r
      /\ forall e,
           extract_body U F crew_output = Raise e ->
           r = {| blog_generator.title := py "Generated Blog Post on Generative AI";
                  blog_generator.content := crew_output;
                  blog_generator.tags := [py "Generative AI"; py "Technology"];
                  word_count := List.length (split_ws crew_output);
                  meta_description := None |}.
Proof.
  intros U F crew_output. unfold extract_blog_components, try_except.
  destruct (extract_body U F crew_output) as [r | e0].
  - exists r. split; [reflexivity | discriminate].
  - eexists. split; [reflexivity |]. intros e _. reflexivity.
Qed.

(** The [except] branch is reached: a failure of the first search. *)
Example extraction_fault_example :
  forall U e,
    extract_blog_components U
      (fun st => match st with TitleSearch => Some e | _ => None end)
      (py "# My Title\n\nText.")
    = Return (extract_fallback (py "# My Title\n\nText.")).
Proof. intros U e. reflexivity. Qed.

(** The first search runs out of memory. *)
Definition title_search_fails : faults :=
  fun st =>
    match st with
    | TitleSearch => Some {| exc_type := py "MemoryError"; exc_msg := [] |}
    | _ => None
    end.

(** C5 as stated fails: when the extraction raises, the title and the
    tags of the result are not the default title and the default tag set
    that a text without heading and tag marker gets. *)
Lemma C5_counterexample :
  extract_body ascii_tables title_search_fails (py "No heading here.")
  = Raise {| exc_type := py "MemoryError"; exc_msg := [] |}
  /\ exists r,
       extract_blog_components ascii_tables title_search_fails
         (py "No heading here.") = Return r
       /\ blog_generator.content r = py "No heading here."
       /\ blog_generator.title r = py "Generated Blog Post on Generative AI"
       /\ blog_generator.title r <> default_title
       /\ blog_generator.tags r = [py "Generative AI"; py "Technology"]
       /\ blog_generator.tags r <> default_tags
       /\ exists r0,
            extract_blog_components ascii_tables no_faults
              (py "No heading here.") = Return r0
            /\ blog_generator.title r0 = default_title
            /\ blog_generator.tags r0 = default_tags.
Proof.
  split; [reflexivity |].
  eexists. split; [reflexivity |].
  split; [reflexivity |]. split; [reflexivity |].
  split; [discriminate |]. split; [reflexivity |].
  split; [discriminate |].
  eexists. split; [vm_compute; reflexivity |]. split; reflexivity.
Qed.

(** C9.  The word count of the result is the number of whitespace-delimited
    tokens of its content once the characters # * ` [ ] ( ) are removed;
    for "# Title\n**bold** text here" it is 4. *)
Theorem C9_word_count :
  forall (U : UnicodeDB),
    (forall crew_output,
       exists r,
         extract_blog_components U no_faults crew_output = Return r
         /\ word_count r
            = count_tokens (without_markdown (blog_generator.content r)))
    /\ (exists r,
          extract_blog_components U no_faults
            (py "# Title\n**bold** text here") = Return r
          /\ blog_generator.content r = py "# Title\n**bold** text here"
          /\ word_count r = 4).
Proof.
  intros U. split.
  - intros crew_output.
    destruct (extract_body_returns U crew_output) as (r & Hr & Hw).
    exists r. split.
    + unfold extract_blog_components. rewrite Hr. reflexivity.
    + rewrite Hw, sub_markdown_syntax. apply length_split_ws.
  - eexists. split; [vm_compute; reflexivity |]. split; reflexivity.
Qed.

(** ** Title and tags of a well-formed post *)

Module TitleTagsFacts.
Import Re ReFacts blog_generator ExtractFacts.

Lemma rstrip_by_snoc (p : char -> bool) (a : str) (c : char) :
  p c = false -> rstrip_by p (a ++ [c]) = a ++ [c].
Proof.
  intros Hc. induction a as [| x a IH]; simpl.
  - rewrite Hc. reflexivity.
  - rewrite IH. destruct a; reflexivity.
Qed.

(** [strip] leaves a text alone that neither starts nor ends with
    whitespace. *)
Lemma strip_id (c : char) (a : str) (d : char) :
  isspace c = false -> isspace d = false ->
  strip (c :: a ++ [d]) = c :: a ++ [d].
Proof.
  intros Hc Hd. unfold strip, strip_by. simpl. rewrite Hc.
  apply (rstrip_by_snoc isspace (c :: a) d Hd).
Qed.

(** The title step of the [try] block. *)
Definition title_step (content : str) : Outcome str :=
  match search M_ title_re content with
  | Some found =>
      bind (group1_or AttributeError_NoneType_strip found)
        (fun g => Return (strip g))
  | None => title_fallback no_faults 0 title_patterns content default_title
  end.

(** Once the title and the tags are known, so are these fields of the
    result, whatever the meta description search finds. *)
Lemma extract_body_fields U crew_output t ts :
  title_step (strip crew_output) = Return t ->
  tags_loop no_faults 0 tags_patterns (strip crew_output) = Return ts ->
  exists r,
    extract_body U no_faults crew_output = Return r
    /\ blog_generator.title r = strip_chars [dquote; squote] t
    /\ blog_generator.tags r
       = firstn 7 (if is_empty ts then default_tags else ts).
Proof.
  intros Ht Hts. unfold extract_body. rewrite guarded_no_faults. cbn [bind].
  unfold title_step in Ht. rewrite Ht. cbn [bind]. rewrite Hts. cbn [bind].
  rewrite guarded_no_faults. cbn [bind].
  assert (Hm : exists md,
            match search I_ meta_re (strip crew_output) with
            | Some found =>
                bind (group1_or AttributeError_NoneType_strip found)
                  (fun g => Return (Some (strip g)))
            | None => Return None
            end = Return md).
  { destruct (search I_ meta_re (strip crew_output)) as [mt |] eqn:Hs.
    - destruct (@group1_or_returns AttributeError_NoneType_strip _
                  (@search_group I_ meta_re _ _ eq_refl Hs)) as [g Hg].
      rewrite Hg. simpl. eexists; reflexivity.
    - eexists; reflexivity. }
  destruct Hm as [md Hm]. rewrite Hm. cbn [bind].
  destruct md as [[| c0 md] |]; rewrite ?guarded_no_faults; cbn [bind];
    eexists; repeat split; reflexivity.
Qed.

(** The pattern r"\*\*Tags:\*\*\s*(.+?)(?:\n|$)". *)
Definition tags_marker_re : regex := nth 0 tags_patterns REmpty.

End TitleTagsFacts.

Module TagsLoopFacts.
Import Re ReFacts blog_generator ExtractFacts TitleTagsFacts.

(** When the marker pattern matches, its text is split and cleaned. *)
Lemma tags_loop_marker (content : str) (mt : Match) (g : str) :
  search MI tags_marker_re content = Some mt ->
  m_group1 mt = Some g ->
  tags_loop no_faults 0 tags_patterns content
  = Return (clean_tags (split no_flags tag_delimiters g)).
Proof.
  intros Hs Hg.
  change (tags_loop no_faults 0 tags_patterns content)
    with (bind (guarded no_faults (TagsSearch 0)
                  (search MI tags_marker_re content))
            (fun mt =>
               match mt with
               | Some found =>
                   bind (group1_or TypeError_expected_string found)
                     (fun tags_text =>
                        bind (guarded no_faults TagsSplit
                                (split no_flags tag_delimiters tags_text))
                          (fun pieces => Return (clean_tags pieces)))
               | None =>
                   tags_loop no_faults 1 (tl tags_patterns) content
               end)).
  rewrite Hs. rewrite guarded_no_faults. cbn [bind].
  unfold group1_or. rewrite Hg. reflexivity.
Qed.

End TagsLoopFacts.

Import Re ReFacts TitleTagsFacts TagsLoopFacts.

(** Ten tags are cut to seven, and a text with neither heading nor tag
    marker gets the default title and the default tags. *)
Example tag_cap_example :
  forall U,
    exists r,
      extract_blog_components U no_faults
        (py "# T\n**Tags:** t1, t2, t3, t4, t5, t6, t7, t8, t9, t10")
      = Return r
      /\ blog_generator.tags r
         = [py "t1"; py "t2"; py "t3"; py "t4"; py "t5"; py "t6"; py "t7"].
Proof. intros U. eexists. split; [vm_compute; reflexivity | reflexivity]. Qed.

Example defaults_example :
  forall U,
    exists r,
      extract_blog_components U no_faults (py "just some words") = Return r
      /\ blog_generator.title r = default_title
      /\ blog_generator.tags r = default_tags.
Proof.
  intros U. eexists. split; [vm_compute; reflexivity |].
  split; reflexivity.
Qed.

(** ** The slug *)

Module SlugFacts.
Import connection.

Definition is_slug_char (c : char) : bool :=
  is_ascii_lower c || is_ascii_digit c.

(** The words of the specification: "^[a-z0-9]+(-[a-z0-9]+)*$".
    [after_hyphen] holds at the start and right after a hyphen, where a
    letter or a digit has to come. *)
Fixpoint slug_runs (after_hyphen : bool) (s : str) : bool :=
  match s with
  | [] => negb after_hyphen
  | c :: s' =>
      if is_slug_char c then slug_runs false s'
      else (c =? hyphen)%N && negb after_hyphen && slug_runs true s'
  end.

Definition matches_slug_pattern (s : str) : bool := slug_runs true s.

Definition well_formed_slug (s : str) : bool :=
  is_empty s || matches_slug_pattern s.

(** "a" * 99 + " b" *)
Definition long_title : str := repeat 97%N 99 ++ py " b".

End SlugFacts.

Module SlugShape.
Import Re ExtractFacts connection SlugFacts.

Definition is_hyphen (c : char) : bool := (c =? hyphen)%N.
Definition is_separator (c : char) : bool := isspace c || is_hyphen c.

(** The length of the longest prefix of [s] made of code points in [f]. *)
Fixpoint run_length (f : char -> bool) (s : str) : nat :=
  match s with
  | c :: s' => if f c then S (run_length f s') else 0
  | [] => 0
  end.

(** Like [slug_runs], but the text may stop right after a hyphen. *)
Fixpoint slug_prefix (after_hyphen : bool) (s : str) : bool :=
  match s with
  | [] => true
  | c :: s' =>
      if is_slug_char c then slug_prefix false s'
      else is_hyphen c && negb after_hyphen && slug_prefix true s'
  end.

Lemma rep_greedy_run (f : char -> bool) (s : str) :
  forall lo p,
    rep_greedy f (fun p _ => Some (taken p, group1 p)) lo p s
    = if lo <=? run_length f s
      then Some (taken p + run_length f s, group1 p)
      else None.
Proof.
  induction s as [| c s' IH]; intros lo p; simpl.
  - destruct lo; simpl; [rewrite Nat.add_0_r |]; reflexivity.
  - destruct (f c).
    + rewrite IH. simpl taken. simpl group1.
      destruct lo as [| lo]; simpl.
      * rewrite Nat.add_succ_r. reflexivity.
      * destruct (lo <=? run_length f s'); [| reflexivity].
        rewrite Nat.add_succ_r. reflexivity.
    + destruct lo; simpl; [rewrite Nat.add_0_r |]; reflexivity.
Qed.

Lemma match_at_separators (prev : option char) (s : str) :
  match_at no_flags slug_separators prev s
  = match run_length is_separator s with
    | 0 => None
    | S n => Some (S n, None)
    end.
Proof.
  unfold match_at, slug_separators. cbn [m].
  rewrite rep_greedy_run. cbn [start_at taken group1].
  replace (run_length (cset_match no_flags (set_of [CSpace; CChar hyphen])) s)
    with (run_length is_separator s).
  - destruct (run_length is_separator s); reflexivity.
  - clear. induction s as [| c s' IH]; simpl; [reflexivity |].
    rewrite IH.
    replace (cset_match no_flags (set_of [CSpace; CChar hyphen]) c)
      with (is_separator c); [reflexivity |].
    unfold cset_match, is_separator, is_hyphen, set_of, item_match, chr_match.
    cbn [negated items existsb IGNORECASE no_flags xorb].
    rewrite orb_false_r. reflexivity.
Qed.

(** What [sub] keeps of the title: letters, digits, whitespace, hyphens. *)
Definition is_kept (c : char) : bool := is_slug_char c || is_separator c.

Lemma special_is_not_kept (c : char) :
  negb (cset_match no_flags
          (set_not [CRange 97 122; CRange 48 57; CSpace; CChar hyphen]) c)
  = is_kept c.
Proof.
  unfold cset_match, is_kept, is_slug_char, is_separator, is_hyphen,
    is_ascii_lower, is_ascii_digit, set_not, item_match, range_match,
    chr_match.
  cbn [negated items existsb IGNORECASE no_flags xorb].
  rewrite orb_false_r.
  destruct (in_range 97 122 c), (in_range 48 57 c), (isspace c),
    (c =? hyphen)%N; reflexivity.
Qed.

Lemma sub_special (s : str) :
  sub no_flags slug_special [] s = filter is_kept s.
Proof.
  unfold sub, slug_special. rewrite sub_set_filter.
  apply filter_ext. intros c. apply special_is_not_kept.
Qed.

Lemma kept_not_separator (c : char) :
  is_kept c = true -> is_separator c = false -> is_slug_char c = true.
Proof.
  unfold is_kept. intros H1 H2. rewrite H2, orb_false_r in H1. exact H1.
Qed.

(** Collapsing the separator runs: in the middle of a run the output
    starts with a letter or a digit, and anywhere it has the shape of a
    slug that may start and end with a hyphen. *)
Lemma sub_separators_shape (s : str) :
  forallb is_kept s = true ->
  forall prev,
    slug_prefix true
      (sub_from no_flags slug_separators (py "-") prev s
         (run_length is_separator s)) = true
    /\ slug_prefix false
         (sub_from no_flags slug_separators (py "-") prev s 0) = true.
Proof.
  induction s as [| c s' IH]; intros Hk prev.
  - cbn [sub_from run_length]. rewrite match_at_separators.
    cbn [run_length]. split; reflexivity.
  - simpl in Hk. apply andb_true_iff in Hk. destruct Hk as [Hc Hk].
    specialize (IH Hk).
    cbn [sub_from run_length]. rewrite match_at_separators. cbn [run_length].
    destruct (is_separator c) eqn:Hs.
    + destruct (IH (Some c)) as [IHa _]. split.
      * exact IHa.
      * cbn [py app]. change (N_of_ascii "-") with hyphen.
        cbn [slug_prefix].
        replace (is_slug_char hyphen) with false by reflexivity.
        replace (is_hyphen hyphen) with true by reflexivity.
        exact IHa.
    + destruct (IH (Some c)) as [_ IHb].
      pose proof (kept_not_separator c Hc Hs) as Hslug.
      split; cbn [slug_prefix]; rewrite Hslug; exact IHb.
Qed.


Lemma mem_hyphen (c : char) : mem (py "-") c = is_hyphen c.
Proof. unfold mem, is_hyphen. simpl. apply orb_false_r. Qed.

Lemma slug_char_not_hyphen (c : char) :
  is_slug_char c = true -> is_hyphen c = false.
Proof.
  unfold is_slug_char, is_ascii_lower, is_ascii_digit, in_range, is_hyphen,
    hyphen.
  intros H. apply N.eqb_neq. intros ->. discriminate H.
Qed.

Lemma slug_prefix_weaken (b : bool) (s : str) :
  slug_prefix true s = true -> slug_prefix b s = true.
Proof.
  destruct s as [| c s']; simpl; [reflexivity |].
  destruct (is_slug_char c); [auto |].
  rewrite andb_false_r. discriminate.
Qed.

(** Trimming the hyphen at the start. *)
Lemma lstrip_shape (s : str) :
  slug_prefix false s = true ->
  slug_prefix true (lstrip_by (mem (py "-")) s) = true.
Proof.
  destruct s as [| c s']; cbn [lstrip_by slug_prefix]; [reflexivity |].
  rewrite mem_hyphen.
  destruct (is_slug_char c) eqn:Hc.
  - rewrite (slug_char_not_hyphen c Hc). cbn [slug_prefix]. rewrite Hc. auto.
  - intros H. apply andb_true_iff in H. destruct H as [H Hs'].
    apply andb_true_iff in H. destruct H as [Hh _]. rewrite Hh.
    destruct s' as [| d s'']; cbn [lstrip_by]; [reflexivity |].
    rewrite mem_hyphen. cbn [slug_prefix] in Hs'.
    destruct (is_slug_char d) eqn:Hd.
    + rewrite (slug_char_not_hyphen d Hd). cbn [slug_prefix]. rewrite Hd.
      exact Hs'.
    + rewrite andb_false_r in Hs'. discriminate.
Qed.

(** Trimming the hyphen at the end: what is left is empty or matches the
    pattern of the specification. *)
Lemma rstrip_shape (s : str) :
  forall b,
    slug_prefix b s = true ->
    rstrip_by (mem (py "-")) s = []
    \/ slug_runs b (rstrip_by (mem (py "-")) s) = true.
Proof.
  induction s as [| c s' IH]; intros b H; cbn [rstrip_by];
    [left; reflexivity |].
  cbn [slug_prefix] in H. rewrite mem_hyphen.
  destruct (is_slug_char c) eqn:Hc.
  - right. destruct (IH false H) as [E | E].
    + rewrite E. rewrite (slug_char_not_hyphen c Hc). cbn [slug_runs].
      rewrite Hc. reflexivity.
    + destruct (rstrip_by (mem (py "-")) s') as [| d t] eqn:Hr.
      * rewrite (slug_char_not_hyphen c Hc). cbn [slug_runs]. rewrite Hc.
        reflexivity.
      * cbn [slug_runs]. rewrite Hc. exact E.
  - apply andb_true_iff in H. destruct H as [H Hs'].
    apply andb_true_iff in H. destruct H as [Hh Hb].
    destruct (IH true Hs') as [E | E].
    + rewrite E, Hh. left. reflexivity.
    + destruct (rstrip_by (mem (py "-")) s') as [| d t] eqn:Hr.
      * cbn [slug_runs] in E. discriminate.
      * right. cbn [slug_runs]. rewrite Hc. unfold is_hyphen in Hh.
        rewrite Hh, Hb. exact E.
Qed.

(** Cutting a well-formed slug: the cut is empty, well formed, or a
    well-formed slug followed by one hyphen. *)
Lemma firstn_shape (n : nat) :
  forall (s : str) b,
    slug_runs b s = true ->
    firstn n s = []
    \/ slug_runs b (firstn n s) = true
    \/ exists s', firstn n s = s' ++ [hyphen]
                  /\ slug_runs b s' = true
                  /\ List.length (firstn n s) = n.
Proof.
  induction n as [| n IH]; intros s b H; [left; reflexivity |].
  destruct s as [| c s']; [left; reflexivity |].
  right. cbn [firstn]. simpl in H.
  destruct (is_slug_char c) eqn:Hc.
  - destruct (IH s' false H) as [E | [E | (t & E & Ht & Hl)]].
    + left. rewrite E. simpl. rewrite Hc. reflexivity.
    + left. cbn [slug_runs]. rewrite Hc. exact E.
    + right. exists (c :: t). rewrite E. split; [reflexivity |].
      split; [simpl; rewrite Hc; exact Ht |].
      rewrite <- E. simpl. rewrite Hl. reflexivity.
  - apply andb_true_iff in H. destruct H as [H Hs'].
    apply andb_true_iff in H. destruct H as [Hh Hb].
    apply N.eqb_eq in Hh. subst c.
    destruct b; [discriminate |].
    destruct (IH s' true Hs') as [E | [E | (t & E & Ht & Hl)]].
    + right. exists []. rewrite E. split; [reflexivity |].
      split; [reflexivity |].
      destruct n; [reflexivity |]. destruct s'; simpl in *; discriminate.
    + left. cbn [slug_runs]. rewrite Hc.
      replace ((hyphen =? hyphen)%N) with true by reflexivity. exact E.
    + right. exists (hyphen :: t). rewrite E. split; [reflexivity |].
      split.
      * cbn [slug_runs]. rewrite Hc.
        replace ((hyphen =? hyphen)%N) with true by reflexivity. exact Ht.
      * rewrite <- E. simpl. rewrite Hl. reflexivity.
Qed.

(** The slug of any title has at most 100 code points, and it is empty,
    or matches the pattern of the specification, or has exactly 100 code
    points of which the last is a hyphen and the 99 before it match the
    pattern. *)
Lemma generate_slug_shape (U : UnicodeDB) (title : str) :
  List.length (generate_slug U title) <= 100
  /\ (well_formed_slug (generate_slug U title) = true
      \/ exists s',
           generate_slug U title = s' ++ [hyphen]
           /\ matches_slug_pattern s' = true
           /\ List.length (generate_slug U title) = 100).
Proof.
  unfold generate_slug, slice_to. split; [apply firstn_le_length |].
  rewrite sub_special.
  set (kept := filter is_kept (lower U title)).
  assert (Hk : forallb is_kept kept = true).
  { apply forallb_forall. intros c Hc. apply filter_In in Hc. apply Hc. }
  destruct (sub_separators_shape kept Hk None) as [_ H3].
  fold (sub no_flags slug_separators (py "-") kept) in H3.
  apply lstrip_shape in H3.
  destruct (rstrip_shape _ true H3) as [E | E];
    fold (strip_by (mem (py "-")) (sub no_flags slug_separators (py "-") kept))
      in E;
    fold (strip_chars (py "-") (sub no_flags slug_separators (py "-") kept))
      in E.
  - rewrite E. left. rewrite firstn_nil. reflexivity.
  - destruct (firstn_shape 100 _ true E) as [F | [F | (t & F & Ht & Hl)]].
    + left. rewrite F. reflexivity.
    + left. unfold well_formed_slug, matches_slug_pattern. rewrite F.
      apply orb_true_r.
    + right. exists t. split; [exact F |]. split; [exact Ht | exact Hl].
Qed.

(** Facts about single code points, by arithmetic on the ranges. *)
Ltac by_ranges :=
  unfold is_slug_char, is_ascii_lower, is_ascii_digit, is_ascii_upper,
    is_ascii, is_hyphen, isspace, in_range, hyphen in *;
  repeat match goal with
         | H : _ = true |- _ =>
             first [ apply orb_true_iff in H | apply andb_true_iff in H
                   | apply N.leb_le in H | apply N.eqb_eq in H
                   | apply N.ltb_lt in H ]
         | H : _ \/ _ |- _ => destruct H
         | H : _ /\ _ |- _ => destruct H
         end;
  repeat match goal with
         | |- _ || _ = false => apply orb_false_iff; split
         | |- _ && _ = false => apply andb_false_iff
         | |- (_ <? _)%N = true => apply N.ltb_lt
         | |- (_ =? _)%N = false => apply N.eqb_neq
         end;
  try lia.

Lemma slug_char_ascii (c : char) : is_slug_char c = true -> is_ascii c = true.
Proof. intros H. by_ranges. Qed.

Lemma slug_char_not_upper (c : char) :
  is_slug_char c = true -> is_ascii_upper c = false.
Proof.
  intros H. by_ranges;
    first [left; apply N.leb_gt; lia | right; apply N.leb_gt; lia].
Qed.

Lemma slug_char_not_space (c : char) :
  is_slug_char c = true -> isspace c = false.
Proof.
  intros H. by_ranges;
    first [left; apply N.leb_gt; lia | right; apply N.leb_gt; lia].
Qed.

Lemma slug_char_not_separator (c : char) :
  is_slug_char c = true -> is_separator c = false.
Proof.
  intros H. unfold is_separator.
  rewrite (slug_char_not_space c H), (slug_char_not_hyphen c H). reflexivity.
Qed.

(** A text of the slug shape is left as it is by each step. *)
Lemma lower_shape (U : UnicodeDB) (whole s : str) :
  forall b i, slug_prefix b s = true -> lower_from U whole i s = s.
Proof.
  induction s as [| c s' IH]; intros b i H; cbn [lower_from];
    [reflexivity |].
  cbn [slug_prefix] in H. unfold lower_at, ascii_lower.
  destruct (is_slug_char c) eqn:Hc.
  - rewrite (slug_char_ascii c Hc), (slug_char_not_upper c Hc).
    simpl. f_equal. apply (IH false), H.
  - apply andb_true_iff in H. destruct H as [H Hs'].
    apply andb_true_iff in H. destruct H as [Hh _].
    apply N.eqb_eq in Hh. subst c. simpl. f_equal. apply (IH true), Hs'.
Qed.

Lemma filter_shape (s : str) :
  forall b, slug_prefix b s = true -> filter is_kept s = s.
Proof.
  induction s as [| c s' IH]; intros b H; cbn [filter]; [reflexivity |].
  cbn [slug_prefix] in H. unfold is_kept.
  destruct (is_slug_char c) eqn:Hc.
  - simpl. f_equal. apply (IH false), H.
  - apply andb_true_iff in H. destruct H as [H Hs'].
    apply andb_true_iff in H. destruct H as [Hh _].
    unfold is_separator. rewrite Hh, orb_true_r. simpl.
    f_equal. apply (IH true), Hs'.
Qed.

Lemma run_length_after_hyphen (s : str) :
  slug_prefix true s = true -> run_length is_separator s = 0.
Proof.
  destruct s as [| c s']; cbn [slug_prefix run_length]; [reflexivity |].
  destruct (is_slug_char c) eqn:Hc.
  - rewrite (slug_char_not_separator c Hc). reflexivity.
  - rewrite andb_false_r. discriminate.
Qed.

Lemma sub_separators_fixed (s : str) :
  forall b prev,
    slug_prefix b s = true ->
    sub_from no_flags slug_separators (py "-") prev s 0 = s.
Proof.
  induction s as [| c s' IH]; intros b prev H; cbn [sub_from];
    rewrite match_at_separators; cbn [run_length]; [reflexivity |].
  cbn [slug_prefix] in H.
  destruct (is_slug_char c) eqn:Hc.
  - rewrite (slug_char_not_separator c Hc). f_equal. apply (IH false), H.
  - apply andb_true_iff in H. destruct H as [H Hs'].
    apply andb_true_iff in H. destruct H as [Hh _].
    assert (Hsep : is_separator c = true)
      by (unfold is_separator; rewrite Hh; apply orb_true_r).
    rewrite Hsep, (run_length_after_hyphen s' Hs').
    apply N.eqb_eq in Hh. subst c.
    cbn [py app]. change (N_of_ascii "-") with hyphen.
    f_equal. apply (IH true), Hs'.
Qed.

Lemma slug_runs_prefix (s : str) :
  forall b, slug_runs b s = true -> slug_prefix b s = true.
Proof.
  induction s as [| c s' IH]; intros b H; cbn [slug_prefix]; [reflexivity |].
  cbn [slug_runs] in H. destruct (is_slug_char c); [apply IH, H |].
  apply andb_true_iff in H. destruct H as [H Hs'].
  unfold is_hyphen. rewrite H. apply IH, Hs'.
Qed.

Lemma lstrip_fixed (s : str) :
  slug_runs true s = true -> lstrip_by (mem (py "-")) s = s.
Proof.
  destruct s as [| c s']; cbn [lstrip_by slug_runs]; [reflexivity |].
  rewrite mem_hyphen. destruct (is_slug_char c) eqn:Hc.
  - rewrite (slug_char_not_hyphen c Hc). reflexivity.
  - rewrite andb_false_r. discriminate.
Qed.

Lemma rstrip_fixed (s : str) :
  forall b, slug_runs b s = true -> rstrip_by (mem (py "-")) s = s.
Proof.
  induction s as [| c s' IH]; intros b H; cbn [rstrip_by]; [reflexivity |].
  cbn [slug_runs] in H. rewrite mem_hyphen.
  destruct (is_slug_char c) eqn:Hc.
  - rewrite (IH false H). rewrite (slug_char_not_hyphen c Hc).
    destruct s'; reflexivity.
  - apply andb_true_iff in H. destruct H as [H Hs'].
    rewrite (IH true Hs'). destruct s'; [discriminate Hs' | reflexivity].
Qed.

(** A well-formed slug of at most 100 code points is its own slug. *)
Lemma generate_slug_fixed (U : UnicodeDB) (s : str) :
  well_formed_slug s = true -> List.length s <= 100 ->
  generate_slug U s = s.
Proof.
  unfold well_formed_slug, matches_slug_pattern. intros H Hl.
  destruct s as [| c s']; [reflexivity |].
  cbn [is_empty orb] in H.
  pose proof (slug_runs_prefix _ _ H) as Hp.
  unfold generate_slug, slice_to, lower.
  rewrite (lower_shape U _ _ true 0 Hp), sub_special, (filter_shape _ true Hp).
  unfold sub. rewrite (sub_separators_fixed _ true None Hp).
  unfold strip_chars, strip_by. rewrite (lstrip_fixed _ H), (rstrip_fixed _ true H).
  apply firstn_all2, Hl.
Qed.

(** Where the first application gives a well-formed slug, a second one
    changes nothing. *)
Lemma generate_slug_idempotent_if_well_formed (U : UnicodeDB) (title : str) :
  well_formed_slug (generate_slug U title) = true ->
  generate_slug U (generate_slug U title) = generate_slug U title.
Proof.
  intros H. apply generate_slug_fixed; [exact H |].
  apply generate_slug_shape.
Qed.

End SlugShape.

Import connection SlugFacts.

Example slug_ex1 :
  forall U, generate_slug U (py "Hello,  World - 2025!") = py "hello-world-2025".
Proof. intros U. vm_compute. reflexivity. Qed.

Example well_formed_slug_ex :
  well_formed_slug (py "hello-world-2025") = true
  /\ well_formed_slug (py "") = true
  /\ well_formed_slug (py "-a") = false
  /\ well_formed_slug (py "a--b") = false
  /\ well_formed_slug (py "a-") = false
  /\ well_formed_slug (py "A") = false.
Proof. repeat split; reflexivity. Qed.

(** C3 fails on the code.  The title made of 99 letters a, a space and a
    letter b gives a slug of 100 code points that ends with a hyphen: the
    hyphens are trimmed before the slug is cut to 100, not after. *)
Theorem C3_slug_trailing_hyphen :
  forall (U : UnicodeDB),
    generate_slug U long_title = repeat 97%N 99 ++ [hyphen]
    /\ List.length (generate_slug U long_title) = 100
    /\ well_formed_slug (generate_slug U long_title) = false.
Proof. intros U. vm_compute. repeat split; reflexivity. Qed.

(** C7 fails on the code.  On the same title a second application trims
    the hyphen the first one left at the end. *)
Theorem C7_slug_not_idempotent :
  forall (U : UnicodeDB),
    generate_slug U (generate_slug U long_title) = repeat 97%N 99
    /\ generate_slug U (generate_slug U long_title)
       <> generate_slug U long_title.
Proof.
  intros U. split.
  - vm_compute. reflexivity.
  - vm_compute. discriminate.
Qed.

(** ** The markdown normaliser *)

Module MarkdownFacts.
Import blog_generator.

(** What the loop does to one line, case by case.  [t] is the line
    without the whitespace around it. *)
Definition normalized_line (U : UnicodeDB) (line out : str) : Prop :=
  let t := strip line in
  (t = [] -> out = [])
  /\ (t <> [] ->
      startswith (py "# ") t = true \/ startswith (py "##") t = true ->
      out = t)
  /\ (t <> [] ->
      startswith (py "# ") t = false -> startswith (py "##") t = false ->
      isupper U t = true -> List.length (split_ws t) <= 5 ->
      out = py "## " ++ Py.title U t)
  /\ (t <> [] ->
      startswith (py "# ") t = false -> startswith (py "##") t = false ->
      isupper U t = false \/ 5 < List.length (split_ws t) ->
      out = t).

Lemma startswith_hash_space (t : str) :
  startswith (py "# ") t = true -> startswith (py "## ") t = false.
Proof.
  destruct t as [| a [| b t]]; simpl; try discriminate.
  - rewrite andb_false_r. discriminate.
  - intros H. apply andb_true_iff in H. destruct H as [Ha H].
    apply andb_true_iff in H. destruct H as [Hb _].
    apply N.eqb_eq in Hb. subst b. rewrite Ha. reflexivity.
Qed.

Lemma startswith_three_hashes (t : str) :
  startswith (py "###") t = true -> startswith (py "##") t = true.
Proof.
  destruct t as [| a [| b [| c t]]]; simpl; try discriminate;
    rewrite ?andb_false_r; try discriminate.
  rewrite andb_true_r. intros H. apply andb_true_iff in H. destruct H as [Ha H].
  apply andb_true_iff in H. destruct H as [Hb _].
  rewrite Ha, Hb. reflexivity.
Qed.

Ltac line_cases :=
  repeat split; intros; try reflexivity; try congruence;
  repeat match goal with H : _ \/ _ |- _ => destruct H end;
  try congruence; try lia.

Lemma format_line_normalized (U : UnicodeDB) (line : str) :
  normalized_line U line (format_line U line).
Proof.
  unfold normalized_line, format_line.
  destruct (strip line) as [| c t] eqn:Ht.
  - simpl. line_cases.
  - cbn [is_empty].
    remember (c :: t) as l eqn:Hl.
    destruct (startswith (py "# ") l) eqn:H1.
    + rewrite (startswith_hash_space l H1). cbn [negb andb]. line_cases.
    + cbn [andb].
      destruct (startswith (py "##") l) eqn:H2.
      * cbn [orb]. line_cases.
      * assert (H3 : startswith (py "###") l = false).
        { destruct (startswith (py "###") l) eqn:H3; [| reflexivity].
          apply startswith_three_hashes in H3. congruence. }
        rewrite H3. cbn [orb].
        destruct (isupper U l) eqn:Hu; cbn [andb]; [| line_cases].
        destruct (List.length (split_ws l) <=? 5) eqn:Hw.
        -- apply Nat.leb_le in Hw. line_cases.
        -- apply Nat.leb_gt in Hw. line_cases.
Qed.

Lemma Forall2_map_right {A B} (P : A -> B -> Prop) (f : A -> B) (l : list A) :
  (forall x, P x (f x)) -> Forall2 P l (map f l).
Proof. intros H. induction l; simpl; constructor; auto. Qed.

End MarkdownFacts.

Import MarkdownFacts.

(** C8, as amended.  The normaliser splits the content at the newlines and
    joins the results with newlines again; each line is first stripped of
    the whitespace around it, and then: an empty line stays empty; a line
    that starts with "# " or with "##" is kept; a line that is all
    uppercase ([isupper]) with at most five words becomes "## " followed
    by its title-case form; every other line is kept.  So "OVERVIEW"
    becomes "## Overview" and "## Something" is unchanged. *)
Theorem C8_normalizer_lines :
  forall (U : UnicodeDB),
    (forall content,
       exists outs,
         ensure_proper_markdown U no_faults content = join [nl] outs
         /\ Forall2 (normalized_line U) (split_on nl content) outs)
    /\ ensure_proper_markdown U no_faults (py "OVERVIEW") = py "## Overview"
    /\ ensure_proper_markdown U no_faults (py "## Something")
       = py "## Something".
Proof.
  intros U. split; [| split; vm_compute; reflexivity].
  intros content. exists (map (format_line U) (split_on nl content)).
  split; [reflexivity |].
  apply Forall2_map_right. apply format_line_normalized.
Qed.

(** C8 as stated fails: an indented line loses its indentation, a line of
    blanks becomes empty, and a line that starts with "#" without a space
    after it is rewritten as a level-2 heading. *)
Lemma C8_counterexample :
  ensure_proper_markdown ascii_tables no_faults (py "    indented text")
    <> py "    indented text"
  /\ ensure_proper_markdown ascii_tables no_faults (py "a\n   \nb")
     <> py "a\n   \nb"
  /\ ensure_proper_markdown ascii_tables no_faults (py "#HASHTAG")
     = py "## #Hashtag".
Proof.
  split; [vm_compute; discriminate |].
  split; [vm_compute; discriminate | vm_compute; reflexivity].
Qed.

(** ** The topic selector *)

Module TopicFacts.
Import blog_generator.

Lemma random_choice_in {A} (E : Env) (seq : list A) (w : World) :
  seq <> [] ->
  exists x w', random_choice E seq w = (Return x, w') /\ In x seq.
Proof.
  intros Hne. destruct seq as [| a seq]; [congruence |].
  unfold random_choice. eexists. eexists. split; [reflexivity |].
  apply nth_In. apply Nat.mod_upper_bound. simpl. discriminate.
Qed.

Lemma generate_dynamic_topic_returns (E : Env) (w : World) :
  exists base aspect w',
    generate_dynamic_topic E w = (Return (base ++ py " - " ++ aspect), w')
    /\ In base GENERATIVE_AI_TOPICS
    /\ In aspect (trending_aspects E).
Proof.
  unfold generate_dynamic_topic, bindM.
  destruct (@random_choice_in _ E GENERATIVE_AI_TOPICS w) as (base & w1 & H1 & I1);
    [discriminate |].
  rewrite H1.
  destruct (@random_choice_in _ E (trending_aspects E) w1) as (aspect & w2 & H2 & I2);
    [discriminate |].
  rewrite H2.
  exists base, aspect, w2. repeat split; assumption.
Qed.

End TopicFacts.

Import TopicFacts.

(** C2 fails on the code.  [generate_dynamic_topic] is declared without a
    theme parameter and the class has no blockchain pool: the call with
    theme "blockchain" raises TypeError whatever the random source holds,
    and the call without a theme draws from GENERATIVE_AI_TOPICS alone. *)
Theorem C2_theme_argument_is_rejected :
  forall (E : Env) (w : World),
    (exists e,
       call_generate_dynamic_topic E (Keyword (py "theme") (py "blockchain")) w
       = (Raise e, w)
       /\ exc_type e = py "TypeError")
    /\ (exists base aspect w',
          call_generate_dynamic_topic E NoArgs w
          = (Return (base ++ py " - " ++ aspect), w')
          /\ In base GENERATIVE_AI_TOPICS
          /\ In aspect (trending_aspects E))
    /\ existsb (str_eqb (py "BLOCKCHAIN_TOPICS")) EnhancedBlogGenerator_attributes
       = false.
Proof.
  intros E w. split; [| split].
  - eexists. split; reflexivity.
  - apply generate_dynamic_topic_returns.
  - reflexivity.
Qed.

(** ** The health endpoint *)

Import main.

(** C6.  main.py does not compile: the function [lifespan] declares
    [scheduler_started] global a second time, after it has read and
    assigned the name, and Python refuses that with the SyntaxError
    "name 'scheduler_started' is used prior to global declaration".  So
    importing the module raises, for [uvicorn main:app] as for
    [python main.py], and a request to [GET /health] gets no answer from
    the handler, whatever the state of the database and of the
    scheduler.  The function [health_check] itself is written as the
    claim says: [DatabaseManager] has no attribute [health_check], the
    lookup raises AttributeError inside the [try] block, and the
    [except] clause builds the answer 503 with the database reported as
    "error"; but no request reaches it. *)
Theorem C6_health_is_never_answered :
  forall (E : Env) (db_health_check : M bool) (isoformat_now : str)
         (b : scheduler.BlogScheduler) (w : World),
    compile_main
    = Raise (SyntaxError
               (py "name 'scheduler_started' is used prior to global declaration"))
    /\ request_health E db_health_check isoformat_now b w
       = (Raise (SyntaxError
                   (py "name 'scheduler_started' is used prior to global declaration")),
          w)
    /\ existsb (str_eqb (py "health_check")) connection.DatabaseManager_attributes
       = false
    /\ health_check E db_health_check isoformat_now b w
       = (Return {| status_code := 503;
                    r_status := py "unhealthy";
                    r_timestamp := isoformat_now;
                    r_database := py "error";
                    r_scheduler := py "unknown";
                    r_error :=
                      Some (py "'DatabaseManager' object has no attribute 'health_check'") |},
          w).
Proof.
  intros E db_health_check isoformat_now b w.
  assert (Hc : compile_main
               = Raise (SyntaxError
                          (py "name 'scheduler_started' is used prior to global declaration")))
    by (vm_compute; reflexivity).
  split; [exact Hc |]. split.
  - unfold request_health, bindM, lift, import_main. rewrite Hc. reflexivity.
  - split; reflexivity.
Qed.

(** ** The scheduler wrapper *)

Module SchedulerFacts.
Import scheduler.

Definition three_jobs (i : Z) : list Job :=
  [blog_generation_job i; stats_reporting_job; daily_cleanup_job].

Definition idle (loop : bool) : AsyncIOScheduler :=
  {| state := STATE_STOPPED; pending := []; store := [];
     eventloop := loop; shutdowns_queued := 0 |}.

Definition serving (i : Z) (queued : nat) : AsyncIOScheduler :=
  {| state := STATE_RUNNING; pending := []; store := three_jobs i;
     eventloop := true; shutdowns_queued := queued |}.

(** The states of the wrapper between two calls: stopped with nothing
    stored; started, with the three jobs; or stopped by the wrapper while
    the library still runs, its shutdown waiting for the loop. *)
Inductive consistent (b : BlogScheduler) : Prop :=
| is_idle (loop : bool) :
    _running b = false -> scheduler b = idle loop -> consistent b
| is_serving (i : Z) :
    _running b = true -> scheduler b = serving i 0 -> consistent b
| is_stopping (i : Z) :
    _running b = false -> scheduler b = serving i 1 -> consistent b.

Lemma three_jobs_distinct (i : Z) : NoDup (map job_id (three_jobs i)).
Proof.
  simpl. repeat constructor; simpl; intuition discriminate.
Qed.

Lemma consistent_jobs (b : BlogScheduler) :
  consistent b ->
  get_jobs (scheduler b) = [] \/ exists i, get_jobs (scheduler b) = three_jobs i.
Proof.
  intros [loop _ Hs | i _ Hs | i _ Hs]; rewrite Hs.
  - left. reflexivity.
  - right. exists i. reflexivity.
  - right. exists i. reflexivity.
Qed.

Lemma consistent_jobs_distinct (b : BlogScheduler) :
  consistent b -> NoDup (map job_id (get_jobs (scheduler b))).
Proof.
  intros Hb. destruct (consistent_jobs Hb) as [H | [i H]]; rewrite H.
  - constructor.
  - apply three_jobs_distinct.
Qed.

Section Frame.
Variable next_run_time : Job -> str.
Variable interval_error : Z -> option exn.

Lemma fold_frame (f : BlogScheduler -> Job -> BlogScheduler) (jobs : list Job) :
  (forall b j, scheduler (f b j) = scheduler b /\ _running (f b j) = _running b) ->
  forall b,
    scheduler (fold_left f jobs b) = scheduler b
    /\ _running (fold_left f jobs b) = _running b.
Proof.
  intros Hf. induction jobs as [| j jobs IH]; intros b; cbn [fold_left].
  - split; reflexivity.
  - destruct (IH (f b j)) as [H1 H2]. destruct (Hf b j) as [H3 H4].
    rewrite H1, H2, H3, H4. split; reflexivity.
Qed.

Lemma log_jobs_frame (b : BlogScheduler) :
  fst (log_jobs next_run_time b) = Return tt
  /\ scheduler (snd (log_jobs next_run_time b)) = scheduler b
  /\ _running (snd (log_jobs next_run_time b)) = _running b.
Proof.
  unfold log_jobs. cbn [fst snd]. split; [reflexivity |].
  apply fold_frame. intros; split; reflexivity.
Qed.

Lemma log_interval_spec (i : Z) (b : BlogScheduler) :
  exists msg,
    log_interval i b
    = (Return tt,
       {| scheduler := scheduler b; _running := _running b;
          logged := logged b ++ [(INFO, msg)] |}).
Proof.
  unfold log_interval. destruct (1440 <=? i)%Z; eexists; reflexivity.
Qed.

Ltac wrapper_step :=
  cbn [fst snd log _running scheduler logged]; try reflexivity.

(** A start of a wrapper whose flag is set only logs the warning. *)
Lemma start_when_running (i : Z) (s : AsyncIOScheduler)
    (l : list (level * str)) :
  start_scheduler next_run_time interval_error i
    {| scheduler := s; _running := true; logged := l |}
  = (Return tt,
     {| scheduler := s; _running := true;
        logged := l ++ [(WARNING, py "Scheduler is already running")] |}).
Proof. reflexivity. Qed.

(** The flag after a start, in any state: set when the call returned,
    clear when it raised. *)
Lemma start_flag (i : Z) (b : BlogScheduler) :
  match fst (start_scheduler next_run_time interval_error i b) with
  | Return _ =>
      _running (snd (start_scheduler next_run_time interval_error i b)) = true
  | Raise _ =>
      _running (snd (start_scheduler next_run_time interval_error i b)) = false
  end.
Proof.
  destruct b as [s r l]. destruct r; [reflexivity |].
  unfold start_scheduler, try_exceptW, bindW, IntervalTrigger,
    on_scheduler, set_running.
  destruct (interval_error i) as [e |]; wrapper_step.
  destruct (add_job (blog_generation_job i) s) as [[[] | e1] s1];
    wrapper_step.
  destruct (add_job stats_reporting_job s1) as [[[] | e2] s2]; wrapper_step.
  destruct (add_job daily_cleanup_job s2) as [[[] | e3] s3]; wrapper_step.
  destruct (start s3) as [[[] | e4] s4]; wrapper_step.
  match goal with
  | |- context [log_interval i ?b0] =>
      destruct (log_interval_spec i b0) as [msg Hm]; rewrite Hm
  end.
  wrapper_step.
  match goal with
  | |- context [log_jobs next_run_time ?b0] =>
      destruct (log_jobs_frame b0) as (H1 & _ & H3);
      destruct (log_jobs next_run_time b0) as [o b'] eqn:Hj
  end.
  cbn [fst snd] in *. subst o. cbn [fst snd]. exact H3.
Qed.

(** A start of a stopped wrapper with an interval the trigger accepts. *)
Lemma start_from_idle (i : Z) (loop : bool) (l : list (level * str)) :
  interval_error i = None ->
  exists l',
    start_scheduler next_run_time interval_error i
      {| scheduler := idle loop; _running := false; logged := l |}
    = (Return tt,
       {| scheduler := serving i 0; _running := true; logged := l' |}).
Proof.
  intros Hi.
  unfold start_scheduler, try_exceptW, bindW, IntervalTrigger,
    on_scheduler, set_running, log_jobs, log_interval.
  cbn [_running scheduler logged]. rewrite Hi.
  destruct (1440 <=? i)%Z; eexists; reflexivity.
Qed.

(** A start with an interval the trigger refuses changes nothing but the
    log. *)
Lemma start_refused (i : Z) (e : exn) (s : AsyncIOScheduler)
    (l : list (level * str)) :
  interval_error i = Some e ->
  start_scheduler next_run_time interval_error i {| scheduler := s; _running := false; logged := l |}
  = (Raise e,
     {| scheduler := s; _running := false;
        logged := l ++ [(ERROR, py "Error starting scheduler: " ++ exc_msg e)] |}).
Proof.
  intros Hi.
  unfold start_scheduler, try_exceptW, bindW, IntervalTrigger.
  cbn [_running scheduler logged]. rewrite Hi. reflexivity.
Qed.

(** A start while the shutdown still waits for the loop: the jobs are
    stored anew, and the library refuses to start. *)
Lemma start_from_stopping (i k : Z) (q : nat) (l : list (level * str)) :
  interval_error i = None ->
  start_scheduler next_run_time interval_error i
    {| scheduler := serving k q; _running := false; logged := l |}
  = (Raise SchedulerAlreadyRunningError,
     {| scheduler := serving i q; _running := false;
        logged := l ++ [(ERROR, py "Error starting scheduler: "
                                ++ exc_msg SchedulerAlreadyRunningError)] |}).
Proof.
  intros Hi.
  unfold start_scheduler, try_exceptW, bindW, IntervalTrigger,
    on_scheduler, set_running.
  cbn [_running scheduler logged]. rewrite Hi. reflexivity.
Qed.

Lemma stop_when_stopped (s : AsyncIOScheduler) (l : list (level * str)) :
  stop_scheduler {| scheduler := s; _running := false; logged := l |}
  = (Return tt,
     {| scheduler := s; _running := false;
        logged := l ++ [(WARNING, py "Scheduler is not running")] |}).
Proof. reflexivity. Qed.

(** A stop of a started wrapper clears the flag and leaves the shutdown
    to the loop. *)
Lemma stop_when_serving (i : Z) (q : nat) (l : list (level * str)) :
  stop_scheduler {| scheduler := serving i q; _running := true; logged := l |}
  = (Return tt,
     {| scheduler := serving i (S q); _running := false;
        logged := l ++ [(INFO, py "Blog scheduler stopped successfully")] |}).
Proof. reflexivity. Qed.

Lemma start_consistent (i : Z) (b : BlogScheduler) :
  consistent b -> consistent (snd (start_scheduler next_run_time interval_error i b)).
Proof.
  intros Hb. destruct b as [s r l].
  destruct Hb as [loop Hr Hs | k Hr Hs | k Hr Hs];
    cbn [_running scheduler] in Hr, Hs; subst r s.
  - destruct (interval_error i) as [e |] eqn:Hi.
    + rewrite (start_refused _ _ Hi). eapply is_idle; reflexivity.
    + destruct (start_from_idle loop l Hi) as [l' H]. rewrite H.
      eapply is_serving; reflexivity.
  - rewrite start_when_running. eapply is_serving; reflexivity.
  - destruct (interval_error i) as [e |] eqn:Hi.
    + rewrite (start_refused _ _ Hi). eapply is_stopping; reflexivity.
    + rewrite (start_from_stopping _ _ _ Hi). eapply is_stopping; reflexivity.
Qed.

Lemma stop_consistent (b : BlogScheduler) :
  consistent b ->
  fst (stop_scheduler b) = Return tt
  /\ _running (snd (stop_scheduler b)) = false
  /\ consistent (snd (stop_scheduler b)).
Proof.
  intros Hb. destruct b as [s r l].
  destruct Hb as [loop Hr Hs | k Hr Hs | k Hr Hs];
    cbn [_running scheduler] in Hr, Hs; subst r s.
  - rewrite stop_when_stopped. repeat split. eapply is_idle; reflexivity.
  - rewrite stop_when_serving. repeat split. eapply is_stopping; reflexivity.
  - rewrite stop_when_stopped. repeat split. eapply is_stopping; reflexivity.
Qed.

(** After a turn of the loop no shutdown waits: the wrapper is stopped
    with nothing stored, or started. *)
Lemma loop_consistent (b : BlogScheduler) :
  consistent b ->
  (_running (step next_run_time interval_error b LoopRuns) = false
   /\ exists loop, scheduler (step next_run_time interval_error b LoopRuns) = idle loop)
  \/ (_running (step next_run_time interval_error b LoopRuns) = true
      /\ exists i, scheduler (step next_run_time interval_error b LoopRuns) = serving i 0).
Proof.
  intros [loop Hr Hs | k Hr Hs | k Hr Hs]; cbn [step scheduler _running];
    rewrite Hr, Hs.
  - left. split; [reflexivity |]. exists loop. reflexivity.
  - right. split; [reflexivity |]. exists k. reflexivity.
  - left. split; [reflexivity |]. exists true. reflexivity.
Qed.

Lemma step_consistent (b : BlogScheduler) (c : call) :
  consistent b -> consistent (step next_run_time interval_error b c).
Proof.
  intros Hb. destruct c as [i | |].
  - apply start_consistent, Hb.
  - apply stop_consistent, Hb.
  - destruct (loop_consistent Hb) as [[Hr [loop Hs]] | [Hr [i Hs]]].
    + eapply is_idle; eassumption.
    + eapply is_serving; eassumption.
Qed.

Lemma fold_consistent (calls : list call) :
  forall b, consistent b -> consistent (fold_left (step next_run_time interval_error) calls b).
Proof.
  induction calls as [| c calls IH]; intros b Hb; simpl.
  - exact Hb.
  - apply IH, step_consistent, Hb.
Qed.

(** Every state the wrapper reaches from [__init__] is consistent. *)
Lemma run_consistent (calls : list call) : consistent (run next_run_time interval_error calls).
Proof. apply fold_consistent. eapply is_idle; reflexivity. Qed.

(** Once the loop has had its turn, a start with an interval the trigger
    accepts returns. *)
Lemma start_after_loop (i : Z) (b : BlogScheduler) :
  consistent b -> interval_error i = None ->
  fst (start_scheduler next_run_time interval_error i (step next_run_time interval_error b LoopRuns)) = Return tt.
Proof.
  intros Hb Hi.
  destruct (loop_consistent Hb) as [[Hr [loop Hs]] | [Hr [k Hs]]];
    destruct (step next_run_time interval_error b LoopRuns) as [s r l];
    cbn [_running scheduler] in Hr, Hs; subst r s.
  - destruct (start_from_idle loop l Hi) as [l' H]. rewrite H. reflexivity.
  - rewrite start_when_running. reflexivity.
Qed.

End Frame.

End SchedulerFacts.

Import scheduler SchedulerFacts.

(** C10.  A call of [start_scheduler] on a wrapper whose flag is set
    returns at once: it adds the warning "Scheduler is already running"
    to the log and changes nothing else, so it registers no job.  After
    a call of [start_scheduler] that returned, [is_running] is true;
    after one that raised it is false.  In every state the wrapper
    reaches from its construction by calls of [start_scheduler] and
    [stop_scheduler] and turns of the event loop: after two consecutive
    starts no two jobs have the same id, and when the first of them
    returned there are three jobs and the second start leaves the
    library scheduler as it is; a stop returns and leaves [is_running]
    false; a turn of the loop does not change [is_running].  At
    construction [is_running] is false; a start does return when the
    trigger accepts the interval and the loop has had its turn since the
    last stop; and when the trigger refuses the interval, a start of a
    wrapper whose flag is clear raises what the trigger raised and
    changes nothing but the log. *)
Theorem C10_scheduler_guard :
  forall (next_run_time : Job -> str) (interval_error : Z -> option exn),
    (forall s l j,
       start_scheduler next_run_time interval_error j
         {| scheduler := s; _running := true; logged := l |}
       = (Return tt,
          {| scheduler := s; _running := true;
             logged := l ++ [(WARNING, py "Scheduler is already running")] |}))
    /\ (forall b i,
          match fst (start_scheduler next_run_time interval_error i b) with
          | Return _ =>
              is_running
                (snd (start_scheduler next_run_time interval_error i b))
              = true
          | Raise _ =>
              is_running
                (snd (start_scheduler next_run_time interval_error i b))
              = false
          end)
    /\ (forall calls i j,
          let b := run next_run_time interval_error calls in
          let b1 := snd (start_scheduler next_run_time interval_error i b) in
          let b2 := snd (start_scheduler next_run_time interval_error j b1) in
          NoDup (map job_id (get_jobs (scheduler b2)))
          /\ (fst (start_scheduler next_run_time interval_error i b)
              = Return tt ->
              List.length (get_jobs (scheduler b1)) = 3
              /\ scheduler b2 = scheduler b1)
          /\ fst (stop_scheduler b) = Return tt
          /\ is_running (snd (stop_scheduler b)) = false
          /\ is_running (step next_run_time interval_error b LoopRuns)
             = is_running b)
    /\ is_running init = false
    /\ (forall calls i,
          interval_error i = None ->
          fst (start_scheduler next_run_time interval_error i
                 (step next_run_time interval_error
                    (run next_run_time interval_error calls) LoopRuns))
          = Return tt)
    /\ (forall s l i e,
          interval_error i = Some e ->
          start_scheduler next_run_time interval_error i
            {| scheduler := s; _running := false; logged := l |}
          = (Raise e,
             {| scheduler := s; _running := false;
                logged := l ++ [(ERROR, py "Error starting scheduler: "
                                        ++ exc_msg e)] |})).
Proof.
  intros next_run_time interval_error.
  split; [intros s l j; apply start_when_running |].
  split; [intros b i; apply start_flag |].
  split; [| split; [reflexivity |]];
    [| split; [| intros s l i e Hi; apply start_refused, Hi]].
  - intros calls i j b b1 b2.
    pose proof (run_consistent next_run_time interval_error calls) as Hb.
    fold b in Hb.
    pose proof (start_consistent next_run_time interval_error i Hb) as Hb1.
    fold b1 in Hb1.
    pose proof (start_consistent next_run_time interval_error j Hb1) as Hb2.
    fold b2 in Hb2.
    split; [apply consistent_jobs_distinct, Hb2 |].
    split.
    + intros Hret.
      pose proof (start_flag next_run_time interval_error i b) as Hf.
      rewrite Hret in Hf. fold b1 in Hf.
      subst b2. destruct b1 as [s1 r1 l1]. cbn [_running] in Hf. subst r1.
      rewrite start_when_running. cbn [snd scheduler]. split; [| reflexivity].
      inversion Hb1 as [loop Hr Hs | k Hr Hs | k Hr Hs];
        cbn [_running scheduler] in Hr, Hs; try discriminate Hr.
      rewrite Hs. reflexivity.
    + destruct (stop_consistent Hb) as (H1 & H2 & _).
      split; [exact H1 |]. split; [exact H2 | reflexivity].
  - intros calls i Hi. apply start_after_loop; [apply run_consistent | exact Hi].
Qed.

(** ** The orchestrator *)

Module OrchestratorFacts.
Import connection blog_generator.

Definition log_row (topic status : str) (error_msg : option str)
    (blog_post_id : option Z) : GenerationLog :=
  {| log_topic := topic; status := status; errorMsg := error_msg;
     blogPostId := blog_post_id |}.

(** One of the calls of the client made since [w0] raised, and no call
    was made after it up to [w']. *)
Definition own_call_failed (E : Env) (w0 w' : World) : Prop :=
  exists n e,
    prisma_calls w0 <= n /\ prisma_calls w' = S n
    /\ prisma_fault E n = Some e.

(** What one call of [log_generation] made in [w0] has done when it ends
    in [w']: it has returned the row and appended it, or it has returned
    nothing and left the table as it was because a call of the client it
    made itself raised. *)
Definition row_written (E : Env) (topic status : str)
    (error_msg : option str) (blog_post_id : option Z) (w0 w' : World)
    : Prop :=
  exists r,
    log_generation E topic status error_msg blog_post_id w0 = (Return r, w')
    /\ ((r = Some (log_row topic status error_msg blog_post_id)
         /\ generationlogs w'
            = generationlogs w0 ++ [log_row topic status error_msg blog_post_id])
        \/ (r = None
            /\ generationlogs w' = generationlogs w0
            /\ own_call_failed E w0 w')).

(** [log_generation] never raises. *)
Lemma log_generation_spec (E : Env) (topic status : str)
    (error_msg : option str) (blog_post_id : option Z) (w : World) :
  exists r w',
    log_generation E topic status error_msg blog_post_id w = (Return r, w')
    /\ blogposts w' = blogposts w
    /\ random_calls w' = random_calls w
    /\ row_written E topic status error_msg blog_post_id w w'.
Proof.
  unfold row_written, own_call_failed.
  unfold log_generation, log_generation_attempt, try_exceptM, bindM,
    is_connected, connect, generationlog_create, prisma_call, set_connected,
    ret, raise, try_exceptM, bindM, is_connected, log_row.
  destruct (connected w) eqn:Hc; simpl.
  - rewrite Hc. simpl.
    destruct (prisma_fault E (prisma_calls w)) eqn:Hp; simpl;
      eexists; eexists; (split; [reflexivity |]); simpl;
      (split; [reflexivity |]); (split; [reflexivity |]);
      eexists; (split; [reflexivity |]).
    + right. split; [reflexivity |]. split; [reflexivity |].
      exists (prisma_calls w). eexists.
      split; [lia |]. split; [reflexivity | exact Hp].
    + left. split; reflexivity.
  - rewrite Hc. simpl.
    destruct (prisma_fault E (prisma_calls w)) eqn:Hp; simpl.
    + eexists; eexists; (split; [reflexivity |]); simpl;
        (split; [reflexivity |]); (split; [reflexivity |]);
        eexists; (split; [reflexivity |]).
      right. split; [reflexivity |]. split; [reflexivity |].
      exists (prisma_calls w). eexists.
      split; [lia |]. split; [reflexivity | exact Hp].
    + destruct (prisma_fault E (S (prisma_calls w))) eqn:Hq; simpl;
        eexists; eexists; (split; [reflexivity |]); simpl;
        (split; [reflexivity |]); (split; [reflexivity |]);
        eexists; (split; [reflexivity |]).
      * right. split; [reflexivity |]. split; [reflexivity |].
        exists (S (prisma_calls w)). eexists.
        split; [lia |]. split; [reflexivity | exact Hq].
      * left. split; reflexivity.
Qed.


End OrchestratorFacts.

Module OrchestratorProof.
Import connection blog_generator OrchestratorFacts TopicFacts.



Lemma extract_blog_components_returns (U : UnicodeDB) (F : faults) (text : str) :
  exists comps, extract_blog_components U F text = Return comps.
Proof.
  unfold extract_blog_components, try_except.
  destruct (extract_body U F text); eexists; reflexivity.
Qed.









End OrchestratorProof.

Import connection OrchestratorFacts OrchestratorProof.





(* ================================================================== *)
(** * Part III.  Further properties of the code                        *)
(* ================================================================== *)

(** ** More on the slug *)

Module SlugAlphabet.
Import Re connection SlugFacts SlugShape.

(** The code points a slug can hold, and the two things a hyphen never
    does in it. *)
Definition slug_alphabet (c : char) : bool :=
  is_ascii_lower c || is_ascii_digit c || (c =? hyphen)%N.

Definition starts_with_hyphen (s : str) : bool :=
  match s with
  | c :: _ => (c =? hyphen)%N
  | [] => false
  end.

Fixpoint has_double_hyphen (s : str) : bool :=
  match s with
  | a :: s' =>
      match s' with
      | b :: _ => ((a =? hyphen)%N && (b =? hyphen)%N) || has_double_hyphen s'
      | [] => false
      end
  | [] => false
  end.

Lemma slug_runs_snoc_prefix (s : str) :
  forall b, slug_runs b s = true -> slug_prefix b (s ++ [hyphen]) = true.
Proof.
  induction s as [| c s' IH]; intros b H.
  - destruct b; [discriminate H | reflexivity].
  - cbn [app slug_prefix]. cbn [slug_runs] in H.
    destruct (is_slug_char c); [apply IH, H |].
    apply andb_true_iff in H. destruct H as [H Hs'].
    unfold is_hyphen. rewrite H. apply IH, Hs'.
Qed.

Lemma slug_prefix_alphabet (s : str) :
  forall b,
    slug_prefix b s = true ->
    forallb slug_alphabet s = true
    /\ has_double_hyphen s = false
    /\ (b = true -> starts_with_hyphen s = false).
Proof.
  induction s as [| c s' IH]; intros b H.
  - repeat split.
  - cbn [slug_prefix] in H. cbn [forallb starts_with_hyphen].
    unfold slug_alphabet at 1. fold (is_slug_char c).
    destruct (is_slug_char c) eqn:Hc.
    + destruct (IH false H) as (A & D & _).
      pose proof (slug_char_not_hyphen c Hc) as Hh. unfold is_hyphen in Hh.
      split; [exact A |]. split; [| intros _; exact Hh].
      cbn [has_double_hyphen]. destruct s'; [reflexivity |].
      rewrite Hh. exact D.
    + apply andb_true_iff in H. destruct H as [H Hs'].
      apply andb_true_iff in H. destruct H as [Hh Hb].
      unfold is_hyphen in Hh. destruct (IH true Hs') as (A & D & S).
      split; [rewrite Hh; exact A |].
      split; [| intros ->; discriminate Hb].
      cbn [has_double_hyphen]. destruct s' as [| d s'']; [reflexivity |].
      specialize (S eq_refl). cbn [starts_with_hyphen] in S.
      rewrite S, andb_false_r. exact D.
Qed.

Lemma generate_slug_prefix (U : UnicodeDB) (title : str) :
  slug_prefix true (generate_slug U title) = true.
Proof.
  destruct (generate_slug_shape U title) as [_ [H | (s' & E & H & _)]].
  - unfold well_formed_slug in H. apply orb_true_iff in H.
    destruct H as [H | H].
    + destruct (generate_slug U title); [reflexivity | discriminate H].
    + apply slug_runs_prefix, H.
  - rewrite E. apply slug_runs_snoc_prefix, H.
Qed.

Lemma rstrip_by_snoc_drop (p : char -> bool) (a : str) (c : char) :
  p c = true -> rstrip_by p (a ++ [c]) = rstrip_by p a.
Proof.
  intros Hc. induction a as [| x a IH]; cbn [app rstrip_by].
  - rewrite Hc. reflexivity.
  - rewrite IH. reflexivity.
Qed.

(** A slug cut right after a hyphen loses that hyphen when it is put
    through [generate_slug] again. *)
Lemma generate_slug_cut (U : UnicodeDB) (s : str) :
  matches_slug_pattern s = true -> List.length s <= 100 ->
  generate_slug U (s ++ [hyphen]) = s.
Proof.
  unfold matches_slug_pattern. intros H Hl.
  pose proof (slug_runs_snoc_prefix _ _ H) as Hp.
  unfold generate_slug, slice_to, lower.
  rewrite (lower_shape U _ _ true 0 Hp), sub_special, (filter_shape _ true Hp).
  unfold sub. rewrite (sub_separators_fixed _ true None Hp).
  unfold strip_chars, strip_by.
  assert (Hlead : lstrip_by (mem (py "-")) (s ++ [hyphen]) = s ++ [hyphen]).
  { destruct s as [| c s']; [discriminate H |].
    cbn [app lstrip_by]. cbn [slug_runs] in H. rewrite mem_hyphen.
    destruct (is_slug_char c) eqn:Hc.
    - rewrite (slug_char_not_hyphen c Hc). reflexivity.
    - rewrite andb_false_r in H. discriminate H. }
  rewrite Hlead, rstrip_by_snoc_drop by reflexivity.
  rewrite (rstrip_fixed _ true H). apply firstn_all2, Hl.
Qed.

End SlugAlphabet.

Import SlugShape SlugAlphabet.

(** X1.  Whatever the title, its slug has at most 100 code points, each a
    lowercase ASCII letter, a digit or a hyphen; it does not begin with a
    hyphen and never has two hyphens in a row. *)
Theorem slug_alphabet_and_hyphens :
  forall (U : UnicodeDB) (title : str),
    List.length (generate_slug U title) <= 100
    /\ forallb slug_alphabet (generate_slug U title) = true
    /\ starts_with_hyphen (generate_slug U title) = false
    /\ has_double_hyphen (generate_slug U title) = false.
Proof.
  intros U title.
  destruct (slug_prefix_alphabet _ true (generate_slug_prefix U title))
    as (A & D & S).
  split; [apply generate_slug_shape |].
  split; [exact A |]. split; [apply S; reflexivity | exact D].
Qed.

(** X2.  A slug shorter than 100 code points is stable: applying
    [generate_slug] to it gives it back. *)
Theorem generate_slug_idempotent_below_limit :
  forall (U : UnicodeDB) (title : str),
    List.length (generate_slug U title) < 100 ->
    generate_slug U (generate_slug U title) = generate_slug U title.
Proof.
  intros U title Hl.
  destruct (generate_slug_shape U title) as [_ [H | (s' & _ & _ & H)]].
  - apply generate_slug_idempotent_if_well_formed, H.
  - lia.
Qed.

Lemma generate_slug_idempotent_below_limit_witness :
  generate_slug ascii_tables
    (generate_slug ascii_tables (py "Hello,  World - 2025!"))
  = generate_slug ascii_tables (py "Hello,  World - 2025!").
Proof.
  apply (generate_slug_idempotent_below_limit ascii_tables
           (py "Hello,  World - 2025!")).
  vm_compute. lia.
Defined.

(** X3.  A text that already is a slug (empty, or runs of lowercase
    letters and digits joined by single hyphens) of at most 100 code
    points is its own slug. *)
Theorem generate_slug_keeps_a_slug :
  forall (U : UnicodeDB) (s : str),
    well_formed_slug s = true -> List.length s <= 100 ->
    generate_slug U s = s.
Proof. intros U s H Hl. apply generate_slug_fixed; assumption. Qed.

Lemma generate_slug_keeps_a_slug_witness :
  generate_slug ascii_tables (py "hello-world-2025") = py "hello-world-2025".
Proof.
  apply (generate_slug_keeps_a_slug ascii_tables (py "hello-world-2025")).
  - reflexivity.
  - vm_compute. lia.
Defined.

(** X4.  For every title the second application of [generate_slug] gives
    a well-formed slug, and no further application changes it: the
    hyphen that the cut at 100 can leave at the end is gone after one
    more pass. *)
Theorem generate_slug_stable_after_two :
  forall (U : UnicodeDB) (title : str),
    well_formed_slug (generate_slug U (generate_slug U title)) = true
    /\ generate_slug U (generate_slug U (generate_slug U title))
       = generate_slug U (generate_slug U title).
Proof.
  intros U title.
  destruct (generate_slug_shape U title) as [Hlen [H | (s' & E & H & L)]].
  - rewrite (generate_slug_idempotent_if_well_formed U title H).
    split; [exact H | apply generate_slug_idempotent_if_well_formed, H].
  - assert (Hs : List.length s' <= 100).
    { rewrite E, length_app in L. simpl in L. lia. }
    rewrite E, (generate_slug_cut U s' H Hs).
    assert (W : well_formed_slug s' = true)
      by (unfold well_formed_slug; rewrite H; apply orb_true_r).
    split; [exact W | apply generate_slug_fixed; assumption].
Qed.

(** ** What [strip] guarantees *)

Module StripFacts.
Import TitleTagsFacts.

Lemma lstrip_by_Forall (Q : char -> Prop) (p : char -> bool) (s : str) :
  Forall Q s -> Forall Q (lstrip_by p s).
Proof.
  induction 1 as [| c s' Hc Hs IH]; cbn [lstrip_by]; [constructor |].
  destruct (p c); [exact IH | constructor; assumption].
Qed.

Lemma rstrip_by_Forall (Q : char -> Prop) (p : char -> bool) (s : str) :
  Forall Q s -> Forall Q (rstrip_by p s).
Proof.
  induction 1 as [| c s' Hc Hs IH]; cbn [rstrip_by]; [constructor |].
  destruct (rstrip_by p s') as [| d t].
  - destruct (p c); constructor; [exact Hc | constructor].
  - constructor; assumption.
Qed.

Lemma strip_by_Forall (Q : char -> Prop) (p : char -> bool) (s : str) :
  Forall Q s -> Forall Q (strip_by p s).
Proof. intros H. apply rstrip_by_Forall, lstrip_by_Forall, H. Qed.

(** The text left by [rstrip] is empty or ends with a code point that is
    not stripped. *)
Lemma rstrip_by_end (p : char -> bool) (s : str) :
  rstrip_by p s = []
  \/ exists (t : str) (c : char), rstrip_by p s = t ++ [c] /\ p c = false.
Proof.
  induction s as [| c s' IH]; cbn [rstrip_by]; [left; reflexivity |].
  destruct IH as [E | (t & d & E & Hd)]; rewrite E.
  - destruct (p c) eqn:Hc; [left; reflexivity |].
    right. exists [], c. split; [reflexivity | exact Hc].
  - right. exists (c :: t), d. split; [| exact Hd].
    destruct t; reflexivity.
Qed.

Lemma rstrip_by_cons (p : char -> bool) (c : char) (s : str) :
  p c = false -> rstrip_by p (c :: s) = c :: rstrip_by p s.
Proof.
  intros Hc. cbn [rstrip_by]. destruct (rstrip_by p s); [| reflexivity].
  rewrite Hc. reflexivity.
Qed.

Lemma rstrip_by_idempotent (p : char -> bool) (s : str) :
  rstrip_by p (rstrip_by p s) = rstrip_by p s.
Proof.
  destruct (rstrip_by_end p s) as [E | (t & c & E & Hc)]; rewrite E.
  - reflexivity.
  - apply rstrip_by_snoc, Hc.
Qed.

(** The text left by [lstrip] is empty or starts with a code point that
    is not stripped. *)
Lemma lstrip_by_start (p : char -> bool) (s : str) :
  match lstrip_by p s with
  | c :: _ => p c = false
  | [] => True
  end.
Proof.
  induction s as [| c s' IH]; cbn [lstrip_by]; [exact I |].
  destruct (p c) eqn:Hc; [exact IH | exact Hc].
Qed.

Lemma strip_by_start (p : char -> bool) (s : str) :
  match strip_by p s with
  | c :: _ => p c = false
  | [] => True
  end.
Proof.
  unfold strip_by. pose proof (lstrip_by_start p s) as H.
  destruct (lstrip_by p s) as [| c t]; [exact I |].
  rewrite (rstrip_by_cons p c t H). exact H.
Qed.

Lemma strip_by_idempotent (p : char -> bool) (s : str) :
  strip_by p (strip_by p s) = strip_by p s.
Proof.
  pose proof (strip_by_start p s) as H.
  unfold strip_by at 1.
  assert (E : lstrip_by p (strip_by p s) = strip_by p s).
  { destruct (strip_by p s) as [| c t]; [reflexivity |].
    cbn [lstrip_by]. rewrite H. reflexivity. }
  rewrite E. unfold strip_by. apply rstrip_by_idempotent.
Qed.

Lemma strip_idempotent (s : str) : strip (strip s) = strip s.
Proof. apply strip_by_idempotent. Qed.

(** The first and the last code point of a stripped text are not in the
    stripped set. *)
Lemma strip_by_ends (p : char -> bool) (s : str) (c : char) :
  hd_error (strip_by p s) = Some c \/ hd_error (rev (strip_by p s)) = Some c ->
  p c = false.
Proof.
  intros [H | H].
  - pose proof (strip_by_start p s) as Hs.
    destruct (strip_by p s) as [| d t]; [discriminate H |].
    inversion H; subst. exact Hs.
  - unfold strip_by in H.
    destruct (rstrip_by_end p (lstrip_by p s)) as [E | (t & d & E & Hd)];
      rewrite E in H.
    + discriminate H.
    + rewrite rev_app_distr in H. inversion H; subst. exact Hd.
Qed.

End StripFacts.

(** ** What a capture can hold *)

Module CaptureFacts.
Import Re.

Section Avoid.
Variable fl : flags.
(** The code point that is to stay out of the capture. *)
Variable z : char.

(** No single-code-point part of the pattern matches [z]. *)
Fixpoint avoids (r : regex) : bool :=
  match r with
  | REmpty | RBol | REol => true
  | RChar x => negb (chr_match fl x z)
  | RSet cs => negb (cset_match fl cs z)
  | RRep _ _ cs => negb (cset_match fl cs z)
  | RSeq r1 r2 | RAlt r1 r2 => avoids r1 && avoids r2
  | RGroup r1 => avoids r1
  end.

(** Inside every group of the pattern nothing matches [z]. *)
Fixpoint groups_avoid (r : regex) : bool :=
  match r with
  | RGroup r1 => avoids r1
  | RSeq r1 r2 | RAlt r1 r2 => groups_avoid r1 && groups_avoid r2
  | _ => true
  end.

(** The cursor while a group is open, and while none is. *)
Definition inside (p : cursor) : Prop :=
  (forall t, reading p = Some t -> ~ In z t)
  /\ (forall g, group1 p = Some g -> ~ In z g).

Definition outside (p : cursor) : Prop :=
  reading p = None /\ (forall g, group1 p = Some g -> ~ In z g).

Lemma inside_take (c : char) (p : cursor) :
  c <> z -> inside p -> inside (take c p).
Proof.
  intros Hc [Hr Hg]. split; [| exact Hg].
  intros t Ht. cbn [take reading] in Ht.
  destruct (reading p) as [t0 |]; [| discriminate Ht].
  inversion Ht; subst. intros [E | E]; [congruence |].
  exact (Hr t0 eq_refl E).
Qed.

Lemma outside_take (c : char) (p : cursor) : outside p -> outside (take c p).
Proof.
  intros [Hr Hg]. split; [| exact Hg]. cbn [take reading]. rewrite Hr.
  reflexivity.
Qed.

Lemma inside_open (p : cursor) : outside p -> inside (open_group p).
Proof.
  intros [_ Hg]. split; [| exact Hg].
  intros t Ht. inversion Ht; subst. intros [].
Qed.

Lemma outside_close (p : cursor) : inside p -> outside (close_group p).
Proof.
  intros [Hr Hg]. split; [reflexivity |].
  intros g E. cbn [close_group group1] in E.
  destruct (reading p) as [t |] eqn:Ht.
  - inversion E; subst. intros Hin. apply in_rev in Hin.
    exact (Hr t eq_refl Hin).
  - exact (Hg g E).
Qed.

Lemma inside_reopen (p : cursor) : inside p -> inside (open_group p).
Proof.
  intros [_ Hg]. split; [| exact Hg].
  intros t Ht. inversion Ht; subst. intros [].
Qed.

Lemma inside_close (p : cursor) : inside p -> inside (close_group p).
Proof.
  intros H. destruct (outside_close H) as [Hr Hg]. split; [| exact Hg].
  intros t Ht. rewrite Hr in Ht. discriminate Ht.
Qed.

Section Kont.
Variable R : Type.
Variable Inv : cursor -> Prop.

Lemma rep_greedy_inv (f : char -> bool) (k : kont R) (s : str) :
  (forall c p, f c = true -> Inv p -> Inv (take c p)) ->
  forall lo p res,
    rep_greedy f k lo p s = Some res -> Inv p ->
    exists p' s', k p' s' = Some res /\ Inv p'.
Proof.
  intros Hf. induction s as [| c s' IH]; intros lo p res H Hp; simpl in H.
  - destruct lo; [| discriminate]. exists p, []. split; assumption.
  - destruct (f c) eqn:Hc.
    + destruct (rep_greedy f k (pred lo) (take c p) s') eqn:Hr.
      * inversion H; subst. apply IH in Hr; [exact Hr |].
        apply Hf; assumption.
      * destruct lo; [| discriminate].
        exists p, (c :: s'). split; assumption.
    + destruct lo; [| discriminate].
      exists p, (c :: s'). split; assumption.
Qed.

Lemma rep_lazy_inv (f : char -> bool) (k : kont R) (s : str) :
  (forall c p, f c = true -> Inv p -> Inv (take c p)) ->
  forall lo p res,
    rep_lazy f k lo p s = Some res -> Inv p ->
    exists p' s', k p' s' = Some res /\ Inv p'.
Proof.
  intros Hf. induction s as [| c s' IH]; intros lo p res H Hp; simpl in H.
  - destruct lo; [| discriminate].
    destruct (k p []) eqn:Hk; [| discriminate]. inversion H; subst.
    exists p, []. split; assumption.
  - assert (Hmore : (if f c then rep_lazy f k (pred lo) (take c p) s' else None)
                    = Some res ->
                    exists p' t, k p' t = Some res /\ Inv p').
    { destruct (f c) eqn:Hc; [| discriminate]. intros Hr.
      apply IH in Hr; [exact Hr |]. apply Hf; assumption. }
    destruct lo.
    + destruct (k p (c :: s')) eqn:Hk.
      * inversion H; subst. exists p, (c :: s'). split; assumption.
      * apply Hmore, H.
    + apply Hmore, H.
Qed.

End Kont.
End Avoid.
End CaptureFacts.

Module CaptureProof.
Import Re CaptureFacts.

Lemma avoided_char (fl : flags) (z x c : char) :
  negb (chr_match fl x z) = true -> chr_match fl x c = true -> c <> z.
Proof.
  intros Hz Hc E. subst c. rewrite Hc in Hz. discriminate Hz.
Qed.

Lemma avoided_set (fl : flags) (z : char) (cs : cset) (c : char) :
  negb (cset_match fl cs z) = true -> cset_match fl cs c = true -> c <> z.
Proof.
  intros Hz Hc E. subst c. rewrite Hc in Hz. discriminate Hz.
Qed.

(** While a group whose parts avoid [z] is being read, [z] stays out of
    what is read. *)
Lemma m_inside (fl : flags) (z : char) (R : Type) (r : regex) :
  avoids fl z r = true ->
  forall p s (k : kont R) res,
    m fl r p s k = Some res -> inside z p ->
    exists p' s', k p' s' = Some res /\ inside z p'.
Proof.
  induction r as [| x | cs | r1 IH1 r2 IH2 | r1 IH1 r2 IH2 | r1 IH1 | | | g lo cs];
    intros Ha p s k res H Hp; cbn [avoids] in Ha; simpl in H.
  - exists p, s. split; assumption.
  - destruct s as [| c s']; [discriminate |].
    destruct (chr_match fl x c) eqn:Hc; [| discriminate].
    exists (take c p), s'. split; [exact H |].
    apply inside_take; [eapply avoided_char; eassumption | exact Hp].
  - destruct s as [| c s']; [discriminate |].
    destruct (cset_match fl cs c) eqn:Hc; [| discriminate].
    exists (take c p), s'. split; [exact H |].
    apply inside_take; [eapply avoided_set; eassumption | exact Hp].
  - apply andb_true_iff in Ha. destruct Ha as [A1 A2].
    destruct (IH1 A1 _ _ _ _ H Hp) as (p1 & s1 & H1 & P1).
    exact (IH2 A2 _ _ _ _ H1 P1).
  - apply andb_true_iff in Ha. destruct Ha as [A1 A2].
    destruct (m fl r1 p s k) eqn:E1.
    + inversion H; subst. exact (IH1 A1 _ _ _ _ E1 Hp).
    + exact (IH2 A2 _ _ _ _ H Hp).
  - destruct (IH1 Ha _ _ _ _ H (inside_reopen Hp)) as (p1 & s1 & H1 & P1).
    exists (close_group p1), s1. split; [exact H1 | apply inside_close, P1].
  - destruct (at_bol fl (before p)); [| discriminate].
    exists p, s. split; assumption.
  - destruct (at_eol fl s); [| discriminate].
    exists p, s. split; assumption.
  - assert (Hf : forall c q,
              cset_match fl cs c = true -> inside z q -> inside z (take c q)).
    { intros c q Hc Hq.
      apply inside_take; [eapply avoided_set; eassumption | exact Hq]. }
    destruct g.
    + eapply rep_greedy_inv; eauto.
    + eapply rep_lazy_inv; eauto.
Qed.

(** Outside the groups anything may be matched: it is not captured. *)
Lemma m_outside (fl : flags) (z : char) (R : Type) (r : regex) :
  groups_avoid fl z r = true ->
  forall p s (k : kont R) res,
    m fl r p s k = Some res -> outside z p ->
    exists p' s', k p' s' = Some res /\ outside z p'.
Proof.
  induction r as [| x | cs | r1 IH1 r2 IH2 | r1 IH1 r2 IH2 | r1 IH1 | | | g lo cs];
    intros Ha p s k res H Hp; cbn [groups_avoid] in Ha; simpl in H.
  - exists p, s. split; assumption.
  - destruct s as [| c s']; [discriminate |].
    destruct (chr_match fl x c); [| discriminate].
    exists (take c p), s'. split; [exact H | apply outside_take, Hp].
  - destruct s as [| c s']; [discriminate |].
    destruct (cset_match fl cs c); [| discriminate].
    exists (take c p), s'. split; [exact H | apply outside_take, Hp].
  - apply andb_true_iff in Ha. destruct Ha as [A1 A2].
    destruct (IH1 A1 _ _ _ _ H Hp) as (p1 & s1 & H1 & P1).
    exact (IH2 A2 _ _ _ _ H1 P1).
  - apply andb_true_iff in Ha. destruct Ha as [A1 A2].
    destruct (m fl r1 p s k) eqn:E1.
    + inversion H; subst. exact (IH1 A1 _ _ _ _ E1 Hp).
    + exact (IH2 A2 _ _ _ _ H Hp).
  - destruct (@m_inside fl z R r1 Ha _ _ _ _ H (inside_open Hp)) as (p1 & s1 & H1 & P1).
    exists (close_group p1), s1. split; [exact H1 | apply outside_close, P1].
  - destruct (at_bol fl (before p)); [| discriminate].
    exists p, s. split; assumption.
  - destruct (at_eol fl s); [| discriminate].
    exists p, s. split; assumption.
  - assert (Hf : forall c q,
              cset_match fl cs c = true -> outside z q -> outside z (take c q)).
    { intros c q _ Hq. apply outside_take, Hq. }
    destruct g.
    + eapply rep_greedy_inv; eauto.
    + eapply rep_lazy_inv; eauto.
Qed.

Lemma match_at_avoids (fl : flags) (z : char) (r : regex) (prev : option char)
    (s : str) (n : nat) (g : str) :
  groups_avoid fl z r = true ->
  match_at fl r prev s = Some (n, Some g) -> ~ In z g.
Proof.
  intros Ha H. unfold match_at in H.
  destruct (@m_outside fl z _ r Ha _ _ _ _ H) as (p' & s' & E & _ & Hg).
  - split; [reflexivity | intros g0 E0; discriminate E0].
  - inversion E; subst. apply Hg. assumption.
Qed.

Lemma search_from_avoids (fl : flags) (z : char) (r : regex) (s : str) :
  groups_avoid fl z r = true ->
  forall prev pos mt g,
    search_from fl r prev s pos = Some mt -> m_group1 mt = Some g ->
    ~ In z g.
Proof.
  intros Ha. induction s as [| c s' IH]; intros prev pos mt g H Hg;
    cbn [search_from] in H.
  - destruct (match_at fl r prev []) as [[n cap] |] eqn:Hm; [| discriminate].
    inversion H; subst. cbn [m_group1] in Hg. subst cap.
    exact (@match_at_avoids fl z r _ _ _ _ Ha Hm).
  - destruct (match_at fl r prev (c :: s')) as [[n cap] |] eqn:Hm.
    + inversion H; subst. cbn [m_group1] in Hg. subst cap.
      exact (@match_at_avoids fl z r _ _ _ _ Ha Hm).
    + exact (IH _ _ _ _ H Hg).
Qed.

(** What [match.group(1)] returns after a search never holds a code
    point that the parts of the group do not match. *)
Lemma search_avoids (fl : flags) (z : char) (r : regex) (s : str) (mt : Match)
    (g : str) :
  groups_avoid fl z r = true ->
  search fl r s = Some mt -> m_group1 mt = Some g -> ~ In z g.
Proof. intros Ha H Hg. exact (@search_from_avoids fl z r s Ha _ _ _ _ H Hg). Qed.

End CaptureProof.

(** ** The shape of the extracted title, tags and meta description *)

Module ExtractShape.
Import Re ReFacts CaptureFacts CaptureProof StripFacts blog_generator
  ExtractFacts.

Definition one_line (s : str) : Prop := Forall (fun c => c <> nl) s.

Definition is_delimiter (c : char) : bool := mem (py ",;|") c.

(** A tag as the cleaning step leaves it. *)
Definition tidy_tag (t : str) : Prop :=
  2 <= List.length t
  /\ strip t = t
  /\ Forall (fun c => c <> nl /\ is_delimiter c = false) t.

Lemma one_line_of_avoids (g : str) : ~ In nl g -> one_line g.
Proof.
  intros H. apply Forall_forall. intros c Hc E. subst c. exact (H Hc).
Qed.

Lemma guarded_inv {A} (F : faults) (st : site) (a v : A) :
  guarded F st a = Return v -> v = a.
Proof.
  unfold guarded. destruct (F st); intros H; [discriminate H |].
  inversion H; reflexivity.
Qed.

Lemma Forall_firstn {A} (Q : A -> Prop) (n : nat) (l : list A) :
  Forall Q l -> Forall Q (firstn n l).
Proof.
  intros H. revert n. induction H as [| x l Hx Hl IH]; intros [| n];
    cbn [firstn]; constructor; auto.
Qed.

(** The pieces of [re.split] over a set of code points hold none of
    them. *)
Lemma split_set_pieces (cs : cset) (Q : char -> Prop) (s : str) :
  forall prev cur,
    Forall Q s ->
    Forall (fun c => Q c /\ cset_match no_flags cs c = false) cur ->
    Forall (Forall (fun c => Q c /\ cset_match no_flags cs c = false))
      (split_from no_flags (RSet cs) prev cur s 0).
Proof.
  induction s as [| c s' IH]; intros prev cur Hs Hcur; cbn [split_from].
  - constructor; [| constructor]. apply Forall_rev, Hcur.
  - inversion Hs as [| c0 s0 Hc Hs']; subst.
    unfold match_at; simpl. destruct (cset_match no_flags cs c) eqn:Hm; simpl.
    + constructor; [apply Forall_rev, Hcur |].
      apply IH; [exact Hs' | constructor].
    + apply IH; [exact Hs' |]. constructor; [split; assumption | exact Hcur].
Qed.

Lemma clean_tags_tidy (pieces : list str) :
  Forall (Forall (fun c => c <> nl /\ is_delimiter c = false)) pieces ->
  Forall tidy_tag (clean_tags pieces).
Proof.
  intros H. unfold clean_tags. apply Forall_forall. intros t Ht.
  apply filter_In in Ht. destruct Ht as [Hin Hkeep].
  apply in_map_iff in Hin. destruct Hin as (piece & E & Hp).
  apply andb_true_iff in Hkeep. destruct Hkeep as [_ Hlen].
  apply Nat.ltb_lt in Hlen.
  split; [lia |]. split.
  - rewrite <- E. apply strip_idempotent.
  - rewrite <- E. unfold strip, strip_chars. do 3 apply strip_by_Forall.
    rewrite Forall_forall in H. apply H, Hp.
Qed.

Lemma tags_loop_tidy (F : faults) (pats : list regex) :
  forallb (groups_avoid MI nl) pats = true ->
  forall i content ts,
    tags_loop F i pats content = Return ts -> Forall tidy_tag ts.
Proof.
  induction pats as [| r rest IH]; intros Ha i content ts H;
    cbn [tags_loop] in H.
  - inversion H; subst. constructor.
  - cbn [forallb] in Ha. apply andb_true_iff in Ha. destruct Ha as [Hr Hrest].
    destruct (guarded F (TagsSearch i) (search MI r content)) as [mt |] eqn:E;
      [| discriminate H].
    apply guarded_inv in E. subst mt. cbn [bind] in H.
    destruct (search MI r content) as [found |] eqn:Hs;
      [| exact (IH Hrest _ _ _ H)].
    unfold group1_or in H.
    destruct (m_group1 found) as [g |] eqn:Hg; [| discriminate H].
    cbn [bind] in H.
    destruct (guarded F TagsSplit (split no_flags tag_delimiters g))
      as [pieces |] eqn:E; [| discriminate H].
    apply guarded_inv in E. subst pieces. cbn [bind] in H.
    inversion H; subst. apply clean_tags_tidy.
    apply (@split_set_pieces
             (set_of [CChar 44; CChar 59; CChar 124]) (fun c => c <> nl)).
    + apply one_line_of_avoids.
      exact (@search_avoids MI nl r content found g Hr Hs Hg).
    + constructor.
Qed.

Ltac tidy_literal :=
  split; [cbn; lia |];
  split; [vm_compute; reflexivity |];
  repeat constructor; try discriminate.

Lemma default_tags_tidy : Forall tidy_tag default_tags.
Proof.
  unfold default_tags.
  repeat (apply Forall_cons; [tidy_literal |]). apply Forall_nil.
Qed.

Lemma fallback_tags_tidy (crew_output : str) :
  Forall tidy_tag (blog_generator.tags (extract_fallback crew_output)).
Proof.
  cbn. repeat (apply Forall_cons; [tidy_literal |]). apply Forall_nil.
Qed.

Lemma title_fallback_one_line (F : faults) (pats : list regex) :
  forallb (groups_avoid MI nl) pats = true ->
  forall i content t0 t,
    title_fallback F i pats content t0 = Return t ->
    one_line t0 -> one_line t.
Proof.
  induction pats as [| r rest IH]; intros Ha i content t0 t H H0;
    cbn [title_fallback] in H.
  - inversion H; subst. exact H0.
  - cbn [forallb] in Ha. apply andb_true_iff in Ha. destruct Ha as [Hr Hrest].
    destruct (guarded F (TitleFallback i) (search MI r content))
      as [mt |] eqn:E; [| discriminate H].
    apply guarded_inv in E. subst mt. cbn [bind] in H.
    destruct (search MI r content) as [found |] eqn:Hs;
      [| exact (IH Hrest _ _ _ _ H H0)].
    unfold group1_or in H.
    destruct (m_group1 found) as [g |] eqn:Hg; [| discriminate H].
    cbn [bind] in H. inversion H; subst.
    apply strip_by_Forall, one_line_of_avoids.
    exact (@search_avoids MI nl r content found g Hr Hs Hg).
Qed.

(** The title step and the meta description step of the [try] block. *)
Definition title_of_content (F : faults) (content : str) : Outcome str :=
  match search M_ title_re content with
  | Some found =>
      bind (group1_or AttributeError_NoneType_strip found)
        (fun g => Return (strip g))
  | None => title_fallback F 0 title_patterns content default_title
  end.

Definition meta_of_content (content : str) : Outcome (option str) :=
  match search I_ meta_re content with
  | Some found =>
      bind (group1_or AttributeError_NoneType_strip found)
        (fun g => Return (Some (strip g)))
  | None => Return None
  end.

Lemma title_of_content_one_line (F : faults) (content t : str) :
  title_of_content F content = Return t -> one_line t.
Proof.
  unfold title_of_content. intros H.
  destruct (search M_ title_re content) as [found |] eqn:Hs.
  - unfold group1_or in H.
    destruct (m_group1 found) as [g |] eqn:Hg; [| discriminate H].
    cbn [bind] in H. inversion H; subst.
    apply strip_by_Forall, one_line_of_avoids.
    exact (@search_avoids M_ nl title_re content found g eq_refl Hs Hg).
  - apply (@title_fallback_one_line F title_patterns eq_refl _ _ _ _ H).
    unfold one_line, default_title. repeat constructor; discriminate.
Qed.

Lemma meta_of_content_one_line (content md : str) :
  meta_of_content content = Return (Some md) ->
  one_line md /\ strip md = md.
Proof.
  unfold meta_of_content. intros H.
  destruct (search I_ meta_re content) as [found |] eqn:Hs;
    [| discriminate H].
  unfold group1_or in H.
  destruct (m_group1 found) as [g |] eqn:Hg; [| discriminate H].
  cbn [bind] in H. inversion H; subst. split.
  - apply strip_by_Forall, one_line_of_avoids.
    exact (@search_avoids I_ nl meta_re content found g eq_refl Hs Hg).
  - apply strip_idempotent.
Qed.

Ltac step H :=
  match type of H with
  | bind ?c _ = Return _ =>
      let E := fresh "E" in
      destruct c eqn:E; [cbn [bind] in H | discriminate H]
  end.

(** Where the fields of the result of the [try] block come from. *)
Lemma extract_body_inv (U : UnicodeDB) (F : faults) (crew_output : str)
    (r : components) :
  extract_body U F crew_output = Return r ->
  exists t ts,
    title_of_content F (strip crew_output) = Return t
    /\ blog_generator.title r = strip_chars [dquote; squote] t
    /\ tags_loop F 0 tags_patterns (strip crew_output) = Return ts
    /\ blog_generator.tags r
       = firstn 7 (if is_empty ts then default_tags else ts)
    /\ meta_of_content (strip crew_output) = Return (meta_description r).
Proof.
  unfold extract_body. intros H.
  step H. apply guarded_inv in E. subst.
  fold (title_of_content F (strip crew_output)) in H.
  step H. rename E into Ht. rename a into t.
  step H. rename E into Hts. rename a into ts.
  step H. apply guarded_inv in E. subst.
  fold (meta_of_content (strip crew_output)) in H.
  step H. rename E into Hm. rename a into md.
  step H. step H. inversion H; subst. cbn.
  exists t, ts. repeat split; assumption.
Qed.

End ExtractShape.

Import StripFacts ExtractShape.

(** X5.  Whatever the pipeline text and whatever fails inside the [try]
    block, the result of [extract_blog_components] carries at least one
    tag and at most seven. *)
Theorem extracted_tags_between_one_and_seven :
  forall (U : UnicodeDB) (F : faults) (crew_output : str),
    exists r,
      extract_blog_components U F crew_output = Return r
      /\ 1 <= List.length (blog_generator.tags r) <= 7.
Proof.
  intros U F crew_output. unfold extract_blog_components, try_except.
  destruct (extract_body U F crew_output) as [r | e] eqn:Hb.
  - exists r. split; [reflexivity |].
    destruct (extract_body_inv _ _ _ Hb) as (t & ts & _ & _ & _ & Htags & _).
    rewrite Htags, length_firstn.
    destruct ts as [| t0 ts']; cbn [is_empty].
    + change (List.length default_tags) with 5. lia.
    + cbn [List.length]. lia.
  - eexists. split; [reflexivity |]. simpl. lia.
Qed.

(** X6.  Every tag of the result has at least two code points, has no
    whitespace at either end, and holds no comma, semicolon, vertical bar
    or newline; this holds for the tags read from the text, for the
    default tags and for the tags of the fallback record. *)
Theorem extracted_tags_are_tidy :
  forall (U : UnicodeDB) (F : faults) (crew_output : str),
    exists r,
      extract_blog_components U F crew_output = Return r
      /\ Forall tidy_tag (blog_generator.tags r).
Proof.
  intros U F crew_output. unfold extract_blog_components, try_except.
  destruct (extract_body U F crew_output) as [r | e] eqn:Hb.
  - exists r. split; [reflexivity |].
    destruct (extract_body_inv _ _ _ Hb) as (t & ts & _ & _ & Hts & Htags & _).
    rewrite Htags. apply Forall_firstn.
    destruct ts as [| t0 ts']; cbn [is_empty].
    + apply default_tags_tidy.
    + exact (@tags_loop_tidy F tags_patterns eq_refl _ _ _ Hts).
  - eexists. split; [reflexivity |]. apply fallback_tags_tidy.
Qed.

(** X7.  The title of the result is a single line that neither starts
    nor ends with a quotation mark or an apostrophe, and the meta
    description, when there is one, is a single line without whitespace
    at either end. *)
Theorem extracted_title_and_meta_are_one_line :
  forall (U : UnicodeDB) (F : faults) (crew_output : str),
    exists r,
      extract_blog_components U F crew_output = Return r
      /\ one_line (blog_generator.title r)
      /\ (forall c,
            hd_error (blog_generator.title r) = Some c
            \/ hd_error (rev (blog_generator.title r)) = Some c ->
            c <> dquote /\ c <> squote)
      /\ (forall md,
            meta_description r = Some md -> one_line md /\ strip md = md).
Proof.
  intros U F crew_output. unfold extract_blog_components, try_except.
  destruct (extract_body U F crew_output) as [r | e] eqn:Hb.
  - exists r. split; [reflexivity |].
    destruct (extract_body_inv _ _ _ Hb) as (t & ts & Ht & Htitle & _ & _ & Hm).
    rewrite Htitle. unfold strip_chars. split; [| split].
    + apply strip_by_Forall. exact (title_of_content_one_line _ _ Ht).
    + intros c Hc. apply strip_by_ends in Hc. cbn in Hc.
      apply orb_false_iff in Hc. destruct Hc as [H1 H2].
      apply orb_false_iff in H2. destruct H2 as [H2 _].
      apply N.eqb_neq in H1. apply N.eqb_neq in H2. split; assumption.
    + intros md Hmd. rewrite Hmd in Hm.
      exact (meta_of_content_one_line _ Hm).
  - eexists. split; [reflexivity |]. cbn [extract_fallback blog_generator.title
      meta_description]. split; [| split].
    + unfold one_line. repeat constructor; discriminate.
    + intros c [H | H]; vm_compute in H; inversion H; subst;
        split; discriminate.
    + intros md H. discriminate H.
Qed.

(** X8.  Whitespace before and after the pipeline text does not change
    what is extracted. *)
Theorem extraction_ignores_outer_whitespace :
  forall (U : UnicodeDB) (crew_output : str),
    extract_blog_components U no_faults (strip crew_output)
    = extract_blog_components U no_faults crew_output.
Proof.
  intros U crew_output.
  assert (E : extract_body U no_faults (strip crew_output)
              = extract_body U no_faults crew_output).
  { unfold extract_body. rewrite strip_idempotent. reflexivity. }
  unfold extract_blog_components. rewrite E.
  destruct (extract_body_returns U crew_output) as (r & Hr & _).
  rewrite Hr. reflexivity.
Qed.

(** ** The markdown normaliser applied to its own output *)

Module MarkdownStability.
Import blog_generator StripFacts TitleTagsFacts ExtractShape.

Lemma split_on_from_app (sep : char) (a : str) :
  forall (cur rest : str),
    Forall (fun c => c <> sep) a ->
    split_on_from sep cur (a ++ rest) = split_on_from sep (rev a ++ cur) rest.
Proof.
  induction a as [| x a IH]; intros cur rest H; [reflexivity |].
  inversion H as [| x0 a0 Hx Ha]; subst.
  cbn [app split_on_from]. apply N.eqb_neq in Hx. rewrite Hx.
  rewrite (IH _ _ Ha). cbn [rev]. rewrite <- app_assoc. reflexivity.
Qed.

(** Splitting at the newlines undoes the join of lines without
    newline. *)
Lemma split_join (ls : list str) :
  forall (l cur : str),
    Forall one_line (l :: ls) ->
    split_on_from nl cur (join [nl] (l :: ls)) = (rev cur ++ l) :: ls.
Proof.
  induction ls as [| l2 ls IH]; intros l cur H;
    inversion H as [| l0 ls0 Hl Hls]; subst.
  - cbn [join]. rewrite <- (app_nil_r l) at 1.
    rewrite (split_on_from_app _ _ Hl). cbn [split_on_from].
    rewrite rev_app_distr, rev_involutive. reflexivity.
  - change (join [nl] (l :: l2 :: ls)) with (l ++ nl :: join [nl] (l2 :: ls)).
    rewrite (split_on_from_app _ _ Hl). cbn [split_on_from].
    rewrite N.eqb_refl, (IH _ _ Hls).
    rewrite rev_app_distr, rev_involutive. reflexivity.
Qed.

Lemma split_on_from_pieces (Q : char -> Prop) (sep : char) (s : str) :
  forall cur,
    Forall (fun c => Q c /\ c <> sep) cur -> Forall Q s ->
    Forall (Forall (fun c => Q c /\ c <> sep)) (split_on_from sep cur s).
Proof.
  induction s as [| c s' IH]; intros cur Hcur Hs; cbn [split_on_from].
  - constructor; [apply Forall_rev, Hcur | constructor].
  - inversion Hs as [| c0 s0 Hc Hs']; subst.
    destruct (c =? sep)%N eqn:E.
    + constructor; [apply Forall_rev, Hcur |]. apply IH; [constructor | exact Hs'].
    + apply N.eqb_neq in E. apply IH; [| exact Hs'].
      constructor; [split; assumption | exact Hcur].
Qed.

Lemma split_on_from_not_nil (sep : char) (s : str) :
  forall cur, split_on_from sep cur s <> [].
Proof.
  induction s as [| c s' IH]; intros cur; cbn [split_on_from];
    [discriminate |].
  destruct (c =? sep)%N; [discriminate | apply IH].
Qed.

(** An ASCII code point and its image under [title]. *)
Definition case_variant (c d : char) : Prop :=
  d = ascii_lower c \/ d = ascii_upper c.

Ltac bounds H :=
  unfold is_ascii_upper, is_ascii_lower, in_range in H;
  apply andb_true_iff in H;
  let H1 := fresh "Hlo" in
  let H2 := fresh "Hhi" in
  destruct H as [H1 H2]; apply N.leb_le in H1; apply N.leb_le in H2.

Ltac not_space :=
  unfold isspace, in_range;
  repeat apply orb_false_intro;
  first [ apply N.eqb_neq; lia
        | apply andb_false_iff;
          first [left; apply N.leb_gt; lia | right; apply N.leb_gt; lia] ].

Lemma variant_not_space (c d : char) :
  case_variant c d -> isspace c = false -> isspace d = false.
Proof.
  intros [E | E] Hc; subst d.
  - unfold ascii_lower. destruct (is_ascii_upper c) eqn:Hu; [| exact Hc].
    bounds Hu. not_space.
  - unfold ascii_upper. destruct (is_ascii_lower c) eqn:Hu; [| exact Hc].
    bounds Hu. not_space.
Qed.

Lemma variant_not_nl (c d : char) :
  case_variant c d -> c <> nl -> d <> nl.
Proof.
  unfold nl. intros [E | E] Hc; subst d.
  - unfold ascii_lower. destruct (is_ascii_upper c) eqn:Hu; [| exact Hc].
    bounds Hu. lia.
  - unfold ascii_upper. destruct (is_ascii_lower c) eqn:Hu; [| exact Hc].
    bounds Hu. lia.
Qed.

Lemma title_from_variants (U : UnicodeDB) (s : str) :
  forall whole i b,
    Forall (fun c => is_ascii c = true) s ->
    Forall2 case_variant s (title_from U whole i b s).
Proof.
  induction s as [| c s' IH]; intros whole i b H; cbn [title_from];
    [constructor |].
  inversion H as [| c0 s0 Hc Hs]; subst.
  unfold lower_at, title_of. rewrite Hc.
  destruct b; cbn [app]; constructor; try (apply IH, Hs);
    [left | right]; reflexivity.
Qed.

Lemma Forall2_transfer {A} (R : A -> A -> Prop) (P Q : A -> Prop)
    (l l' : list A) :
  (forall x y, R x y -> P x -> Q y) ->
  Forall2 R l l' -> Forall P l -> Forall Q l'.
Proof.
  intros HR H. induction H as [| x y l l' Hxy Hl IH]; intros HP;
    [constructor |].
  inversion HP; subst. constructor; [eapply HR; eassumption | auto].
Qed.

(** The three forms the result of [format_line] can take. *)
Lemma format_line_cases (U : UnicodeDB) (l : str) :
  format_line U l = []
  \/ format_line U l = strip l
  \/ (strip l <> [] /\ format_line U l = py "## " ++ Py.title U (strip l)).
Proof.
  unfold format_line. destruct (strip l) as [| c t] eqn:E; [left; reflexivity |].
  cbn [is_empty].
  destruct (startswith (py "# ") (c :: t)
            && negb (startswith (py "## ") (c :: t))); [auto |].
  destruct (startswith (py "##") (c :: t) || startswith (py "###") (c :: t));
    [auto |].
  destruct (isupper U (c :: t) && (List.length (split_ws (c :: t)) <=? 5));
    [| auto].
  right. right. split; [discriminate | reflexivity].
Qed.

Lemma format_line_strip (U : UnicodeDB) (l : str) :
  format_line U (strip l) = format_line U l.
Proof. unfold format_line. rewrite strip_idempotent. reflexivity. Qed.

Lemma format_line_heading (U : UnicodeDB) (a : str) (d : char) :
  isspace d = false ->
  format_line U (py "## " ++ a ++ [d]) = py "## " ++ a ++ [d].
Proof.
  intros Hd. unfold format_line.
  change (py "## " ++ a ++ [d]) with (35%N :: (35%N :: 32%N :: a) ++ [d]).
  rewrite strip_id by (reflexivity || exact Hd). reflexivity.
Qed.

(** The title-case form of a stripped, non-empty ASCII text ends with a
    code point that is not whitespace. *)
Lemma title_of_stripped (U : UnicodeDB) (l : str) :
  Forall (fun c => is_ascii c = true) l -> strip l <> [] ->
  exists (a : str) (d : char),
    Py.title U (strip l) = a ++ [d] /\ isspace d = false.
Proof.
  intros Ha Hne.
  assert (Hs : Forall (fun c => is_ascii c = true) (strip l))
    by (apply strip_by_Forall, Ha).
  unfold strip, strip_by in *.
  destruct (rstrip_by_end isspace (lstrip_by isspace l))
    as [E | (t & c & E & Hc)]; [congruence |].
  rewrite E in *. unfold Py.title.
  pose proof (title_from_variants U (t ++ [c]) 0 false Hs) as H2.
  apply Forall2_app_inv_l in H2. destruct H2 as (a & b & _ & Hb & Et).
  inversion Hb as [| x d l1 l2 Hv Hnil]; subst. inversion Hnil; subst.
  exists a, d. split; [exact Et | exact (variant_not_space Hv Hc)].
Qed.

Lemma format_line_idempotent (U : UnicodeDB) (l : str) :
  Forall (fun c => is_ascii c = true) l ->
  format_line U (format_line U l) = format_line U l.
Proof.
  intros Ha. destruct (format_line_cases U l) as [E | [E | [Hne E]]].
  - rewrite E. reflexivity.
  - rewrite E at 1. apply format_line_strip.
  - rewrite E. destruct (title_of_stripped U Ha Hne) as (a & d & Et & Hd).
    rewrite Et. apply format_line_heading, Hd.
Qed.

Lemma format_line_one_line (U : UnicodeDB) (l : str) :
  Forall (fun c => is_ascii c = true /\ c <> nl) l ->
  one_line (format_line U l).
Proof.
  intros H.
  assert (Ha : Forall (fun c => is_ascii c = true) l)
    by (eapply Forall_impl; [| exact H]; intros c Hc; apply Hc).
  assert (Hl : one_line l)
    by (eapply Forall_impl; [| exact H]; intros c Hc; apply Hc).
  destruct (format_line_cases U l) as [E | [E | [_ E]]]; rewrite E.
  - constructor.
  - apply strip_by_Forall, Hl.
  - apply Forall_app. split; [repeat constructor; discriminate |].
    unfold Py.title.
    apply (@Forall2_transfer _ case_variant (fun c => c <> nl)
             (fun c => c <> nl) (strip l)).
    + intros x y Hv Hx. exact (variant_not_nl Hv Hx).
    + apply title_from_variants, strip_by_Forall, Ha.
    + apply strip_by_Forall, Hl.
Qed.

(** The lines of an ASCII text. *)
Lemma ascii_lines (content : str) :
  forallb is_ascii content = true ->
  Forall (Forall (fun c => is_ascii c = true /\ c <> nl))
    (split_on nl content).
Proof.
  intros H. unfold split_on. apply split_on_from_pieces; [constructor |].
  apply Forall_forall. intros c Hc.
  rewrite forallb_forall in H. apply H, Hc.
Qed.

(** The lines of the normalised text are the normalised lines. *)
Lemma lines_of_normalised (U : UnicodeDB) (content : str) :
  forallb is_ascii content = true ->
  split_on nl (join [nl] (map (format_line U) (split_on nl content)))
  = map (format_line U) (split_on nl content).
Proof.
  intros H. pose proof (ascii_lines content H) as Hl.
  pose proof (@split_on_from_not_nil nl content []) as Hne.
  fold (split_on nl content) in Hne.
  destruct (split_on nl content) as [| l ls]; [congruence |].
  cbn [map]. unfold split_on. rewrite split_join; [reflexivity |].
  change (format_line U l :: map (format_line U) ls)
    with (map (format_line U) (l :: ls)).
  apply Forall_forall. intros o Ho. apply in_map_iff in Ho.
  destruct Ho as (x & Ex & Hx). subst o. apply format_line_one_line.
  rewrite Forall_forall in Hl. apply Hl, Hx.
Qed.

End MarkdownStability.

Import MarkdownStability.

(** X9.  On ASCII content the normaliser is idempotent: normalising a
    text that was already normalised changes nothing (also when the
    formatting step fails, which leaves the content as it was). *)
Theorem ensure_proper_markdown_idempotent_on_ascii :
  forall (U : UnicodeDB) (F : faults) (content : str),
    forallb is_ascii content = true ->
    ensure_proper_markdown U F (ensure_proper_markdown U F content)
    = ensure_proper_markdown U F content.
Proof.
  intros U F content H.
  unfold ensure_proper_markdown, ensure_proper_markdown_body, guarded.
  destruct (F MarkdownFormat); [reflexivity |].
  rewrite (lines_of_normalised U content H), map_map. f_equal.
  apply map_ext_in. intros l Hl. apply format_line_idempotent.
  pose proof (ascii_lines content H) as Ha. rewrite Forall_forall in Ha.
  eapply Forall_impl; [| exact (Ha l Hl)]. intros c Hc. apply Hc.
Qed.

Lemma ensure_proper_markdown_idempotent_on_ascii_witness :
  ensure_proper_markdown ascii_tables no_faults
    (ensure_proper_markdown ascii_tables no_faults
       (py "KEY TAKEAWAYS\n  some text  \n#HASHTAG"))
  = ensure_proper_markdown ascii_tables no_faults
      (py "KEY TAKEAWAYS\n  some text  \n#HASHTAG").
Proof.
  apply (ensure_proper_markdown_idempotent_on_ascii ascii_tables no_faults
           (py "KEY TAKEAWAYS\n  some text  \n#HASHTAG")).
  reflexivity.
Defined.

(** X10.  On ASCII content the normaliser neither merges nor splits
    lines: the lines of its result are, one for one, the normalised lines
    of the input, so the number of lines is kept. *)
Theorem ensure_proper_markdown_keeps_the_lines :
  forall (U : UnicodeDB) (content : str),
    forallb is_ascii content = true ->
    split_on nl (ensure_proper_markdown U no_faults content)
    = map (format_line U) (split_on nl content)
    /\ List.length (split_on nl (ensure_proper_markdown U no_faults content))
       = List.length (split_on nl content).
Proof.
  intros U content H.
  assert (E : split_on nl (ensure_proper_markdown U no_faults content)
              = map (format_line U) (split_on nl content))
    by exact (lines_of_normalised U content H).
  split; [exact E |]. rewrite E. apply length_map.
Qed.

Lemma ensure_proper_markdown_keeps_the_lines_witness :
  split_on nl (ensure_proper_markdown ascii_tables no_faults
                 (py "KEY TAKEAWAYS\n  some text  \n#HASHTAG"))
  = map (format_line ascii_tables)
      (split_on nl (py "KEY TAKEAWAYS\n  some text  \n#HASHTAG")).
Proof.
  apply (ensure_proper_markdown_keeps_the_lines ascii_tables
           (py "KEY TAKEAWAYS\n  some text  \n#HASHTAG")).
  reflexivity.
Defined.

(** ** The database manager *)

Module ConnectionFacts.
Import connection OrchestratorFacts.

(** A database that serves every call. *)
Definition healthy (E : Env) : Prop := forall n, prisma_fault E n = None.

Ltac run_database :=
  unfold log_generation, log_generation_attempt, save_blog_post,
    create_blog_post, get_recent_blog_posts, get_blog_posts_by_topic,
    blogpost_find_many, disconnect, try_exceptM, bindM, is_connected, connect,
    generationlog_create, blogpost_create, prisma_call, set_connected, ret,
    raise, try_exceptM, bindM, is_connected.

Lemma log_generation_healthy (E : Env) (topic status : str)
    (error_msg : option str) (blog_post_id : option Z) (w : World) :
  healthy E ->
  exists w',
    log_generation E topic status error_msg blog_post_id w
    = (Return (Some (log_row topic status error_msg blog_post_id)), w')
    /\ blogposts w' = blogposts w
    /\ generationlogs w'
       = generationlogs w ++ [log_row topic status error_msg blog_post_id]
    /\ connected w' = true
    /\ random_calls w' = random_calls w.
Proof.
  intros H. run_database.
  destruct (connected w) eqn:Hc; simpl; rewrite ?Hc; simpl; rewrite ?H; simpl;
    rewrite ?H; simpl; eexists; (split; [reflexivity |]); simpl;
    repeat split; auto.
Qed.

Lemma save_blog_post_healthy (U : UnicodeDB) (E : Env)
    (title content topic : str) (tags : list str) (word_count : nat)
    (meta_description : option str) (w : World) :
  healthy E ->
  let post :=
    {| id := Z.of_nat (S (List.length (blogposts w)));
       Runtime.title := title;
       Runtime.content := content;
       Runtime.topic := topic;
       Runtime.tags := tags;
       wordCount := Some word_count;
       metaDescription := meta_description;
       slug := generate_slug U title;
       createdAt := now E;
       published := true |} in
  exists w',
    save_blog_post U E title content topic (Some tags) (Some word_count)
      meta_description None w = (Return (Some post), w')
    /\ blogposts w' = blogposts w ++ [post]
    /\ generationlogs w' = generationlogs w
    /\ connected w' = true
    /\ random_calls w' = random_calls w.
Proof.
  intros H post. subst post. run_database.
  destruct (connected w) eqn:Hc; simpl; rewrite ?Hc; simpl; rewrite ?H; simpl;
    rewrite ?H; simpl; eexists; (split; [reflexivity |]); simpl;
    repeat split; auto.
Qed.

(** Whether the calls of the client that a query makes in [w] return:
    the one of [connect] when the manager is not connected, and the one
    of the query itself. *)
Definition served (E : Env) (w : World) : bool :=
  match prisma_fault E (prisma_calls w) with
  | Some _ => false
  | None =>
      if connected w then true
      else match prisma_fault E (S (prisma_calls w)) with
           | Some _ => false
           | None => true
           end
  end.

Lemma generate_slug_url_safe (U : UnicodeDB) (title : str) :
  List.length (generate_slug U title) <= 100
  /\ forallb slug_alphabet (generate_slug U title) = true.
Proof.
  split; [apply generate_slug_shape |].
  apply (slug_prefix_alphabet _ true (generate_slug_prefix U title)).
Qed.

End ConnectionFacts.

Import ConnectionFacts.

(** X11.  [connect] calls the client exactly when the flag is unset.  On
    a connected manager it returns and changes nothing.  Otherwise it
    makes one call of the client: when that call returns, [connect]
    returns with the flag set, and a further call returns without
    calling the client; when that call raises, [connect] raises the same
    exception and the flag is still unset, so the next call tries again.
    The tables are never touched. *)
Theorem connect_sets_the_flag_once :
  forall (E : Env) (w : World),
    exists w1,
      snd (connect E w) = w1
      /\ blogposts w1 = blogposts w
      /\ generationlogs w1 = generationlogs w
      /\ random_calls w1 = random_calls w
      /\ if connected w then
           connect E w = (Return tt, w)
         else
           prisma_calls w1 = S (prisma_calls w)
           /\ match prisma_fault E (prisma_calls w) with
              | None =>
                  connect E w = (Return tt, w1)
                  /\ connected w1 = true
                  /\ connect E w1 = (Return tt, w1)
              | Some e =>
                  connect E w = (Raise e, w1)
                  /\ connected w1 = false
              end.
Proof.
  intros E w. eexists. split; [reflexivity |]. run_database.
  destruct (connected w) eqn:Hc; cbn [negb].
  - cbn [snd]. repeat split; reflexivity.
  - destruct (prisma_fault E (prisma_calls w)) eqn:Hp; cbn;
      repeat split; auto.
Qed.

(** X12.  [disconnect] never raises and never touches the tables.  On a
    manager that is not connected it does nothing.  On a connected one it
    clears the flag when the client's call returns; when that call raises
    the flag stays set, so a later [connect] will not reconnect. *)
Theorem disconnect_never_raises :
  forall (E : Env) (w : World),
    exists w',
      disconnect E w = (Return tt, w')
      /\ blogposts w' = blogposts w
      /\ generationlogs w' = generationlogs w
      /\ (connected w = false -> w' = w)
      /\ (connected w = true ->
          match prisma_fault E (prisma_calls w) with
          | None => connected w' = false
          | Some _ => connected w' = true /\ connect E w' = (Return tt, w')
          end).
Proof.
  intros E w. run_database.
  destruct (connected w) eqn:Hc; simpl.
  - destruct (prisma_fault E (prisma_calls w)) eqn:Hp; simpl;
      eexists; (split; [reflexivity |]); simpl; rewrite ?Hc; simpl;
      repeat split; auto; discriminate.
  - exists w. repeat split; auto. discriminate.
Qed.

(** X13.  [create_blog_post] never raises and never touches the log
    table.  It returns nothing and leaves the posts as they were, or it
    returns the row it has added at the end of the table: the row holds
    the given title, content and topic, the given tags (none when no list
    is given), is published, and its slug is the given one when that is
    not empty and the slug of the title otherwise, which then has at most
    100 code points, all of them lowercase letters, digits or hyphens. *)
Theorem create_blog_post_stores_what_it_is_given :
  forall (U : UnicodeDB) (E : Env) (title content topic : str)
         (tags : option (list str)) (word_count : option nat)
         (meta_description slug : option str) (w : World),
    exists r w',
      create_blog_post U E title content topic tags word_count
        meta_description slug w = (Return r, w')
      /\ generationlogs w' = generationlogs w
      /\ match r with
         | None => blogposts w' = blogposts w
         | Some post =>
             blogposts w' = blogposts w ++ [post]
             /\ Runtime.title post = title
             /\ Runtime.content post = content
             /\ Runtime.topic post = topic
             /\ Runtime.tags post = match tags with Some l => l | None => [] end
             /\ published post = true
             /\ Runtime.slug post
                = match slug with
                  | Some (c :: given) => c :: given
                  | _ => generate_slug U title
                  end
             /\ (slug = None \/ slug = Some [] ->
                 List.length (Runtime.slug post) <= 100
                 /\ forallb slug_alphabet (Runtime.slug post) = true)
         end.
Proof.
  intros U E title content topic tags word_count meta_description slug w.
  run_database.
  destruct (connected w) eqn:Hc; simpl; rewrite ?Hc; simpl.
  - destruct (prisma_fault E (prisma_calls w)) eqn:Hp; simpl;
      eexists; eexists; (split; [reflexivity |]); simpl;
      repeat split; auto.
    all: match goal with
         | Hn : _ \/ _ |- _ =>
             destruct Hn as [-> | ->]; apply generate_slug_url_safe
         end.
  - destruct (prisma_fault E (prisma_calls w)) eqn:Hp; simpl.
    + eexists; eexists; (split; [reflexivity |]); simpl; repeat split; auto.
    + destruct (prisma_fault E (S (prisma_calls w))) eqn:Hq; simpl;
        eexists; eexists; (split; [reflexivity |]); simpl;
        repeat split; auto.
      all: match goal with
         | Hn : _ \/ _ |- _ =>
             destruct Hn as [-> | ->]; apply generate_slug_url_safe
         end.
Qed.

(** X14.  The two queries never raise and change neither table.  When
    the calls of the client they make return (the one of [connect] on a
    manager that is not connected, then the one of [find_many]) they
    return what the store's [find_many] returns for the posts, for no
    topic or for the given one and the given limit; when one of these
    calls raises, as when the database cannot be reached, they return
    the empty list. *)
Theorem queries_never_raise :
  forall (E : Env)
         (find_many : option str -> Z -> list BlogPost -> list BlogPost)
         (topic : str) (limit : Z) (w : World),
    (exists w',
       get_recent_blog_posts E find_many limit w
       = (Return (if served E w then find_many None limit (blogposts w)
                  else []), w')
       /\ blogposts w' = blogposts w
       /\ generationlogs w' = generationlogs w)
    /\ (exists w',
          get_blog_posts_by_topic E find_many topic limit w
          = (Return (if served E w
                     then find_many (Some topic) limit (blogposts w)
                     else []), w')
          /\ blogposts w' = blogposts w
          /\ generationlogs w' = generationlogs w).
Proof.
  intros E find_many topic limit w. unfold served. run_database.
  split.
  - destruct (connected w) eqn:Hc; simpl; rewrite ?Hc; simpl.
    + destruct (prisma_fault E (prisma_calls w)) eqn:Hp; simpl;
        eexists; (split; [reflexivity |]); simpl; split; reflexivity.
    + destruct (prisma_fault E (prisma_calls w)) eqn:Hp; simpl.
      * eexists; (split; [reflexivity |]); simpl; split; reflexivity.
      * destruct (prisma_fault E (S (prisma_calls w))) eqn:Hq; simpl;
          eexists; (split; [reflexivity |]); simpl; split; reflexivity.
  - destruct (connected w) eqn:Hc; simpl; rewrite ?Hc; simpl.
    + destruct (prisma_fault E (prisma_calls w)) eqn:Hp; simpl;
        eexists; (split; [reflexivity |]); simpl; split; reflexivity.
    + destruct (prisma_fault E (prisma_calls w)) eqn:Hp; simpl.
      * eexists; (split; [reflexivity |]); simpl; split; reflexivity.
      * destruct (prisma_fault E (S (prisma_calls w))) eqn:Hq; simpl;
          eexists; (split; [reflexivity |]); simpl; split; reflexivity.
Qed.

(** ** The orchestrator on a healthy system *)

(** A database that serves every call, and a pipeline that writes one
    short post. *)
Definition healthy_system : Env :=
  {| prisma_fault := fun _ => None;
     random_draw := fun _ => 0;
     crew_kickoff :=
       fun _ => Return (Some (py "# Agents at Work\n\nText.\n\nTags: agents, tools"));
     current_year := 2025;
     now := 0 |}.

Definition empty_database : World :=
  {| connected := false; blogposts := []; generationlogs := [];
     prisma_calls := 0; random_calls := 0 |}.

Module HealthyRun.
Import connection blog_generator OrchestratorFacts OrchestratorProof
  ConnectionFacts.

(** The run of the orchestrator, call by call, on a database that serves
    every call. *)
Lemma healthy_run :
  forall (U : UnicodeDB) (F : faults) (E : Env) (c : char)
         (rest text : str) (w : World),
    healthy E ->
    crew_kickoff E (c :: rest) = Return (Some text) ->
    exists comps w',
      extract_blog_components U F text = Return comps
      /\ let post :=
           {| id := Z.of_nat (S (List.length (blogposts w)));
              Runtime.title := blog_generator.title comps;
              Runtime.content := blog_generator.content comps;
              Runtime.topic := c :: rest;
              Runtime.tags := blog_generator.tags comps;
              wordCount := Some (word_count comps);
              metaDescription := meta_description comps;
              slug := generate_slug U (blog_generator.title comps);
              createdAt := now E;
              published := true |} in
         generate_blog_post U F E (Some (c :: rest)) w
         = (Return (Some {| s_id := id post;
                            s_title := blog_generator.title comps;
                            s_topic := c :: rest;
                            s_tags := blog_generator.tags comps;
                            s_word_count := Some (word_count comps);
                            s_created_at := now E |}), w')
         /\ blogposts w' = blogposts w ++ [post]
         /\ generationlogs w'
            = generationlogs w
              ++ [log_row (c :: rest) (py "in_progress") None None;
                  log_row (c :: rest) (py "success") None (Some (id post))]
         /\ connected w' = true
         /\ random_calls w' = random_calls w.
Proof.
  intros U F E c rest text w H Hk.
  destruct (extract_blog_components_returns U F text) as [comps Hc].
  exists comps.
  unfold generate_blog_post. cbn [resolve_topic ret].
  unfold try_exceptM, generate_body. unfold bindM at 1.
  destruct (log_generation_healthy (c :: rest) (py "in_progress") None None w H)
    as (w1 & H1 & B1 & L1 & C1 & R1).
  rewrite H1. unfold bindM at 1, lift. rewrite Hk.
  unfold bindM at 1. rewrite Hc. unfold bindM at 1.
  destruct (save_blog_post_healthy U (blog_generator.title comps)
              (blog_generator.content comps) (c :: rest)
              (blog_generator.tags comps) (word_count comps)
              (meta_description comps) w1 H)
    as (w2 & H2 & B2 & L2 & C2 & R2).
  rewrite H2. unfold bindM.
  destruct (log_generation_healthy (c :: rest) (py "success") None
              (Some (Z.of_nat (S (List.length (blogposts w1))))) w2 H)
    as (w3 & H3 & B3 & L3 & C3 & R3).
  cbn [id]. rewrite H3. exists w3. cbn [ret].
  split; [reflexivity |]. rewrite B1. split; [reflexivity |].
  split; [rewrite B3, B2, B1; reflexivity |].
  split; [rewrite L3, L2, L1, B1, <- app_assoc; reflexivity |].
  split; [exact C3 | congruence].
Qed.

End HealthyRun.

(** X15.  With a database that serves every call and a pipeline that
    returns a text for the given topic, [generate_blog_post] returns a
    summary of what was extracted from that text; the post is added at
    the end of the posts with the extracted title, content, tags, word
    count and meta description, under the slug of its title, and the log
    table grows by exactly two rows, "in_progress" and then "success"
    with the id of the post.  The random source is not consulted for a
    custom topic, and the manager ends connected. *)
Theorem generate_blog_post_on_a_healthy_system :
  forall (U : UnicodeDB) (F : faults) (E : Env) (c : char)
         (rest text : str) (w : World),
    (forall n, prisma_fault E n = None) ->
    crew_kickoff E (c :: rest) = Return (Some text) ->
    exists comps post w',
      extract_blog_components U F text = Return comps
      /\ generate_blog_post U F E (Some (c :: rest)) w
         = (Return (Some {| s_id := id post;
                            s_title := blog_generator.title comps;
                            s_topic := c :: rest;
                            s_tags := blog_generator.tags comps;
                            s_word_count := Some (word_count comps);
                            s_created_at := createdAt post |}), w')
      /\ blogposts w' = blogposts w ++ [post]
      /\ Runtime.title post = blog_generator.title comps
      /\ Runtime.content post = blog_generator.content comps
      /\ Runtime.topic post = c :: rest
      /\ Runtime.tags post = blog_generator.tags comps
      /\ wordCount post = Some (word_count comps)
      /\ metaDescription post = meta_description comps
      /\ Runtime.slug post = generate_slug U (blog_generator.title comps)
      /\ published post = true
      /\ generationlogs w'
         = generationlogs w
           ++ [log_row (c :: rest) (py "in_progress") None None;
               log_row (c :: rest) (py "success") None (Some (id post))]
      /\ connected w' = true
      /\ random_calls w' = random_calls w.
Proof.
  intros U F E c rest text w H Hk.
  destruct (@HealthyRun.healthy_run U F E c rest text w H Hk)
    as (comps & w' & Hc & Hrun & B & L & C & R).
  exists comps. eexists. exists w'.
  split; [exact Hc |]. split; [exact Hrun |]. split; [exact B |].
  repeat (split; [reflexivity |]).
  split; [exact L |]. split; [exact C | exact R].
Qed.

Lemma generate_blog_post_on_a_healthy_system_witness :
  exists r w',
    generate_blog_post ascii_tables no_faults healthy_system
      (Some (py "AI agents")) empty_database = (Return (Some r), w')
    /\ List.length (blogposts w') = 1
    /\ List.length (generationlogs w') = 2.
Proof.
  destruct (@generate_blog_post_on_a_healthy_system ascii_tables no_faults
              healthy_system 65%N (py "I agents")
              (py "# Agents at Work\n\nText.\n\nTags: agents, tools")
              empty_database (fun _ => eq_refl) eq_refl)
    as (comps & post & w' & _ & H & B & _ & _ & _ & _ & _ & _ & _ & _ & L & _).
  eexists. exists w'. split; [exact H |].
  rewrite B, L. split; reflexivity.
Defined.

(** ** More on the scheduler *)

Module SchedulerMore.
Import scheduler SchedulerFacts.

Definition three_ids : list str :=
  [py "blog_generation_job"; py "stats_reporting_job"; py "daily_cleanup_job"].

(** A database that refuses every call. *)
Definition unreachable_database : Env :=
  {| prisma_fault := fun _ => Some {| exc_type := py "PrismaError";
                                      exc_msg := py "Could not connect" |};
     random_draw := fun _ => 0;
     crew_kickoff := fun _ => Return (Some (py "# A post"));
     current_year := 2025;
     now := 0 |}.

(** A wrapper that was started, as it is after a stop and as it is once
    the loop has run the shutdown. *)
Lemma stop_then_loop (next_run_time : Job -> str)
    (interval_error : Z -> option exn) (b : BlogScheduler) :
  consistent b -> _running b = true ->
  exists k l,
    snd (stop_scheduler b)
    = {| scheduler := serving k 1; _running := false; logged := l |}
    /\ step next_run_time interval_error (snd (stop_scheduler b)) LoopRuns
       = {| scheduler := idle true; _running := false; logged := l |}.
Proof.
  intros Hb Hr. destruct b as [s r l]. cbn [_running] in Hr. subst r.
  inversion Hb as [loop Hr Hs | k Hr Hs | k Hr Hs];
    cbn [_running scheduler] in Hr, Hs; try discriminate Hr.
  subst s. rewrite stop_when_serving. cbn [snd].
  eexists. eexists. split; reflexivity.
Qed.

End SchedulerMore.

Import SchedulerMore.

(** X16.  In every state the wrapper reaches from its construction by
    calls of [start_scheduler] and [stop_scheduler] and turns of the
    event loop, whatever intervals the trigger refuses, [get_job_info]
    returns the empty list while [is_running] is false, and while it is
    true exactly three entries, one for each of the ids
    blog_generation_job, stats_reporting_job and daily_cleanup_job. *)
Theorem get_job_info_lists_the_three_jobs :
  forall (next_run_time : Job -> str) (interval_error : Z -> option exn)
         (datetime : Type) (next_run_time_of : Job -> datetime)
         (str_trigger : trigger -> str) (calls : list call),
    let b := run next_run_time interval_error calls in
    let infos := get_job_info next_run_time_of str_trigger b in
    if is_running b then
      List.length infos = 3
      /\ NoDup (map (@info_id datetime) infos)
      /\ (forall i, In i (map (@info_id datetime) infos) <-> In i three_ids)
    else infos = [].
Proof.
  intros next_run_time interval_error datetime next_run_time_of str_trigger
    calls b infos.
  subst infos. unfold get_job_info, is_running.
  destruct (run_consistent next_run_time interval_error calls)
    as [loop Hr Hs | i Hr Hs | i Hr Hs];
    fold b in Hr, Hs; rewrite Hr; cbn [negb].
  - reflexivity.
  - rewrite Hs.
    cbn [serving three_jobs get_jobs state store map info_id List.length].
    split; [reflexivity |]. split; [| intros j; reflexivity].
    exact (three_jobs_distinct i).
  - reflexivity.
Qed.

(** X17.  A stop does not stop the library scheduler at once: it leaves
    the shutdown to the event loop.  So when the wrapper runs and the
    trigger accepts the new interval, a stop followed at once by a start
    raises SchedulerAlreadyRunningError and leaves [is_running] false;
    when the loop has had a turn after the stop, the start returns and
    leaves the wrapper running with three jobs of three different ids,
    the generation job on the new interval. *)
Theorem restart_applies_the_new_interval :
  forall (next_run_time : Job -> str) (interval_error : Z -> option exn)
         (calls : list call) (j : Z),
    is_running (run next_run_time interval_error calls) = true ->
    interval_error j = None ->
    (let b := run next_run_time interval_error
                (calls ++ [StopScheduler]) in
     fst (start_scheduler next_run_time interval_error j b)
     = Raise SchedulerAlreadyRunningError
     /\ is_running (snd (start_scheduler next_run_time interval_error j b))
        = false)
    /\ (let b := run next_run_time interval_error
                   (calls ++ [StopScheduler; LoopRuns]) in
        let b' := snd (start_scheduler next_run_time interval_error j b) in
        fst (start_scheduler next_run_time interval_error j b) = Return tt
        /\ is_running b' = true
        /\ List.length (get_jobs (scheduler b')) = 3
        /\ NoDup (map job_id (get_jobs (scheduler b')))
        /\ In (blog_generation_job j) (get_jobs (scheduler b'))).
Proof.
  intros next_run_time interval_error calls j Hr Hj.
  unfold run. rewrite !fold_left_app. cbn [fold_left].
  fold (run next_run_time interval_error calls).
  destruct (stop_then_loop next_run_time interval_error
              (run_consistent next_run_time interval_error calls) Hr)
    as (k & l & Hstop & Hloop).
  split.
  - cbn [step]. rewrite Hstop. rewrite (@start_from_stopping next_run_time interval_error j k 1 l Hj).
    split; reflexivity.
  - cbn zeta.
    change (step next_run_time interval_error
              (run next_run_time interval_error calls) StopScheduler)
      with (snd (stop_scheduler (run next_run_time interval_error calls))).
    rewrite Hloop.
    destruct (@start_from_idle next_run_time interval_error j true l Hj)
      as [l' H].
    rewrite H. cbn [fst snd is_running _running scheduler].
    split; [reflexivity |]. split; [reflexivity |].
    split; [reflexivity |].
    split; [apply three_jobs_distinct | left; reflexivity].
Qed.

Lemma restart_applies_the_new_interval_witness :
  fst (start_scheduler (fun _ => py "soon") (fun _ => None) 30
         (run (fun _ => py "soon") (fun _ => None)
            [StartScheduler 10; StopScheduler]))
  = Raise SchedulerAlreadyRunningError.
Proof.
  destruct (@restart_applies_the_new_interval (fun _ => py "soon")
              (fun _ => None) [StartScheduler 10] 30 eq_refl eq_refl)
    as [[H _] _].
  exact H.
Defined.

(** X18.  When the manager is not connected and the client's call
    raises, the timer-triggered job returns right after the failed
    [connect]: one call of the client, no log row, no post, no draw of
    the random source.  The manual trigger of the module does the same,
    being the same job. *)
Theorem scheduled_run_gives_up_without_database :
  forall (U : UnicodeDB) (F : blog_generator.faults) (E : Env) (w : World)
         (e : exn),
    connected w = false ->
    prisma_fault E (prisma_calls w) = Some e ->
    generate_blog_job U F E w
    = (Return tt,
       {| connected := false;
          blogposts := blogposts w;
          generationlogs := generationlogs w;
          prisma_calls := S (prisma_calls w);
          random_calls := random_calls w |})
    /\ trigger_blog_generation U F E w = generate_blog_job U F E w.
Proof.
  intros U F E w e Hc Hp. split; [| reflexivity].
  unfold generate_blog_job, try_exceptM, bindM, connection.connect,
    connection.is_connected, connection.prisma_call, try_exceptM, bindM,
    raise, ret.
  rewrite Hc. cbn [negb]. rewrite Hp, Hc. reflexivity.
Qed.

Lemma scheduled_run_gives_up_without_database_witness :
  generate_blog_job ascii_tables blog_generator.no_faults unreachable_database
    empty_database
  = (Return tt,
     {| connected := false; blogposts := []; generationlogs := [];
        prisma_calls := 1; random_calls := 0 |}).
Proof.
  apply (@scheduled_run_gives_up_without_database ascii_tables
           blog_generator.no_faults unreachable_database empty_database
           {| exc_type := py "PrismaError"; exc_msg := py "Could not connect" |}
           eq_refl eq_refl).
Defined.

(** ** The title of a text that opens with a heading *)

Module TitleHeading.
Import Re blog_generator StripFacts ExtractShape ExtractFacts TitleTagsFacts.

Definition final : kont (nat * option str) :=
  fun p _ => Some (taken p, group1 p).

Fixpoint takes (a : str) (p : cursor) : cursor :=
  match a with
  | [] => p
  | x :: a' => takes a' (take x p)
  end.

Lemma takes_reading (a : str) :
  forall p,
    reading (takes a p) = option_map (fun t => rev a ++ t) (reading p)
    /\ group1 (takes a p) = group1 p.
Proof.
  induction a as [| x a IH]; intros p; cbn [takes].
  - destruct (reading p); split; reflexivity.
  - destruct (IH (take x p)) as [H1 H2]. rewrite H1, H2. cbn [take reading group1].
    split; [| reflexivity].
    destruct (reading p); cbn [option_map rev]; [| reflexivity].
    rewrite <- app_assoc. reflexivity.
Qed.

(** The end of the patterns that capture the rest of a line,
    r"(.+?)(?:\n|$)", under flags for which only the newline matches a
    newline. *)
Section Line.
Variable fl : flags.
Hypothesis newline_only : forall x, chr_match fl nl x = (x =? nl)%N.

(** What is left of such a pattern once the text of the group is
    read. *)
Definition after_text : kont (nat * option str) :=
  fun p s => m fl eol (close_group p) s final.

Lemma after_text_inside (p : cursor) (x : char) (s : str) :
  x <> nl -> after_text p (x :: s) = None.
Proof.
  intros H. apply N.eqb_neq in H.
  unfold after_text, eol. cbn [m]. rewrite newline_only. unfold at_eol.
  rewrite H. reflexivity.
Qed.

Lemma dot_matches (x : char) : x <> nl -> cset_match fl dot x = true.
Proof.
  intros H. apply N.eqb_neq in H.
  unfold cset_match, dot, set_not. cbn. rewrite newline_only, H. reflexivity.
Qed.

(** The lazy repetition reads a line up to its end. *)
Lemma rep_lazy_line (a : str) :
  forall lo p rest,
    Forall (fun c => c <> nl) a -> lo <= List.length a ->
    rep_lazy (cset_match fl dot) after_text lo p (a ++ rest)
    = rep_lazy (cset_match fl dot) after_text 0 (takes a p) rest.
Proof.
  induction a as [| x a IH]; intros lo p rest Ha Hlo.
  - cbn in Hlo. assert (lo = 0) by lia. subst lo. reflexivity.
  - inversion Ha as [| x0 a0 Hx Ha']; subst.
    cbn [app takes]. destruct lo as [| n].
    + cbn [rep_lazy]. rewrite (after_text_inside p _ Hx), (dot_matches Hx).
      cbn [pred]. apply IH; [exact Ha' | lia].
    + cbn [rep_lazy]. rewrite (dot_matches Hx). cbn [pred].
      apply IH; [exact Ha' |]. cbn in Hlo. lia.
Qed.

(** The group captures the line the cursor stands on, when the line is
    not empty. *)
Lemma capture_line (c : char) (a rest : str) (p : cursor) :
  Forall (fun x => x <> nl) (c :: a) ->
  rest = [] \/ (exists more, rest = nl :: more) ->
  exists n,
    m fl (RSeq lazy_text eol) p ((c :: a) ++ rest) final
    = Some (n, Some (c :: a)).
Proof.
  intros Hl Hrest. unfold lazy_text. cbn [m].
  change (rep_lazy (cset_match fl dot)
            (fun (p' : cursor) (s' : str) =>
               m fl eol (close_group p') s' final)
            1 (open_group p) ((c :: a) ++ rest))
    with (rep_lazy (cset_match fl dot) after_text 1 (open_group p)
            ((c :: a) ++ rest)).
  rewrite (rep_lazy_line (open_group p) rest Hl) by (cbn; lia).
  destruct (takes_reading (c :: a) (open_group p)) as [Hr Hg].
  assert (Hclose : group1 (close_group (takes (c :: a) (open_group p)))
                   = Some (c :: a)).
  { cbn [close_group group1]. rewrite Hr. cbn [open_group reading option_map].
    rewrite app_nil_r, rev_involutive. reflexivity. }
  destruct Hrest as [-> | [more ->]].
  - eexists. cbn [rep_lazy]. unfold after_text, eol. cbn [m at_eol final].
    rewrite Hclose. reflexivity.
  - eexists. cbn [rep_lazy]. unfold after_text, eol. cbn [m].
    rewrite newline_only, N.eqb_refl. unfold final.
    cbn [take group1]. rewrite Hclose. reflexivity.
Qed.

End Line.

Lemma newline_only_M : forall x, chr_match M_ nl x = (x =? nl)%N.
Proof. reflexivity. Qed.

Lemma newline_only_MI : forall x, chr_match MI nl x = (x =? nl)%N.
Proof.
  intros x. unfold chr_match, ic_eq, simple_lower, ascii_lower,
    is_ascii_upper, in_range, nl. cbn [IGNORECASE MI].
  destruct ((65 <=? x)%N && (x <=? 90)%N) eqn:Hu.
  - apply andb_true_iff in Hu. destruct Hu as [H1 H2].
    apply N.leb_le in H1. apply N.leb_le in H2.
    destruct (N.eqb_spec x 10); [lia |].
    destruct (N.eqb_spec x 305); [lia |].
    destruct (N.eqb_spec x 383); [lia |].
    cbn. destruct (N.eqb_spec (x + 32) 10); [lia | reflexivity].
  - destruct (N.eqb_spec x 304) as [-> | H304]; [reflexivity |].
    destruct (N.eqb_spec x 8490) as [-> | H8490]; [reflexivity |].
    cbn. destruct (N.eqb_spec x 10); reflexivity.
Qed.

(** The heading pattern matches a heading line at the start of a line. *)
Lemma match_title_heading (prev : option char) (c : char) (a rest : str) :
  at_bol M_ prev = true ->
  isspace c = false -> Forall (fun x => x <> nl) (c :: a) ->
  rest = [] \/ (exists more, rest = nl :: more) ->
  exists n,
    match_at M_ title_re prev (35%N :: 32%N :: c :: a ++ rest)
    = Some (n, Some (c :: a)).
Proof.
  intros Hb Hc Hl Hrest.
  assert (Hs32 : cset_match M_ space 32 = true) by reflexivity.
  assert (Hsc : cset_match M_ space c = false).
  { unfold cset_match, space, set_of. cbn. rewrite Hc. reflexivity. }
  destruct (@capture_line M_ newline_only_M c a rest
              (take 32 (take 35 (start_at prev))) Hl Hrest) as [n Hn].
  exists n.
  unfold match_at, title_re. cbn [seq]. cbn [m before start_at].
  rewrite Hb.
  change (chr_match M_ 35 35) with true. cbn iota.
  cbn [rep_greedy]. rewrite Hs32. cbn [rep_greedy pred]. rewrite Hsc.
  cbn [m] in Hn. cbn [app] in Hn. unfold final in Hn.
  rewrite Hn. reflexivity.
Qed.

(** The search finds the heading at the start of the text. *)
Lemma search_title_heading (c : char) (a rest : str) :
  isspace c = false -> Forall (fun x => x <> nl) (c :: a) ->
  rest = [] \/ (exists more, rest = nl :: more) ->
  exists mt,
    search M_ title_re (35%N :: 32%N :: c :: a ++ rest) = Some mt
    /\ m_group1 mt = Some (c :: a).
Proof.
  intros Hc Hl Hrest.
  destruct (@match_title_heading None c a rest eq_refl Hc Hl Hrest) as [n Hn].
  unfold search. cbn [search_from]. rewrite Hn.
  eexists. split; reflexivity.
Qed.

End TitleHeading.

Module HeadingText.
Import Re blog_generator StripFacts ExtractShape ExtractFacts TitleTagsFacts
  TitleHeading.

Lemma rstrip_by_app (p : char -> bool) (a : str) (d : char) (y : str) :
  p d = false ->
  rstrip_by p ((a ++ [d]) ++ y) = (a ++ [d]) ++ rstrip_by p y.
Proof.
  intros Hd. induction a as [| x a IH].
  - cbn [app]. apply rstrip_by_cons, Hd.
  - cbn [app rstrip_by]. cbn [app] in IH. rewrite IH.
    destruct a; reflexivity.
Qed.

(** A stripped text that is not empty ends with a code point that is not
    whitespace. *)
Lemma stripped_end (t : str) :
  t <> [] -> strip t = t ->
  exists (a : str) (d : char), t = a ++ [d] /\ isspace d = false.
Proof.
  intros Hne Hs. unfold strip, strip_by in Hs.
  destruct (rstrip_by_end isspace (lstrip_by isspace t))
    as [E | (a & d & E & Hd)]; rewrite E in Hs.
  - congruence.
  - exists a, d. split; [symmetry; exact Hs | exact Hd].
Qed.

Lemma stripped_start (c : char) (a : str) :
  strip (c :: a) = c :: a -> isspace c = false.
Proof.
  intros Hs. pose proof (strip_by_start isspace (c :: a)) as H.
  fold (strip (c :: a)) in H. rewrite Hs in H. exact H.
Qed.

(** The text the [try] block works on when the pipeline text opens with
    a heading line. *)
Lemma strip_heading (t rest : str) :
  t <> [] -> strip t = t ->
  rest = [] \/ (exists more, rest = nl :: more) ->
  exists rest',
    strip (py "# " ++ t ++ rest) = py "# " ++ t ++ rest'
    /\ (rest' = [] \/ exists more, rest' = nl :: more).
Proof.
  intros Hne Hs Hrest.
  destruct (stripped_end Hne Hs) as (a & d & E & Hd).
  exists (rstrip_by isspace rest). split.
  - unfold strip, strip_by.
    change (py "# " ++ t ++ rest) with (35%N :: 32%N :: t ++ rest).
    cbn [lstrip_by]. change (isspace 35) with false. cbn iota.
    rewrite E.
    change (35%N :: 32%N :: (a ++ [d]) ++ rest)
      with (((35%N :: 32%N :: a) ++ [d]) ++ rest).
    rewrite (@rstrip_by_app isspace _ d rest Hd). reflexivity.
  - destruct Hrest as [-> | [more ->]]; [left; reflexivity |].
    cbn [rstrip_by]. destruct (rstrip_by isspace more) as [| u us].
    + left. reflexivity.
    + right. eexists. reflexivity.
Qed.

End HeadingText.

Import TitleHeading HeadingText.

(** X22.  When the pipeline text opens with the line "# T", where T is
    not empty, has no whitespace at either end and the line ends the text
    or is followed by a newline, the extracted title is T without the
    quotation marks and apostrophes at its ends. *)
Theorem title_is_the_opening_heading :
  forall (U : UnicodeDB) (t rest : str),
    t <> [] -> strip t = t -> one_line t ->
    rest = [] \/ (exists more, rest = nl :: more) ->
    exists r,
      extract_blog_components U no_faults (py "# " ++ t ++ rest) = Return r
      /\ blog_generator.title r = strip_chars [dquote; squote] t.
Proof.
  intros U t rest Hne Hs Hl Hrest.
  destruct (extract_body_returns U (py "# " ++ t ++ rest)) as (r & Hr & _).
  exists r. split; [unfold extract_blog_components; rewrite Hr; reflexivity |].
  destruct (extract_body_inv _ _ _ Hr) as (t0 & ts & Ht & Htitle & _).
  rewrite Htitle. f_equal.
  destruct (@strip_heading t rest Hne Hs Hrest) as (rest' & E & Hrest').
  rewrite E in Ht. destruct t as [| c a]; [congruence |].
  destruct (@search_title_heading c a rest' (stripped_start Hs) Hl Hrest')
    as (mt & Hm & Hg).
  unfold title_of_content in Ht.
  change (py "# " ++ (c :: a) ++ rest') with (35%N :: 32%N :: c :: a ++ rest')
    in Ht.
  rewrite Hm in Ht. unfold group1_or in Ht. rewrite Hg in Ht.
  cbn [bind] in Ht. inversion Ht. exact Hs.
Qed.

Lemma title_is_the_opening_heading_witness :
  exists r,
    extract_blog_components ascii_tables no_faults
      (py "# 'Agents' at Work" ++ py "\n\nBody text.") = Return r
    /\ blog_generator.title r = py "Agents' at Work".
Proof.
  apply (@title_is_the_opening_heading ascii_tables (py "'Agents' at Work")
           (py "\n\nBody text.")).
  - discriminate.
  - reflexivity.
  - unfold one_line. repeat constructor; discriminate.
  - right. eexists. reflexivity.
Defined.

(** ** The use of the random source *)

Module RandomUse.
Import connection blog_generator OrchestratorFacts ConnectionFacts.

(** A computation that leaves the random source alone. *)
Definition keeps_random {A} (c : M A) : Prop :=
  forall w, random_calls (snd (c w)) = random_calls w.

Lemma keeps_ret {A} (a : A) : keeps_random (ret a).
Proof. intros w. reflexivity. Qed.

Lemma keeps_lift {A} (o : Outcome A) : keeps_random (lift o).
Proof. intros w. reflexivity. Qed.

Lemma keeps_bindM {A B} (c : M A) (f : A -> M B) :
  keeps_random c -> (forall a, keeps_random (f a)) ->
  keeps_random (bindM c f).
Proof.
  intros Hc Hf w. unfold bindM. specialize (Hc w).
  destruct (c w) as [[a | e] w']; cbn [snd] in *.
  - rewrite (Hf a w'). exact Hc.
  - exact Hc.
Qed.

Lemma keeps_try {A} (c : M A) (h : exn -> M A) :
  keeps_random c -> (forall e, keeps_random (h e)) ->
  keeps_random (try_exceptM c h).
Proof.
  intros Hc Hh w. unfold try_exceptM. specialize (Hc w).
  destruct (c w) as [[a | e] w']; cbn [snd] in *.
  - exact Hc.
  - rewrite (Hh e w'). exact Hc.
Qed.

Lemma keeps_log_generation (E : Env) (topic status : str)
    (error_msg : option str) (blog_post_id : option Z) :
  keeps_random (log_generation E topic status error_msg blog_post_id).
Proof.
  intros w.
  destruct (log_generation_spec E topic status error_msg blog_post_id w)
    as (r & w' & H & _ & R & _).
  rewrite H. exact R.
Qed.

Lemma keeps_save_blog_post (U : UnicodeDB) (E : Env)
    (title content topic : str) (tags : option (list str))
    (word_count : option nat) (meta_description slug : option str) :
  keeps_random (save_blog_post U E title content topic tags word_count
                  meta_description slug).
Proof.
  intros w. run_database.
  destruct (connected w) eqn:Hc; simpl; rewrite ?Hc; simpl.
  - destruct (prisma_fault E (prisma_calls w)); reflexivity.
  - destruct (prisma_fault E (prisma_calls w)); simpl; [reflexivity |].
    destruct (prisma_fault E (S (prisma_calls w))); reflexivity.
Qed.

Lemma keeps_generate_failed (E : Env) (topic : str) (e : exn) :
  keeps_random (generate_failed E topic e).
Proof.
  unfold generate_failed. apply keeps_bindM; [apply keeps_log_generation |].
  intros _. apply keeps_ret.
Qed.

Lemma keeps_generate_body (U : UnicodeDB) (F : faults) (E : Env) (topic : str) :
  keeps_random (generate_body U F E topic).
Proof.
  unfold generate_body.
  apply keeps_bindM; [apply keeps_log_generation | intros _].
  apply keeps_bindM; [apply keeps_lift | intros [text |]].
  - apply keeps_bindM; [apply keeps_lift | intros comps].
    apply keeps_bindM; [apply keeps_save_blog_post | intros [post |]];
      (apply keeps_bindM; [apply keeps_log_generation | intros _]);
      apply keeps_ret.
  - apply keeps_bindM; [apply keeps_log_generation | intros _].
    apply keeps_ret.
Qed.

Lemma random_choice_draws {A} (E : Env) (seq : list A) (w : World) :
  seq <> [] ->
  exists x,
    fst (random_choice E seq w) = Return x
    /\ random_calls (snd (random_choice E seq w)) = S (random_calls w).
Proof.
  destruct seq as [| a seq]; [congruence |]. intros _.
  eexists. split; reflexivity.
Qed.

Lemma generate_dynamic_topic_draws (E : Env) (w : World) :
  exists topic w',
    generate_dynamic_topic E w = (Return topic, w')
    /\ random_calls w' = S (S (random_calls w)).
Proof.
  unfold generate_dynamic_topic, bindM.
  destruct (@random_choice_draws _ E GENERATIVE_AI_TOPICS w) as (x & H1 & R1);
    [discriminate |].
  destruct (random_choice E GENERATIVE_AI_TOPICS w) as [o1 w1].
  cbn [fst snd] in H1, R1. subst o1.
  destruct (@random_choice_draws _ E (trending_aspects E) w1) as (y & H2 & R2);
    [discriminate |].
  destruct (random_choice E (trending_aspects E) w1) as [o2 w2].
  cbn [fst snd] in H2, R2. subst o2.
  eexists. eexists. split; [reflexivity |]. cbn [ret]. congruence.
Qed.

End RandomUse.

Import RandomUse.

(** X23.  Whatever the database and the pipeline do, one invocation of
    [generate_blog_post] draws from the random source exactly twice when
    it is given no topic or an empty one (the base topic and the aspect),
    and never when it is given a topic. *)
Theorem generate_blog_post_draws :
  forall (U : UnicodeDB) (F : faults) (E : Env) (custom_topic : option str)
         (w : World),
    random_calls (snd (generate_blog_post U F E custom_topic w))
    = match custom_topic with
      | Some (_ :: _) => random_calls w
      | _ => S (S (random_calls w))
      end.
Proof.
  intros U F E custom_topic w.
  assert (Hrest : forall topic w1,
            random_calls
              (snd (try_exceptM (generate_body U F E topic)
                      (generate_failed E topic) w1))
            = random_calls w1).
  { intros topic w1.
    apply (@keeps_try _ (generate_body U F E topic) (generate_failed E topic)).
    - apply keeps_generate_body.
    - intros e. apply keeps_generate_failed. }
  assert (Hdyn : random_calls
                   (snd (match generate_dynamic_topic E w with
                         | (Raise e, w') => generate_failed E (py "unknown") e w'
                         | (Return topic, w') =>
                             try_exceptM (generate_body U F E topic)
                               (generate_failed E topic) w'
                         end))
                 = S (S (random_calls w))).
  { destruct (generate_dynamic_topic_draws E w) as (topic & w1 & H & R).
    rewrite H, Hrest. exact R. }
  unfold generate_blog_post.
  destruct custom_topic as [[| c rest] |]; cbn [resolve_topic].
  - exact Hdyn.
  - cbn [ret]. apply Hrest.
  - exact Hdyn.
Qed.

(** ** The slug and the case of the title *)

Module SlugCase.
Import connection.

Lemma lower_from_ascii (U : UnicodeDB) (s : str) :
  forall whole i,
    forallb is_ascii s = true ->
    lower_from U whole i s = map ascii_lower s.
Proof.
  induction s as [| c s IH]; intros whole i H; cbn [lower_from map];
    [reflexivity |].
  cbn [forallb] in H. apply andb_true_iff in H. destruct H as [Hc Hs].
  unfold lower_at. rewrite Hc, (IH _ _ Hs). reflexivity.
Qed.

End SlugCase.

Import SlugCase.

(** X24.  Two ASCII titles that differ only in the case of their letters
    have the same slug. *)
Theorem generate_slug_ignores_ascii_case :
  forall (U : UnicodeDB) (title title' : str),
    forallb is_ascii title = true ->
    forallb is_ascii title' = true ->
    map ascii_lower title = map ascii_lower title' ->
    generate_slug U title = generate_slug U title'.
Proof.
  intros U title title' H H' E. unfold generate_slug, lower.
  rewrite (lower_from_ascii U title title 0 H),
    (lower_from_ascii U title' title' 0 H'), E.
  reflexivity.
Qed.

Lemma generate_slug_ignores_ascii_case_witness :
  generate_slug ascii_tables (py "AI Agents: A Primer")
  = generate_slug ascii_tables (py "ai agents: a PRIMER").
Proof.
  apply (@generate_slug_ignores_ascii_case ascii_tables
           (py "AI Agents: A Primer") (py "ai agents: a PRIMER"));
    reflexivity.
Defined.

(* ================================================================== *)
(** * Part IV.  A post with a heading line and a tags line             *)
(* ================================================================== *)

(** ** Searching past a prefix *)

Module SearchFacts.
Import Re.

(** No match of [r] begins inside [pre], the start of a text [pre ++ s]
    that follows the code point [prev]. *)
Fixpoint no_match_in (fl : flags) (r : regex) (prev : option char)
    (pre s : str) : Prop :=
  match pre with
  | [] => True
  | c :: pre' =>
      match_at fl r prev (pre ++ s) = None
      /\ no_match_in fl r (Some c) pre' s
  end.

(** The code point before the position at the end of [pre]. *)
Fixpoint last_of (prev : option char) (pre : str) : option char :=
  match pre with
  | [] => prev
  | c :: pre' => last_of (Some c) pre'
  end.

Lemma last_of_snoc (prev : option char) (pre : str) (c : char) :
  last_of prev (pre ++ [c]) = Some c.
Proof.
  revert prev. induction pre as [| x pre IH]; intros prev; cbn.
  - reflexivity.
  - apply IH.
Qed.

(** The search goes on after a prefix in which no match begins. *)
Lemma search_from_skip (fl : flags) (r : regex) (pre : str) :
  forall prev s pos,
    no_match_in fl r prev pre s ->
    search_from fl r prev (pre ++ s) pos
    = search_from fl r (last_of prev pre) s (pos + List.length pre).
Proof.
  induction pre as [| c pre IH]; intros prev s pos H.
  - cbn [app last_of List.length]. rewrite Nat.add_0_r. reflexivity.
  - destruct H as [H0 H]. cbn [app] in H0.
    cbn [app last_of List.length].
    destruct s as [| x s'] eqn:Es.
    + rewrite app_nil_r in *.
      assert (E : search_from fl r prev (c :: pre) pos
                  = search_from fl r (Some c) pre (S pos)).
      { cbn [search_from]. rewrite H0. reflexivity. }
      rewrite E. specialize (IH (Some c) [] (S pos) H).
      rewrite app_nil_r in IH. rewrite IH. f_equal. lia.
    + assert (E : search_from fl r prev (c :: pre ++ x :: s') pos
                  = search_from fl r (Some c) (pre ++ x :: s') (S pos)).
      { cbn [search_from]. rewrite H0. reflexivity. }
      rewrite E. rewrite (IH (Some c) (x :: s') (S pos) H). f_equal. lia.
Qed.

End SearchFacts.

(** ** The heading line *)

Module FirstHeading.
Import Re blog_generator TitleHeading SearchFacts.

(** Some line of [s], a text that follows [prev], begins with # followed
    by white space or by the end of [s]. *)
Fixpoint heading_starts (prev : option char) (s : str) : bool :=
  match s with
  | [] => false
  | c :: s' =>
      (at_bol M_ prev && (c =? 35)%N
       && match s' with
          | d :: _ => isspace d
          | [] => true
          end)
      || heading_starts (Some c) s'
  end.

(** The heading pattern needs # at the start of a line and white space
    after it. *)
Lemma title_needs_start (prev : option char) (c d : char) (s : str) :
  at_bol M_ prev && (c =? 35)%N && isspace d = false ->
  match_at M_ title_re prev (c :: d :: s) = None.
Proof.
  intros H. unfold match_at, title_re. cbn [seq]. cbn [m before start_at].
  destruct (at_bol M_ prev); [| reflexivity].
  unfold chr_match. cbn [IGNORECASE M_].
  destruct (c =? 35)%N; [| reflexivity].
  cbn [andb] in H. cbn [rep_greedy].
  assert (Hd : cset_match M_ space d = false).
  { unfold cset_match, space, set_of. cbn. rewrite H. reflexivity. }
  rewrite Hd. reflexivity.
Qed.

Lemma no_heading_before (pre : str) :
  forall prev x s,
    heading_starts prev pre = false ->
    no_match_in M_ title_re prev pre (x :: s).
Proof.
  induction pre as [| c pre IH]; intros prev x s H; cbn [no_match_in].
  - exact I.
  - cbn [heading_starts] in H. apply orb_false_iff in H.
    destruct H as [H0 H]. split; [| apply IH, H].
    destruct pre as [| d pre']; cbn [app].
    + apply title_needs_start.
      apply andb_false_iff in H0. destruct H0 as [H0 | H0];
        [rewrite H0; reflexivity | discriminate H0].
    + apply title_needs_start. exact H0.
Qed.

(** The search finds the first heading line of a text. *)
Lemma search_first_heading (pre : str) (c : char) (a rest : str) :
  pre = [] \/ (exists p, pre = p ++ [nl]) ->
  heading_starts None pre = false ->
  isspace c = false -> Forall (fun x => x <> nl) (c :: a) ->
  rest = [] \/ (exists more, rest = nl :: more) ->
  exists mt,
    search M_ title_re (pre ++ 35%N :: 32%N :: c :: a ++ rest) = Some mt
    /\ m_group1 mt = Some (c :: a).
Proof.
  intros Hpre Hh Hc Hl Hrest. unfold search.
  rewrite (@search_from_skip M_ title_re pre None _ 0
             (no_heading_before pre None _ _ Hh)).
  assert (Hb : at_bol M_ (last_of None pre) = true).
  { destruct Hpre as [-> | [p ->]]; [reflexivity |].
    rewrite last_of_snoc. reflexivity. }
  destruct (@match_title_heading (last_of None pre) c a rest Hb Hc Hl Hrest)
    as [n Hn].
  assert (E : search_from M_ title_re (last_of None pre)
                (35%N :: 32%N :: c :: a ++ rest) (0 + List.length pre)
              = Some {| m_start := 0 + List.length pre;
                        m_end := 0 + List.length pre + n;
                        m_group1 := Some (c :: a) |}).
  { cbn [search_from]. rewrite Hn. reflexivity. }
  eexists. split; [exact E | reflexivity].
Qed.

End FirstHeading.

(** ** The tags line *)

Module TagsLine.
Import Re blog_generator StripFacts ExtractShape TitleTagsFacts TitleHeading
  HeadingText SearchFacts.

(** [s] begins with the literal text [l], as the flags compare code
    points. *)
Fixpoint lit_prefix (fl : flags) (l s : str) : bool :=
  match l with
  | [] => true
  | x :: l' =>
      match s with
      | c :: s' => chr_match fl x c && lit_prefix fl l' s'
      | [] => false
      end
  end.

Lemma m_lit (R : Type) (fl : flags) (l : str) :
  forall p s (k : kont R),
    m fl (lit l) p s k
    = if lit_prefix fl l s
      then k (takes (firstn (List.length l) s) p) (skipn (List.length l) s)
      else None.
Proof.
  induction l as [| x l IH]; intros p s k.
  - reflexivity.
  - destruct l as [| y l'].
    + cbn [lit m lit_prefix List.length]. destruct s as [| c s']; [reflexivity |].
      rewrite andb_true_r. reflexivity.
    + change (lit (x :: y :: l')) with (RSeq (RChar x) (lit (y :: l'))).
      cbn [m]. cbn [lit_prefix]. destruct s as [| c s']; [reflexivity |].
      destruct (chr_match fl x c); [| reflexivity].
      rewrite IH. cbn [andb]. reflexivity.
Qed.

(** The marker of the tags line, and the text at which it begins, in any
    case: it begins at [s], or somewhere in [pre] when [s] follows
    [pre]. *)
Definition marker : str := py "**Tags:**".

Definition marker_here (s : str) : bool := lit_prefix MI marker s.

Fixpoint marker_before (pre s : str) : bool :=
  match pre with
  | [] => false
  | _ :: pre' => marker_here (pre ++ s) || marker_before pre' s
  end.

(** r"\s*(.+?)(?:\n|$)" *)
Definition after_marker : regex := seq [RRep true 0 space; lazy_text; eol].

Lemma tags_marker_re_parts :
  tags_marker_re = RSeq (lit marker) after_marker.
Proof. reflexivity. Qed.

Lemma marker_needed (prev : option char) (s : str) :
  marker_here s = false -> match_at MI tags_marker_re prev s = None.
Proof.
  intros H. unfold match_at. rewrite tags_marker_re_parts. cbn [m].
  rewrite m_lit. fold (marker_here s). rewrite H. reflexivity.
Qed.

Lemma no_marker_before (pre : str) :
  forall prev s,
    marker_before pre s = false -> no_match_in MI tags_marker_re prev pre s.
Proof.
  induction pre as [| c pre IH]; intros prev s H; cbn [no_match_in].
  - exact I.
  - cbn [marker_before] in H. apply orb_false_iff in H. destruct H as [H0 H].
    split; [apply marker_needed, H0 | apply IH, H].
Qed.

(** At the marker, the group captures the rest of the line. *)
Lemma match_tags_line (prev : option char) (c : char) (a rest : str) :
  isspace c = false -> Forall (fun x => x <> nl) (c :: a) ->
  rest = [] \/ (exists more, rest = nl :: more) ->
  exists n,
    match_at MI tags_marker_re prev (marker ++ 32%N :: (c :: a) ++ rest)
    = Some (n, Some (c :: a)).
Proof.
  intros Hc Hl Hrest.
  assert (Hs32 : cset_match MI space 32 = true) by reflexivity.
  assert (Hsc : cset_match MI space c = false).
  { unfold cset_match, space, set_of. cbn. rewrite Hc. reflexivity. }
  destruct (@capture_line MI newline_only_MI c a rest
              (take 32 (takes marker (start_at prev))) Hl Hrest) as [n Hn].
  exists n.
  unfold match_at. rewrite tags_marker_re_parts. cbn [m]. rewrite m_lit.
  change (lit_prefix MI marker (marker ++ 32%N :: (c :: a) ++ rest)) with true.
  cbn iota.
  change (firstn (List.length marker) (marker ++ 32%N :: (c :: a) ++ rest))
    with marker.
  change (skipn (List.length marker) (marker ++ 32%N :: (c :: a) ++ rest))
    with (32%N :: (c :: a) ++ rest).
  unfold after_marker. cbn [seq]. cbn [m].
  cbn [rep_greedy]. rewrite Hs32. cbn [rep_greedy pred app]. rewrite Hsc.
  cbn [m] in Hn. cbn [app] in Hn. unfold final in Hn.
  rewrite Hn. reflexivity.
Qed.

(** The search finds the first marker of a text. *)
Lemma search_tags_line (pre : str) (c : char) (a rest : str) :
  marker_before pre (marker ++ 32%N :: (c :: a) ++ rest) = false ->
  isspace c = false -> Forall (fun x => x <> nl) (c :: a) ->
  rest = [] \/ (exists more, rest = nl :: more) ->
  exists mt,
    search MI tags_marker_re (pre ++ marker ++ 32%N :: (c :: a) ++ rest)
    = Some mt
    /\ m_group1 mt = Some (c :: a).
Proof.
  intros Hm Hc Hl Hrest. unfold search.
  rewrite (@search_from_skip MI tags_marker_re pre None _ 0
             (no_marker_before pre None _ Hm)).
  destruct (@match_tags_line (last_of None pre) c a rest Hc Hl Hrest)
    as [n Hn].
  assert (E : search_from MI tags_marker_re (last_of None pre)
                (marker ++ 32%N :: (c :: a) ++ rest)
                (0 + List.length pre)
              = Some {| m_start := 0 + List.length pre;
                        m_end := 0 + List.length pre + n;
                        m_group1 := Some (c :: a) |}).
  { change (marker ++ 32%N :: (c :: a) ++ rest)
      with (42%N :: tl marker ++ 32%N :: (c :: a) ++ rest) in *.
    cbn [search_from]. rewrite Hn. reflexivity. }
  eexists. split; [exact E | reflexivity].
Qed.

(** *** The tokens of the line *)

(** A token of a tags line: not empty, without white space at its ends,
    and free of the delimiters and of newlines. *)
Definition tag_token (t : str) : Prop :=
  t <> []
  /\ strip t = t
  /\ Forall (fun c => c <> nl /\ is_delimiter c = false) t.

Lemma match_delimiter (prev : option char) (c : char) (s : str) :
  match_at no_flags tag_delimiters prev (c :: s)
  = if is_delimiter c then Some (1, None) else None.
Proof.
  unfold match_at, tag_delimiters, is_delimiter, mem. cbn [m].
  unfold cset_match, set_of. cbn.
  destruct (c =? 44)%N; [reflexivity |].
  destruct (c =? 59)%N; [reflexivity |].
  destruct (c =? 124)%N; reflexivity.
Qed.

Lemma split_token (t : str) :
  Forall (fun c => c <> nl /\ is_delimiter c = false) t ->
  forall prev cur s,
    split_from no_flags tag_delimiters prev cur (t ++ s) 0
    = split_from no_flags tag_delimiters (last_of prev t) (rev t ++ cur) s 0.
Proof.
  induction 1 as [| c t [_ Hc] Ht IH]; intros prev cur s.
  - reflexivity.
  - cbn [app split_from last_of rev]. rewrite match_delimiter, Hc.
    rewrite IH. rewrite <- app_assoc. reflexivity.
Qed.

(** The pieces of a line of tokens joined by ", ": the first token, and
    the others after a blank. *)
Lemma split_tokens (ts : list str) :
  Forall tag_token ts ->
  forall t prev cur,
    Forall (fun c => c <> nl /\ is_delimiter c = false) t ->
    split_from no_flags tag_delimiters prev cur (join (py ", ") (t :: ts)) 0
    = rev (rev t ++ cur) :: map (cons 32%N) ts.
Proof.
  induction 1 as [| u ts Hu Hts IH]; intros t prev cur Ht.
  - cbn [join map]. rewrite <- (app_nil_r t) at 1.
    rewrite (split_token Ht). reflexivity.
  - change (join (py ", ") (t :: u :: ts))
      with (t ++ 44%N :: 32%N :: join (py ", ") (u :: ts)).
    rewrite (split_token Ht). cbn [split_from].
    rewrite !match_delimiter.
    change (is_delimiter 44) with true. change (is_delimiter 32) with false.
    cbn iota. destruct Hu as (_ & _ & Hu).
    f_equal.
    transitivity (rev (rev u ++ [32%N]) :: map (cons 32%N) ts);
      [exact (IH u (Some 32%N) [32%N] Hu) |].
    cbn [map]. rewrite rev_app_distr, rev_involutive. reflexivity.
Qed.

Lemma strip_by_clean (p : char -> bool) (t : str) :
  Forall (fun c => p c = false) t -> strip_by p t = t.
Proof.
  intros H. unfold strip_by.
  assert (E : lstrip_by p t = t).
  { destruct H as [| c t Hc _]; [reflexivity |]. cbn. rewrite Hc. reflexivity. }
  rewrite E. clear E. induction H as [| c t Hc Ht IH]; [reflexivity |].
  rewrite (@rstrip_by_cons p c t Hc), IH. reflexivity.
Qed.

Lemma tidy_token (t : str) :
  tag_token t -> strip (strip_chars (py ",") (strip t)) = t.
Proof.
  intros (_ & Hs & Ht). rewrite Hs.
  assert (E : strip_chars (py ",") t = t).
  { apply strip_by_clean. apply Forall_impl with (2 := Ht).
    intros c [_ Hc]. unfold is_delimiter, mem in Hc. cbn in Hc.
    unfold mem. cbn. destruct (c =? 44)%N; [discriminate Hc | reflexivity]. }
  rewrite E. exact Hs.
Qed.

Lemma tidy_piece (t : str) :
  tag_token t -> strip (strip_chars (py ",") (strip (32%N :: t))) = t.
Proof.
  intros H. assert (E : strip (32%N :: t) = strip t) by reflexivity.
  rewrite E. apply tidy_token, H.
Qed.

Lemma tidy_pieces (ts : list str) :
  Forall tag_token ts ->
  map (fun x => strip (strip_chars (py ",") (strip (32%N :: x)))) ts = ts.
Proof.
  induction 1 as [| u ts Hu Hts IH]; [reflexivity |].
  cbn [map]. rewrite (tidy_piece Hu), IH. reflexivity.
Qed.

(** What the two list comprehensions keep of such a line: the tokens of
    more than one code point. *)
Lemma clean_tags_tokens (t : str) (ts : list str) :
  Forall tag_token (t :: ts) ->
  clean_tags (split no_flags tag_delimiters (join (py ", ") (t :: ts)))
  = filter (fun tag => 1 <? List.length tag) (t :: ts).
Proof.
  intros H. inversion H as [| t0 ts0 Ht Hts]; subst.
  destruct Ht as (Hne & Hs & Hd).
  assert (Esplit : split no_flags tag_delimiters (join (py ", ") (t :: ts))
                   = t :: map (cons 32%N) ts).
  { transitivity (rev (rev t ++ []) :: map (cons 32%N) ts);
      [exact (split_tokens Hts None [] Hd) |].
    rewrite app_nil_r, rev_involutive. reflexivity. }
  rewrite Esplit. unfold clean_tags. cbn [map].
  rewrite (tidy_token (conj Hne (conj Hs Hd))).
  rewrite map_map.
  rewrite (tidy_pieces Hts). apply filter_ext. intros tag. destruct tag; reflexivity.
Qed.

(** The line of the tokens is one line, and begins with a code point
    that is not white space. *)
Lemma tokens_line (t : str) (ts : list str) :
  Forall tag_token (t :: ts) ->
  exists c a,
    join (py ", ") (t :: ts) = c :: a
    /\ isspace c = false
    /\ Forall (fun x => x <> nl) (c :: a).
Proof.
  intros H.
  assert (Hl : Forall (fun x => x <> nl) (join (py ", ") (t :: ts))).
  { clear - H. revert t H. induction ts as [| u ts IH]; intros t H.
    - inversion H as [| t0 ts0 (_ & _ & Ht) _]; subst. cbn [join].
      apply Forall_impl with (2 := Ht). intros c [Hc _]. exact Hc.
    - inversion H as [| t0 ts0 (_ & _ & Ht) Hts]; subst.
      change (join (py ", ") (t :: u :: ts))
        with (t ++ 44%N :: 32%N :: join (py ", ") (u :: ts)).
      apply Forall_app. split.
      + apply Forall_impl with (2 := Ht). intros c [Hc _]. exact Hc.
      + constructor; [discriminate |]. constructor; [discriminate |].
        apply IH, Hts. }
  inversion H as [| t0 ts0 (Hne & Hs & _) _]; subst.
  destruct t as [| c a]; [congruence |].
  assert (E : exists a', join (py ", ") ((c :: a) :: ts) = c :: a').
  { destruct ts; cbn [join]; eexists; reflexivity. }
  destruct E as [a' E]. exists c, a'. split; [exact E |].
  split; [exact (stripped_start Hs) |]. rewrite <- E. exact Hl.
Qed.

End TagsLine.

Import SearchFacts FirstHeading TagsLine.

(** C1, as amended.  Take a text that, without the white space at its
    ends, holds the line "# My Title", with no earlier line that begins
    with # and white space, and later the text "**Tags:** " followed up
    to the end of its line by tokens joined by ", ", the marker
    "**Tags:**" beginning nowhere before it, in any case of its letters.
    When the tokens are not empty, have no white space at their ends and
    hold none of , ; | then the title is "My Title" and the tags are the
    tokens of more than one code point, the first seven of them, or the
    default tag set when no token has more than one code point: so for
    "**Tags:** a, b, c" the default tag set, for "**Tags:** ai, ml, nlp"
    exactly ai, ml, nlp. *)
Theorem C1_title_and_tags :
  forall (U : UnicodeDB) (crew_output pre body rest : str)
         (tokens : list str),
    strip crew_output
    = pre ++ py "# My Title\n" ++ body
      ++ py "**Tags:** " ++ join (py ", ") tokens ++ rest ->
    pre = [] \/ (exists p, pre = p ++ [nl]) ->
    heading_starts None pre = false ->
    marker_before (pre ++ py "# My Title\n" ++ body)
      (py "**Tags:** " ++ join (py ", ") tokens ++ rest) = false ->
    tokens <> [] ->
    Forall tag_token tokens ->
    rest = [] \/ (exists more, rest = nl :: more) ->
    exists r,
      extract_blog_components U no_faults crew_output = Return r
      /\ blog_generator.title r = py "My Title"
      /\ blog_generator.tags r
         = (let long := filter (fun t => 1 <? List.length t) tokens in
            if is_empty long then default_tags else firstn 7 long).
Proof.
  intros U crew_output pre body rest tokens Hs Hpre Hh Hm Hne Ht Hrest.
  destruct tokens as [| t ts]; [congruence |]. clear Hne.
  destruct (tokens_line Ht) as (c & a & Ej & Hc & Hl).
  rewrite Ej in Hs, Hm.
  assert (Htitle : title_step (strip crew_output) = Return (py "My Title")).
  { destruct (@search_first_heading pre 77%N (py "y Title")
                (nl :: body ++ py "**Tags:** " ++ (c :: a) ++ rest)
                Hpre Hh eq_refl)
      as (mt & Hmt & Hg).
    - repeat constructor; discriminate.
    - right. eexists. reflexivity.
    - unfold title_step. rewrite Hs.
      match goal with
      | |- context [search M_ title_re ?x] =>
          replace (search M_ title_re x) with (Some mt)
            by (symmetry; exact Hmt)
      end.
      unfold group1_or. rewrite Hg. reflexivity. }
  assert (Htags : tags_loop no_faults 0 tags_patterns (strip crew_output)
                  = Return (filter (fun tag => 1 <? List.length tag)
                              (t :: ts))).
  { destruct (@search_tags_line (pre ++ py "# My Title\n" ++ body) c a rest
                Hm Hc Hl Hrest) as (mt & Hmt & Hg).
    rewrite <- !app_assoc in Hmt.
    rewrite (@tags_loop_marker (strip crew_output) mt (c :: a)).
    - rewrite <- Ej, (clean_tags_tokens Ht). reflexivity.
    - rewrite Hs. exact Hmt.
    - exact Hg. }
  destruct (@extract_body_fields U crew_output _ _ Htitle Htags)
    as (r & Hr & Hrt & Hrg).
  exists r. split; [unfold extract_blog_components; rewrite Hr; reflexivity |].
  split; [rewrite Hrt; reflexivity |].
  rewrite Hrg. cbn zeta.
  destruct (filter (fun tag => 1 <? List.length tag) (t :: ts));
    reflexivity.
Qed.

(** A post with an introduction before the heading, bold text in its
    body and a meta description after the tags line. *)
Lemma C1_title_and_tags_witness :
  exists r,
    extract_blog_components ascii_tables no_faults
      (py "Intro line\n# My Title\nSome **bold** text\n**Tags:** ai, ml, nlp\nMeta Description: short")
    = Return r
    /\ blog_generator.title r = py "My Title"
    /\ blog_generator.tags r = [py "ai"; py "ml"; py "nlp"].
Proof.
  apply (@C1_title_and_tags ascii_tables
           (py "Intro line\n# My Title\nSome **bold** text\n**Tags:** ai, ml, nlp\nMeta Description: short")
           (py "Intro line\n") (py "Some **bold** text\n")
           (py "\nMeta Description: short") [py "ai"; py "ml"; py "nlp"]).
  - reflexivity.
  - right. exists (py "Intro line"). reflexivity.
  - reflexivity.
  - reflexivity.
  - discriminate.
  - repeat (apply Forall_cons;
            [split; [discriminate |];
             split; [reflexivity |];
             repeat (apply Forall_cons; [split; [discriminate | reflexivity] |]);
             apply Forall_nil |]).
    apply Forall_nil.
  - right. eexists. reflexivity.
Defined.

(** C1 as stated fails.  On "# My Title\n...\n**Tags:** a, b, c" the
    tags are not a, b, c but the default tag set.  And a text can hold
    the heading line and, later, a tags line and still get another title
    or other tags: the title is taken from the first heading line, the
    tags from the first marker. *)
Lemma C1_counterexample :
  ~ (exists r,
       extract_blog_components ascii_tables no_faults
         (py "# My Title\n...\n**Tags:** a, b, c") = Return r
       /\ blog_generator.title r = py "My Title"
       /\ blog_generator.tags r = [py "a"; py "b"; py "c"])
  /\ (exists r,
        extract_blog_components ascii_tables no_faults
          (py "# My Title\n...\n**Tags:** a, b, c") = Return r
        /\ blog_generator.title r = py "My Title"
        /\ blog_generator.tags r = default_tags)
  /\ (exists r,
        extract_blog_components ascii_tables no_faults
          (py "# Draft\n# My Title\n...\n**Tags:** ai, ml, nlp") = Return r
        /\ blog_generator.title r = py "Draft"
        /\ blog_generator.tags r = [py "ai"; py "ml"; py "nlp"])
  /\ (exists r,
        extract_blog_components ascii_tables no_faults
          (py "# My Title\nOld **tags:** misc notes\n**Tags:** ai, ml, nlp")
        = Return r
        /\ blog_generator.title r = py "My Title"
        /\ blog_generator.tags r = [py "misc notes"]).
Proof.
  split.
  - intros (r & Hr & _ & Ht). vm_compute in Hr. inversion Hr; subst r.
    vm_compute in Ht. discriminate Ht.
  - split; [| split];
      (eexists; split; [vm_compute; reflexivity | split; reflexivity]).
Qed.
